(** * HandofRhythm: the gesture-driven particle engine, embedded in Rocq

    A shallow embedding of [components/JazzCanvas.tsx] (hand signal mapper,
    frame orchestrator, event overlay, the liquid / vortex / neural particle
    systems) and of [services/handTracking.ts] (the tracker's start / stop).

    JavaScript numbers are modelled as real numbers: [Math.sqrt] is [sqrt],
    [Math.max] / [Math.min] are [Rmax] / [Rmin], comparisons are decided with
    [Rlt_dec] and friends.  Binary64 rounding is outside that model; the
    two counting loops whose exit could depend on rounding (the life of a
    note trigger, the decay of the beat flash) are replayed on binary64
    numbers in [Binary64].  The p5 helpers the sketch calls ([p.map],
    [p.dist], the [p5.Vector] methods) follow the p5 reference; [p.noise],
    [p.atan2] and the random generator are oracles passed in.  Drawing is
    modelled by the list of calls sent to the surface. *)

From Stdlib Require Import Reals Lra Lia List Bool Arith String.
From Stdlib Require PrimFloat.
Import ListNotations.
Open Scope R_scope.

(** ** The p5 helpers used by the sketch *)

Module P5.

Record Vector : Type := createVector { x : R; y : R }.

Definition add (a b : Vector) : Vector := createVector (x a + x b) (y a + y b).
Definition sub (a b : Vector) : Vector := createVector (x a - x b) (y a - y b).
Definition mult (a : Vector) (k : R) : Vector := createVector (x a * k) (y a * k).
Definition div (a : Vector) (k : R) : Vector := createVector (x a / k) (y a / k).
Definition magSq (a : Vector) : R := x a * x a + y a * y a.
Definition mag (a : Vector) : R := sqrt (magSq a).

(** [normalize]: scale to length 1, leaving the zero vector alone. *)
Definition normalize (a : Vector) : Vector :=
  let len := mag a in
  if Req_dec_T len 0 then a else mult a (1 / len).

(** [limit max]: rescale to length [max] when longer than [max]. *)
Definition limit (a : Vector) (max : R) : Vector :=
  let mSq := magSq a in
  if Rlt_dec (max * max) mSq then mult (div a (sqrt mSq)) max else a.

Definition fromAngle (angle : R) : Vector := createVector (cos angle) (sin angle).

Definition TWO_PI : R := 2 * PI.

(** [map n start1 stop1 start2 stop2], without the optional clamping flag. *)
Definition map (n start1 stop1 start2 stop2 : R) : R :=
  (n - start1) / (stop1 - start1) * (stop2 - start2) + start2.

Definition constrain (n low high : R) : R := Rmax (Rmin n high) low.

Definition dist (x1 y1 x2 y2 : R) : R :=
  sqrt ((x2 - x1) * (x2 - x1) + (y2 - y1) * (y2 - y1)).

Definition lerp (start stop amt : R) : R := amt * (stop - start) + start.

(** [random min max] from one raw draw [u] of the generator, [0 <= u < 1]. *)
Definition random (u min max : R) : R := u * (max - min) + min.

(** What the sketch sends to the drawing surface.  [Circle] and [Ellipse]
    take the DIAMETER as their size argument, as [p.circle(x, y, d)] and
    [p.ellipse(x, y, w)] do. *)
Inductive DrawCmd : Type :=
| BlendModeBLEND
| BlendModeADD
| Push
| Pop
| FillGray (gray alpha : R)
| FillHSBA (h s b alpha : R)
| NoFill
| NoStroke
| StrokeWeight (w : R)
| StrokeHSBA (h s b alpha : R)
| Rect (x0 y0 w h : R)
| Circle (cx cy d : R)
| Ellipse (cx cy d : R)
| Line (x1 y1 x2 y2 : R).

End P5.

(** ** types.ts *)

Record HandCoordinates : Type := mkCoords { hx : R; hy : R }.

Record HandState : Type := mkHandState {
  left : option HandCoordinates;
  right : option HandCoordinates;
  isLeftPinching : bool;
  isRightPinching : bool;
  leftSqueeze : R;
  rightSqueeze : R
}.

Inductive GameGenre : Type := JAZZ | ELECTRONIC | FUNK.

(** The initial value of [handStateRef], which is also what
    [onHandResults] stores for a frame in which no hand is detected. *)
Definition noHands : HandState := mkHandState None None false false 0 0.

(** ** Hand signal mapper (JazzCanvas.tsx, [getHandOpenness], [onHandResults]) *)

Module HandMapper.

(** One landmark point of the tracker; only [x] and [y] are read. *)
Record Landmark : Type := mkLandmark { lx : R; ly : R }.

(** The distance summed by the [tips.forEach] body. *)
Definition tipDist (wrist tip : Landmark) : R :=
  sqrt ((lx tip - lx wrist) ^ 2 + (ly tip - ly wrist) ^ 2).

Definition tips : list nat := [8; 12; 16; 20]%nat.

(** The last two lines of [getHandOpenness]. *)
Definition opennessOf (avgDist : R) : R :=
  let openness := (avgDist - 0.15) / 0.25 in
  Rmax 0 (Rmin 1 openness).

(** [landmarks[idx]] behind the length guard; the default is never read
    there (see [guarded_index]). *)
Definition at_ (l : list Landmark) (idx : nat) : Landmark :=
  nth idx l (mkLandmark 0 0).

(** [getHandOpenness]; [None] is a missing (null / undefined) list. *)
Definition getHandOpenness (landmarks : option (list Landmark)) : R :=
  match landmarks with
  | None => 0
  | Some l =>
      if (List.length l <? 21)%nat then 0
      else
        let wrist := at_ l 0 in
        let totalDist :=
          fold_left (fun acc idx => acc + tipDist wrist (at_ l idx)) tips 0 in
        let avgDist := totalDist / 4 in
        opennessOf avgDist
  end.

(** [squeeze = 1.0 - openness], as a function of the average distance. *)
Definition squeezeOf (avgDist : R) : R := 1 - opennessOf avgDist.

(** What the tracker hands to [onHandResults]. *)
Record Results : Type := mkResults {
  multiHandLandmarks : option (list (option (list Landmark)));
  multiHandedness : list string
}.

Inductive AudioCall : Type :=
| updateRightHand (v h : R) (present : bool) (squeeze : R)
| updateLeftHand (v h : R) (present : bool) (squeeze : R).

(** A JavaScript call either returns or throws a [TypeError]. *)
Inductive outcome (A : Type) : Type :=
| Returned (a : A)
| TypeError.
Arguments Returned {A} a.
Arguments TypeError {A}.

(** The locals of [onHandResults]. *)
Record Locals : Type := mkLocals {
  l_left : option HandCoordinates;
  l_right : option HandCoordinates;
  l_leftSqueeze : R;
  l_rightSqueeze : R
}.

(** One iteration of the [for ... of results.multiHandLandmarks.entries()]
    loop.  Reading [.label] of a missing handedness entry, indexing a
    missing landmark list, and reading [.x] of a missing point all throw. *)
Definition handStep (handedness : list string) (index : nat)
    (landmarks : option (list Landmark)) (st : Locals) : outcome Locals :=
  match nth_error handedness index with
  | None => TypeError
  | Some label =>
      let isRight := String.eqb label "Right"%string in
      match landmarks with
      | None => TypeError
      | Some l =>
          match nth_error l 8 with
          | None => TypeError
          | Some tip =>
              let coords := mkCoords (1 - lx tip) (ly tip) in
              let openness := getHandOpenness landmarks in
              let squeeze := 1 - openness in
              if isRight
              then Returned (mkLocals (l_left st) (Some coords)
                                      (l_leftSqueeze st) squeeze)
              else Returned (mkLocals (Some coords) (l_right st)
                                      squeeze (l_rightSqueeze st))
          end
      end
  end.

Fixpoint handLoop (handedness : list string) (index : nat)
    (hands : list (option (list Landmark))) (st : Locals) : outcome Locals :=
  match hands with
  | [] => Returned st
  | landmarks :: rest =>
      match handStep handedness index landmarks st with
      | TypeError => TypeError
      | Returned st' => handLoop handedness (S index) rest st'
      end
  end.

(** [onHandResults]: the calls made to the audio engine and the hand state
    stored in [handStateRef]. *)
Definition onHandResults (results : Results)
  : outcome (list AudioCall * HandState) :=
  let init := mkLocals None None 0 0 in
  let looped :=
    match multiHandLandmarks results with
    | None => Returned init
    | Some hands => handLoop (multiHandedness results) 0 hands init
    end in
  match looped with
  | TypeError => TypeError
  | Returned st =>
      let callsR :=
        match l_right st with
        | Some r => [updateRightHand (hy r) (hx r) true (l_rightSqueeze st)]
        | None => []
        end in
      let callsL :=
        match l_left st with
        | Some l => [updateLeftHand (hy l) (hx l) true (l_leftSqueeze st)]
        | None => []
        end in
      Returned (callsR ++ callsL,
                mkHandState (l_left st) (l_right st) false false
                            (l_leftSqueeze st) (l_rightSqueeze st))
  end.

End HandMapper.

(** ** Frame orchestrator and event overlay (JazzCanvas.tsx, [p.draw]) *)

Module Orchestrator.
Import P5.

(** An entry of [noteTriggersRef.current]. *)
Record NoteTrigger : Type := mkTrigger { tx : R; ty : R; life : R }.

(** [audioEngine.onBeat] callback: the new value of [beatFlashRef.current]. *)
Definition onBeat (beatFlash : R) : R := 1.

(** [audioEngine.onNoteTriggered] callback: [push({x, y, life: 1.0})]. *)
Definition onNoteTriggered (tx0 ty0 : R) (triggers : list NoteTrigger)
  : list NoteTrigger :=
  triggers ++ [mkTrigger tx0 ty0 1].

(** Step 0 of [p.draw]: the hand positions in pixels, the velocities against
    the previous frame, and the positions kept for the next frame. *)
Definition handVec (width height : R) (h : option HandCoordinates)
  : option Vector :=
  match h with
  | Some c => Some (createVector (hx c * width) (hy c * height))
  | None => None
  end.

Definition handVel (cur prev : option Vector) : Vector :=
  match cur, prev with
  | Some c, Some q => sub c q
  | _, _ => createVector 0 0
  end.

(** The per-genre trail alpha. *)
Definition bgAlphaOf (genre : GameGenre) : R :=
  match genre with
  | JAZZ => 12
  | FUNK => 20
  | ELECTRONIC => 25
  end.

(** Step 1 of [p.draw]: the trail fill and the decay of the beat flash.  The
    flash is multiplied by 0.9 only while it is above 0.01. *)
Definition trailStep (genre : GameGenre) (width height beatFlash : R)
  : list DrawCmd * R :=
  let bgAlpha := bgAlphaOf genre in
  if Rlt_dec 0.01 beatFlash
  then ([FillHSBA 0 0 (20 * beatFlash) (bgAlpha + 10); Rect 0 0 width height],
        beatFlash * 0.9)
  else ([FillGray 0 bgAlpha; Rect 0 0 width height], beatFlash).

(** The beat flash after [n] ticks without a beat event. *)
Fixpoint flashAfter (genre : GameGenre) (width height : R) (n : nat)
    (beatFlash : R) : R :=
  match n with
  | O => beatFlash
  | S k => flashAfter genre width height k
             (snd (trailStep genre width height beatFlash))
  end.

(** [arr.splice(i, 1)] and the in-place write [arr[i].life -= 0.05]. *)
Definition splice1 {A : Type} (i : nat) (l : list A) : list A :=
  firstn i l ++ skipn (S i) l.

Definition setAt {A : Type} (i : nat) (a : A) (l : list A) : list A :=
  firstn i l ++ a :: skipn (S i) l.

(** The four drawing calls made for one trigger. *)
Definition drawTrigger (width height : R) (t : NoteTrigger) : list DrawCmd :=
  [NoFill; StrokeWeight 3; StrokeHSBA 0 0 100 (life t * 100);
   Circle (tx t * width) (ty t * height) ((1 - life t) * 200)].

(** The trigger loop, [for (i = length - 1; i >= 0; i--)]: [n] is [i + 1]. *)
Fixpoint triggerLoop (width height : R) (n : nat) (ts : list NoteTrigger)
  : list DrawCmd * list NoteTrigger :=
  match n with
  | O => ([], ts)
  | S i =>
      match nth_error ts i with
      | None => triggerLoop width height i ts
      | Some t =>
          let cmds := drawTrigger width height t in
          let t' := mkTrigger (tx t) (ty t) (life t - 0.05) in
          let ts' := if Rle_dec (life t') 0 then splice1 i ts
                     else setAt i t' ts in
          let (rest, out) := triggerLoop width height i ts' in
          (cmds ++ rest, out)
      end
  end.

Definition renderTriggers (width height : R) (ts : list NoteTrigger)
  : list DrawCmd * list NoteTrigger :=
  triggerLoop width height (List.length ts) ts.

(** The trigger list after [k] ticks in which no note event arrives. *)
Fixpoint triggersAfter (width height : R) (k : nat) (ts : list NoteTrigger)
  : list NoteTrigger :=
  match k with
  | O => ts
  | S j => triggersAfter width height j (snd (renderTriggers width height ts))
  end.

(** The radius of every ring a command list draws: a circle of diameter [d]
    has radius [d / 2]. *)
Fixpoint ringRadii (cmds : list DrawCmd) : list R :=
  match cmds with
  | [] => []
  | Circle _ _ d :: rest => d / 2 :: ringRadii rest
  | _ :: rest => ringRadii rest
  end.

End Orchestrator.

(** ** The sketch's surroundings

    [width] and [height] are the canvas size, [noise] is [p.noise],
    [atan2] is [p.atan2], and [draws] is the sequence of raw values of the
    random generator (each one in [[0, 1)]); a cursor into [draws] is
    threaded through every function that calls [p.random], [Math.random]
    or [random2D]. *)

Record Sketch : Type := mkSketch {
  width : R;
  height : R;
  noise : R -> R -> R -> R;
  atan2 : R -> R -> R;
  draws : nat -> R
}.

(** JavaScript's [a % b] on numbers: the remainder of the division
    truncated towards zero. *)
Definition truncZ (r : R) : Z :=
  if Rle_dec 0 r then Int_part r else (- Int_part (- r))%Z.

Definition jsMod (a b : R) : R := a - b * IZR (truncZ (a / b)).

(** ** Mode 0: the liquid particles (genre JAZZ) *)

Module Liquid.
Import P5.

Record LiquidParticle : Type := mkLiquid {
  pos : Vector;
  vel : Vector;
  acc : Vector;
  prevPos : Vector;
  maxSpeed : R
}.

(** The constructor: four draws of the generator. *)
Definition create (sk : Sketch) (c : nat) : LiquidParticle * nat :=
  let p0 := createVector (random (draws sk c) 0 (width sk))
                         (random (draws sk (c + 1)) 0 (height sk)) in
  (mkLiquid p0 (createVector 0 0) (createVector 0 0) p0
            (random (draws sk (c + 2)) 6 15),
   (c + 3)%nat).

(** The base flow of [update]. *)
Definition flowForce (sk : Sketch) (frameCount : nat) (at_pos : Vector)
  : Vector :=
  let nScale := 0.005 in
  let angle := noise sk (x at_pos * nScale) (y at_pos * nScale)
                     (INR frameCount * 0.005) * TWO_PI * 4 in
  mult (fromAngle angle) 0.5.

(** The pull towards a hand at distance [d], along [dir]. *)
Definition attraction (dir : Vector) (d : R) : Vector :=
  let attractionStr := map d 0 400 1.5 0 in
  mult (normalize dir) attractionStr.

(** The drag added when the hand moves fast: [hVel], normalised, times
    [p.map(d, 0, 300, 4, 0) * (velMag * 0.05)]. *)
Definition dragForce (d : R) (hVel : Vector) : Vector :=
  let velMag := mag hVel in
  mult (normalize hVel) (map d 0 300 4 0 * (velMag * 0.05)).

(** [p5.Vector.random2D()], scaled by 1.5. *)
Definition turbulence (u : R) : Vector :=
  mult (fromAngle (u * TWO_PI)) 1.5.

(** The closure [interact]: the acceleration after it and the cursor. *)
Definition interact (sk : Sketch) (at_pos : Vector)
    (h : option HandCoordinates) (hVel : Vector) (a : Vector) (c : nat)
  : Vector * nat :=
  match h with
  | None => (a, c)
  | Some hc =>
      let handPos := createVector (hx hc * width sk) (hy hc * height sk) in
      let dir := sub handPos at_pos in
      let d := mag dir in
      if Rlt_dec d 400 then
        let a1 := add a (attraction dir d) in
        let velMag := mag hVel in
        if Rlt_dec 5 velMag then
          let a2 := add a1 (dragForce d hVel) in
          (add a2 (turbulence (draws sk c)), S c)
        else (a1, c)
      else (a, c)
  end.

(** Steps 1 and 2 of [update]: the accumulated acceleration. *)
Definition forces (sk : Sketch) (frameCount : nat) (hands : HandState)
    (leftVel rightVel : Vector) (pt : LiquidParticle) (c : nat)
  : Vector * nat :=
  let a0 := add (acc pt) (flowForce sk frameCount (pos pt)) in
  let '(a1, c1) := interact sk (pos pt) (left hands) leftVel a0 c in
  interact sk (pos pt) (right hands) rightVel a1 c1.

(** Step 3 of [update], after [prevPos = pos.copy()]: the physics. *)
Definition integrate (pt : LiquidParticle) (a : Vector) : LiquidParticle :=
  let v1 := add (vel pt) a in
  let v2 := limit v1 (maxSpeed pt) in
  let v3 := mult v2 0.94 in
  mkLiquid (add (pos pt) v3) v3 (mult a 0) (pos pt) (maxSpeed pt).

Definition setPosX (pt : LiquidParticle) (nx : R) : LiquidParticle :=
  mkLiquid (createVector nx (y (pos pt))) (vel pt) (acc pt)
           (createVector nx (y (prevPos pt))) (maxSpeed pt).

Definition setPosY (pt : LiquidParticle) (ny : R) : LiquidParticle :=
  mkLiquid (createVector (x (pos pt)) ny) (vel pt) (acc pt)
           (createVector (x (prevPos pt)) ny) (maxSpeed pt).

(** Step 4 of [update]: the four tests, in the order of the source; each
    one writes the coordinate of [pos] and copies it into [prevPos]. *)
Definition wrap (sk : Sketch) (pt : LiquidParticle) : LiquidParticle :=
  let p1 := if Rlt_dec (width sk) (x (pos pt)) then setPosX pt 0 else pt in
  let p2 := if Rlt_dec (x (pos p1)) 0 then setPosX p1 (width sk) else p1 in
  let p3 := if Rlt_dec (height sk) (y (pos p2)) then setPosY p2 0 else p2 in
  if Rlt_dec (y (pos p3)) 0 then setPosY p3 (height sk) else p3.

Definition update (sk : Sketch) (frameCount : nat) (hands : HandState)
    (leftVel rightVel : Vector) (pt : LiquidParticle) (c : nat)
  : LiquidParticle * nat :=
  let '(a, c') := forces sk frameCount hands leftVel rightVel pt c in
  (wrap sk (integrate pt a), c').

(** [show]: the colour of the two speed regimes and the streak. *)
Definition show (pt : LiquidParticle) : list DrawCmd :=
  let speed := mag (vel pt) in
  let speedNorm := constrain (speed / (maxSpeed pt * 0.8)) 0 1 in
  let '(h, s, b, alpha) :=
    if Rlt_dec speedNorm 0.3
    then (map speedNorm 0 0.3 230 280, 80,
          map speedNorm 0 0.3 50 80, map speedNorm 0 0.3 40 70)
    else (jsMod (map speedNorm 0.3 1 280 400) 360,
          map speedNorm 0.3 1 80 10, 100, map speedNorm 0.3 1 70 100) in
  [StrokeHSBA h s b alpha;
   StrokeWeight (map speedNorm 0 1 1.5 4);
   Line (x (prevPos pt)) (y (prevPos pt)) (x (pos pt)) (y (pos pt))].

(** [drawEtherealLiquid]: update then show, particle by particle. *)
Fixpoint drawEtherealLiquid (sk : Sketch) (frameCount : nat)
    (hands : HandState) (leftVel rightVel : Vector)
    (particles : list LiquidParticle) (c : nat)
  : list DrawCmd * list LiquidParticle * nat :=
  match particles with
  | [] => ([], [], c)
  | pt :: rest =>
      let '(pt', c1) := update sk frameCount hands leftVel rightVel pt c in
      let '(cmds, rest', c2) :=
        drawEtherealLiquid sk frameCount hands leftVel rightVel rest c1 in
      (show pt' ++ cmds, pt' :: rest', c2)
  end.

End Liquid.

(** ** Mode 1: the vortex particles (genre FUNK) *)

Module Vortex.
Import P5.

(** The fields that are ever assigned ([angle] and [radius] are declared
    and never written). [vx], [vy] are the planar offset, [vz] the depth. *)
Record VortexParticle : Type := mkVortex {
  vx : R; vy : R; vz : R;
  oX : R; oY : R;
  speed : R
}.

(** [respawn]: six draws, in the order of the source. *)
Definition respawn (sk : Sketch) (c : nat) : VortexParticle * nat :=
  (mkVortex (random (draws sk c) (- width sk) (width sk))
            (random (draws sk (c + 1)) (- height sk) (height sk))
            (random (draws sk (c + 2)) 1000 2000)
            (random (draws sk (c + 3)) (-1) 1)
            (random (draws sk (c + 4)) (-1) 1)
            (random (draws sk (c + 5)) 10 30),
   (c + 6)%nat).

(** The constructor: [respawn], then a depth anywhere in the tunnel. *)
Definition create (sk : Sketch) (c : nat) : VortexParticle * nat :=
  let '(pt, c1) := respawn sk c in
  (mkVortex (vx pt) (vy pt) (random (draws sk c1) 100 2000)
            (oX pt) (oY pt) (speed pt),
   S c1).

(** The depth right after [this.z -= speed + beatFlash * 50]. *)
Definition advance (beatFlash : R) (pt : VortexParticle) : VortexParticle :=
  mkVortex (vx pt) (vy pt) (vz pt - (speed pt + beatFlash * 50))
           (oX pt) (oY pt) (speed pt).

Definition twistOf (hands : HandState) : R :=
  match right hands, left hands with
  | None, None => 0.02
  | _, _ => 0.05
  end.

(** [update]: the particle, the shared [vortexAngle] and the cursor. *)
Definition update (sk : Sketch) (beatFlash : R) (hands : HandState)
    (pt : VortexParticle) (vortexAngle : R) (c : nat)
  : VortexParticle * R * nat :=
  let moved := advance beatFlash pt in
  let angle' := vortexAngle + twistOf hands * 0.01 in
  if Rlt_dec (vz moved) 1
  then let '(fresh, c') := respawn sk c in (fresh, angle', c')
  else (moved, angle', c).

(** [show], with the [vortexAngle] of the moment it is called. *)
Definition show (sk : Sketch) (gHue vortexAngle : R) (pt : VortexParticle)
  : list DrawCmd :=
  let cx := width sk / 2 in
  let cy := height sk / 2 in
  let ang := atan2 sk (vy pt) (vx pt) + vortexAngle + vz pt * 0.002 in
  let rad := dist 0 0 (vx pt) (vy pt) in
  let rx := cos ang * rad in
  let ry := sin ang * rad in
  let sx := map (rx / vz pt) 0 1 0 (width sk / 2) in
  let sy := map (ry / vz pt) 0 1 0 (height sk / 2) in
  let r := map (vz pt) 0 2000 20 0 in
  let h := jsMod (gHue + vz pt * 0.1 + vx pt * 0.1) 360 in
  [FillHSBA h 90 100 (map (vz pt) 0 2000 100 0);
   NoStroke;
   Ellipse (cx + sx) (cy + sy) r].

(** The [forEach] of [drawVortex]: update then show, particle by particle. *)
Fixpoint eachVortex (sk : Sketch) (beatFlash : R) (hands : HandState)
    (gHue : R) (particles : list VortexParticle) (vortexAngle : R) (c : nat)
  : list DrawCmd * list VortexParticle * R * nat :=
  match particles with
  | [] => ([], [], vortexAngle, c)
  | pt :: rest =>
      let '(pt', a1, c1) := update sk beatFlash hands pt vortexAngle c in
      let '(cmds, rest', a2, c2) :=
        eachVortex sk beatFlash hands gHue rest a1 c1 in
      (show sk gHue a1 pt' ++ cmds, pt' :: rest', a2, c2)
  end.

Definition drawVortex (sk : Sketch) (beatFlash : R) (hands : HandState)
    (gHue : R) (particles : list VortexParticle) (vortexAngle : R) (c : nat)
  : list DrawCmd * list VortexParticle * R * nat :=
  let '(cmds, ps, a, c') :=
    eachVortex sk beatFlash hands gHue particles vortexAngle c in
  (Push :: cmds ++ [Pop], ps, a, c').

End Vortex.

(** ** Mode 2: the neural grid (genre ELECTRONIC) *)

Module Neural.
Import P5.

Record NeuralNode : Type := mkNode {
  pos : Vector;
  vel : Vector;
  baseSize : R;
  id : R
}.

Definition nearHand (sk : Sketch) (at_pos : Vector)
    (h : option HandCoordinates) : bool :=
  match h with
  | None => false
  | Some hc =>
      if Rlt_dec (dist (x at_pos) (y at_pos)
                       (hx hc * width sk) (hy hc * height sk)) 150
      then true else false
  end.

(** [update]: move, bounce off the edges, shake near a hand. *)
Definition update (sk : Sketch) (hands : HandState) (n : NeuralNode) (c : nat)
  : NeuralNode * nat :=
  let p1 := add (pos n) (vel n) in
  let outX := if Rlt_dec (x p1) 0 then true
              else if Rlt_dec (width sk) (x p1) then true else false in
  let outY := if Rlt_dec (y p1) 0 then true
              else if Rlt_dec (height sk) (y p1) then true else false in
  let v1 := createVector (if outX then x (vel n) * -1 else x (vel n))
                         (if outY then y (vel n) * -1 else y (vel n)) in
  let isGlitching := nearHand sk p1 (left hands) || nearHand sk p1 (right hands) in
  if isGlitching
  then (mkNode (createVector (x p1 + random (draws sk c) (-5) 5)
                             (y p1 + random (draws sk (c + 1)) (-5) 5))
               v1 (baseSize n) (id n),
        (c + 2)%nat)
  else (mkNode p1 v1 (baseSize n) (id n), c).

Definition show (frameCount : nat) (n : NeuralNode) : list DrawCmd :=
  let s := baseSize n + sin (INR frameCount * 0.1 + id n * 10) * 3 in
  [FillHSBA (if Rlt_dec 0.5 (id n) then 120 else 320) 90 100 80;
   NoStroke;
   Ellipse (x (pos n)) (y (pos n)) s].

Definition maxDist : R := 150.

(** A connection drawn between [nodes[i]] and [nodes[j]]. *)
Record Edge : Type := mkEdge {
  e_i : nat;
  e_j : nat;
  e_alpha : R;
  e_packetPos : R
}.

(** The alpha of a connection of length [d]. *)
Definition edgeAlpha (d : R) : R := map d 0 maxDist 80 0.

Definition nodeDist (n1 n2 : NeuralNode) : R :=
  dist (x (pos n1)) (y (pos n1)) (x (pos n2)) (y (pos n2)).

(** The inner loop, [for (j = i + 1; j < nodes.length; j++)]: [others] are
    the nodes from index [j] on. *)
Fixpoint connectFrom (frameCount i : nat) (n1 : NeuralNode) (j : nat)
    (others : list NeuralNode) : list Edge :=
  match others with
  | [] => []
  | n2 :: rest =>
      let d := nodeDist n1 n2 in
      let here :=
        if Rlt_dec d maxDist
        then [mkEdge i j (edgeAlpha d)
                     (jsMod (INR frameCount * 0.05 + id n1 * 10 + id n2 * 10) 1)]
        else [] in
      here ++ connectFrom frameCount i n1 (S j) rest
  end.

(** The outer loop, [for (i = 0; i < nodes.length; i++)]: [nodes] are the
    nodes from index [i] on. *)
Fixpoint connectAll (frameCount i : nat) (nodes : list NeuralNode)
  : list Edge :=
  match nodes with
  | [] => []
  | n1 :: rest =>
      connectFrom frameCount i n1 (S i) rest
        ++ connectAll frameCount (S i) rest
  end.

(** The drawing calls of one connection: the line and its packet dot. *)
Definition drawEdge (nodes : list NeuralNode) (e : Edge) : list DrawCmd :=
  match nth_error nodes (e_i e), nth_error nodes (e_j e) with
  | Some n1, Some n2 =>
      [StrokeHSBA 200 50 100 (e_alpha e);
       Line (x (pos n1)) (y (pos n1)) (x (pos n2)) (y (pos n2));
       NoStroke;
       FillHSBA 0 0 100 100;
       Ellipse (lerp (x (pos n1)) (x (pos n2)) (e_packetPos e))
               (lerp (y (pos n1)) (y (pos n2)) (e_packetPos e)) 4]
  | _, _ => []
  end.

(** The connection phase of [drawNeuralGrid], on the updated nodes. *)
Definition connections (frameCount : nat) (nodes : list NeuralNode)
  : list Edge :=
  connectAll frameCount 0 nodes.

Definition drawConnections (frameCount : nat) (nodes : list NeuralNode)
  : list DrawCmd :=
  StrokeWeight 1 :: flat_map (drawEdge nodes) (connections frameCount nodes).

(** The [forEach] of [drawNeuralGrid]: update then show, node by node. *)
Fixpoint eachNode (sk : Sketch) (frameCount : nat) (hands : HandState)
    (nodes : list NeuralNode) (c : nat)
  : list DrawCmd * list NeuralNode * nat :=
  match nodes with
  | [] => ([], [], c)
  | n :: rest =>
      let '(n', c1) := update sk hands n c in
      let '(cmds, rest', c2) := eachNode sk frameCount hands rest c1 in
      (show frameCount n' ++ cmds, n' :: rest', c2)
  end.

Definition drawNeuralGrid (sk : Sketch) (frameCount : nat) (hands : HandState)
    (nodes : list NeuralNode) (c : nat)
  : list DrawCmd * list NeuralNode * nat :=
  let '(cmds, nodes', c') := eachNode sk frameCount hands nodes c in
  (cmds ++ drawConnections frameCount nodes', nodes', c').

End Neural.

(** ** The sketch as a whole: [p.draw] *)

Module Frame.
Import P5.

(** The particle array, tagged by the genre that [initParticles] built it
    for; the genre does not change while the sketch lives. *)
Inductive Particles : Type :=
| LiquidSystem (ps : list Liquid.LiquidParticle)
| VortexSystem (ps : list Vortex.VortexParticle)
| NeuralSystem (ns : list Neural.NeuralNode).

Definition genreOf (ps : Particles) : GameGenre :=
  match ps with
  | LiquidSystem _ => JAZZ
  | VortexSystem _ => FUNK
  | NeuralSystem _ => ELECTRONIC
  end.

(** The variables of the sketch closure, the number of frames drawn so
    far, the cursor of the random generator, and the two references the
    audio callbacks write: [beatFlashRef] and [noteTriggersRef]. *)
Record State : Type := mkState {
  particles : Particles;
  prevLeftHand : option Vector;
  prevRightHand : option Vector;
  globalHue : R;
  vortexAngle : R;
  frameCount : nat;
  cursor : nat;
  beatFlash : R;
  noteTriggers : list Orchestrator.NoteTrigger
}.

(** The audio callbacks, run between two frames. *)
Definition onBeat (st : State) : State :=
  mkState (particles st) (prevLeftHand st) (prevRightHand st) (globalHue st)
          (vortexAngle st) (frameCount st) (cursor st)
          (Orchestrator.onBeat (beatFlash st)) (noteTriggers st).

Definition onNoteTriggered (tx0 ty0 : R) (st : State) : State :=
  mkState (particles st) (prevLeftHand st) (prevRightHand st) (globalHue st)
          (vortexAngle st) (frameCount st) (cursor st) (beatFlash st)
          (Orchestrator.onNoteTriggered tx0 ty0 (noteTriggers st)).

(** The genre dispatch at the end of [p.draw]: the drawing calls, the
    particles, [vortexAngle] and the cursor after it. *)
Definition renderMode (sk : Sketch) (fc : nat) (hands : HandState)
    (leftVel rightVel : Vector) (beatFlash' gHue : R) (st : State)
  : list DrawCmd * Particles * R * nat :=
  match particles st with
  | LiquidSystem ps =>
      let '(cmds, ps', c') :=
        Liquid.drawEtherealLiquid sk fc hands leftVel rightVel ps (cursor st) in
      (cmds, LiquidSystem ps', vortexAngle st, c')
  | VortexSystem ps =>
      let '(cmds, ps', a', c') :=
        Vortex.drawVortex sk beatFlash' hands gHue ps
                          (vortexAngle st) (cursor st) in
      (cmds, VortexSystem ps', a', c')
  | NeuralSystem ns =>
      let '(cmds, ns', c') :=
        Neural.drawNeuralGrid sk fc hands ns (cursor st) in
      (cmds, NeuralSystem ns', vortexAngle st, c')
  end.

(** One call of [p.draw], reading [currentHands] from [handStateRef]. *)
Definition draw (sk : Sketch) (currentHands : HandState) (st : State)
  : list DrawCmd * State :=
  let fc := S (frameCount st) in
  let leftVec :=
    Orchestrator.handVec (width sk) (height sk) (left currentHands) in
  let rightVec :=
    Orchestrator.handVec (width sk) (height sk) (right currentHands) in
  let leftVel := Orchestrator.handVel leftVec (prevLeftHand st) in
  let rightVel := Orchestrator.handVel rightVec (prevRightHand st) in
  let trail :=
    Orchestrator.trailStep (genreOf (particles st)) (width sk) (height sk)
                           (beatFlash st) in
  let gHue := jsMod (INR fc * 0.1) 360 in
  let rings :=
    Orchestrator.renderTriggers (width sk) (height sk) (noteTriggers st) in
  let mode :=
    renderMode sk fc currentHands leftVel rightVel (snd trail) gHue st in
  (BlendModeBLEND :: fst trail ++ BlendModeADD :: fst rings
     ++ fst (fst (fst mode)),
   mkState (snd (fst (fst mode))) leftVec rightVec gHue (snd (fst mode))
           fc (snd mode) (snd trail) (snd rings)).

(** What happens between two frames and what the next frame reads: the
    audio events delivered to the callbacks, in order, and the hand state
    that [handStateRef] then holds. *)
Inductive AudioEvent : Type :=
| Beat
| Note (tx0 ty0 : R).

Record FrameInput : Type := mkInput {
  events : list AudioEvent;
  currentHands : HandState
}.

Definition deliver (st : State) (e : AudioEvent) : State :=
  match e with
  | Beat => onBeat st
  | Note tx0 ty0 => onNoteTriggered tx0 ty0 st
  end.

Definition deliverAll (evs : list AudioEvent) (st : State) : State :=
  fold_left deliver evs st.

(** One tick: the callbacks since the last frame, then [p.draw]. *)
Definition tick (sk : Sketch) (input : FrameInput) (st : State)
  : list DrawCmd * State :=
  draw sk (currentHands input) (deliverAll (events input) st).

(** [n] ticks in a row; [inputAt k] is the input of the tick that draws
    frame [k + 1]. *)
Fixpoint run (sk : Sketch) (inputAt : nat -> FrameInput) (n : nat)
    (st : State) : State :=
  match n with
  | O => st
  | S k => run sk inputAt k (snd (tick sk (inputAt (frameCount st)) st))
  end.

End Frame.

(** ** services/handTracking.ts: the tracker *)

Module HandTracker.

(** The MediaPipe objects the tracker holds: all [stop] asks of the camera
    is whether it has a [stop] method. *)
Record CameraObj : Type := mkCamera { hasStop : bool }.
Inductive HandsObj : Type := MediaPipeHands.

(** The private fields of the class; the video element is opaque. *)
Record Tracker : Type := mkTracker {
  hands : option HandsObj;
  camera : option CameraObj;
  videoElement : bool;
  isActive : bool
}.

(** What the collaborators answer during one call of [stop]: the stream
    held by the video element (its tracks) if any, whether [camera.stop()]
    throws, and whether [hands.close()] throws. *)
Record World : Type := mkWorld {
  srcObject : option (list nat);
  cameraStopThrows : bool;
  handsCloseThrows : bool
}.

(** Calls that leave the tracker. *)
Inductive Effect : Type :=
| TrackStop (track : nat)
| CameraStop
| CameraStart
| HandsClose
| ConsoleWarn.

Inductive Completion : Type := Normal | Thrown.

(** The constructor: [hands] is built, nothing else is set. *)
Definition create : Tracker := mkTracker (Some MediaPipeHands) None false false.

(** [start], given whether [new Camera] throws, the camera it builds and
    whether [camera.start()] rejects. *)
Definition start (newCameraThrows : bool) (cam : CameraObj)
    (startRejects : bool) (t : Tracker) : Tracker * list Effect * Completion :=
  let t1 := mkTracker (hands t) (camera t) true true in
  if newCameraThrows then (t1, [], Thrown)
  else
    let t2 := mkTracker (hands t1) (Some cam) true true in
    (t2, [CameraStart], if startRejects then Thrown else Normal).

(** [stop].  [this.camera] is read and never written; [this.hands] is set
    to [null] after [close], whether or not [close] threw. *)
Definition stop (world : World) (t : Tracker)
  : Tracker * list Effect * Completion :=
  let t1 := mkTracker (hands t) (camera t) (videoElement t) false in
  let '(fx1, thrown) :=
    match camera t1 with
    | None => ([], false)
    | Some cam =>
        let tracks :=
          match (if videoElement t1 then srcObject world else None) with
          | Some ts => List.map TrackStop ts
          | None => []
          end in
        if hasStop cam then (tracks ++ [CameraStop], cameraStopThrows world)
        else (tracks, false)
    end in
  if thrown then (t1, fx1, Thrown)
  else
    match hands t1 with
    | None => (t1, fx1, Normal)
    | Some _ =>
        let fx2 := if handsCloseThrows world then [HandsClose; ConsoleWarn]
                   else [HandsClose] in
        (mkTracker None (camera t1) (videoElement t1) false,
         fx1 ++ fx2, Normal)
    end.

End HandTracker.

(** ** The two decay loops on binary64 numbers

    The same statements of [p.draw] on the kernel's IEEE 754 binary64
    floats, the number type of JavaScript, to count ticks without
    idealising the arithmetic. *)

Module Binary64.
Import PrimFloat.

#[local] Set Warnings "-inexact-float".

(** [beatFlashRef.current] after [n] ticks without a beat. *)
Fixpoint flashAfter (n : nat) (beatFlash : float) : float :=
  match n with
  | O => beatFlash
  | S k =>
      flashAfter k (if (0.01 <? beatFlash)%float
                    then (beatFlash * 0.9)%float else beatFlash)
  end.

(** [t.life] after [k] executions of [t.life -= 0.05]. *)
Fixpoint lifeAfter (k : nat) (life : float) : float :=
  match k with
  | O => life
  | S j => lifeAfter j (life - 0.05)%float
  end.

(** The test [t.life <= 0] that splices the trigger out. *)
Definition dropped (life : float) : bool := (life <=? 0)%float.

End Binary64.

(** ** Building the population: the constructors, [p.setup], [p.windowResized] *)

Module Population.
Import P5.

(** The [NeuralNode] constructor: six draws, in the order the source
    evaluates them ([random2D()] before its scale factor). *)
Definition createNode (sk : Sketch) (c : nat) : Neural.NeuralNode * nat :=
  (Neural.mkNode
     (createVector (random (draws sk c) 0 (width sk))
                   (random (draws sk (c + 1)) 0 (height sk)))
     (mult (fromAngle (draws sk (c + 2) * TWO_PI))
           (random (draws sk (c + 3)) 0.5 1.5))
     (random (draws sk (c + 4)) 4 10)
     (draws sk (c + 5)),
   (c + 6)%nat).

(** The [count] of [initParticles]. *)
Definition countOf (genre : GameGenre) : nat :=
  match genre with
  | JAZZ => 350
  | FUNK => 300
  | ELECTRONIC => 80
  end.

(** The loop [for (i = 0; i < count; i++) particles.push(new ...)]. *)
Fixpoint build {A : Type} (construct : nat -> A * nat) (count c : nat)
  : list A * nat :=
  match count with
  | O => ([], c)
  | S k =>
      let '(a, c1) := construct c in
      let '(rest, c2) := build construct k c1 in
      (a :: rest, c2)
  end.

Definition initParticles (sk : Sketch) (genre : GameGenre) (c : nat)
  : Frame.Particles * nat :=
  match genre with
  | JAZZ =>
      let '(ps, c') := build (Liquid.create sk) (countOf genre) c in
      (Frame.LiquidSystem ps, c')
  | FUNK =>
      let '(ps, c') := build (Vortex.create sk) (countOf genre) c in
      (Frame.VortexSystem ps, c')
  | ELECTRONIC =>
      let '(ns, c') := build (createNode sk) (countOf genre) c in
      (Frame.NeuralSystem ns, c')
  end.

(** [p.setup]: the variables of the closure at their initial values and
    the first population; the two references start at 0 and []. *)
Definition setup (sk : Sketch) (genre : GameGenre) : Frame.State :=
  Frame.mkState (fst (initParticles sk genre 0)) None None 0 0 0
                (snd (initParticles sk genre 0)) 0 [].

(** [p.windowResized]: [sk] is the sketch on the resized canvas and
    [currentHands] what [handStateRef] holds when the window event fires.
    [p.resizeCanvas(w, h)] is called without its [noRedraw] flag, so p5
    redraws at once: one [p.draw] runs on the new surface.  Then
    [initParticles] replaces the particle array, and nothing else. *)
Definition windowResized (sk : Sketch) (currentHands : HandState)
    (st : Frame.State) : list DrawCmd * Frame.State :=
  let redrawn := Frame.draw sk currentHands st in
  let st1 := snd redrawn in
  let fresh :=
    initParticles sk (Frame.genreOf (Frame.particles st1))
                  (Frame.cursor st1) in
  (fst redrawn,
   Frame.mkState (fst fresh) (Frame.prevLeftHand st1)
                 (Frame.prevRightHand st1) (Frame.globalHue st1)
                 (Frame.vortexAngle st1) (Frame.frameCount st1) (snd fresh)
                 (Frame.beatFlash st1) (Frame.noteTriggers st1)).

End Population.

(** ** services/handTracking.ts: the camera's [onFrame] callback *)

Module TrackerFrames.

Inductive FrameEffect : Type :=
| HandsSend
| WarnSendError.

(** One call of [onFrame]: [t] is the tracker when the frame arrives,
    [sendThrows] tells whether [hands.send] rejects, and [later] is the
    tracker when that rejection is caught. *)
Definition onFrame (sendThrows : bool) (t later : HandTracker.Tracker)
  : list FrameEffect :=
  match HandTracker.isActive t, HandTracker.hands t,
        HandTracker.videoElement t with
  | true, Some _, true =>
      HandsSend
        :: (if sendThrows
            then (if HandTracker.isActive later then [WarnSendError] else [])
            else [])
  | _, _, _ => []
  end.

End TrackerFrames.

(** ** App.tsx: session state and video recording *)

Module App.

Inductive AppState : Type := IDLE | LOADING | RUNNING | ERROR.

(** [MediaRecorder.state]. *)
Inductive RecordingState : Type := inactive | recording | paused.

(** A [MediaRecorder] as far as the component reads it. *)
Record MediaRecorder : Type := mkRecorder {
  state : RecordingState;
  mimeType : string
}.

(** What the page meets when it records: whether [MediaRecorder] exists,
    which types it supports, whether a canvas and an audio stream are
    there, whether the constructor or [start] throws, and the type a
    recorder built without options reports. *)
Record Browser : Type := mkBrowser {
  mediaRecorderDefined : bool;
  isTypeSupported : string -> bool;
  canvasPresent : bool;
  audioStreamPresent : bool;
  constructorThrows : bool;
  startThrows : bool;
  defaultMimeType : string
}.

(** The component's state and references. *)
Record Model : Type := mkModel {
  appState : AppState;
  isRecording : bool;
  currentGenre : GameGenre;
  mediaRecorderRef : option MediaRecorder;
  recordedChunksRef : list nat;
  recordingMimeTypeRef : string
}.

Definition initial : Model := mkModel IDLE false JAZZ None [] ""%string.

Inductive Effect : Type :=
| LoadGenre (genre : GameGenre)
| AudioStop
| ConsoleError
| RecorderStart
| RecorderStop
| Download (name : string) (type : string) (chunks : list nat).

(** The enum's string values. *)
Definition genreName (genre : GameGenre) : string :=
  match genre with
  | JAZZ => "JAZZ"%string
  | ELECTRONIC => "ELECTRONIC"%string
  | FUNK => "FUNK"%string
  end.

(** [startExperience], given whether [audioEngine.loadGenre] resolves. *)
Definition startExperience (genre : GameGenre) (loaded : bool) (m : Model)
  : Model * list Effect :=
  let m1 := mkModel LOADING (isRecording m) genre (mediaRecorderRef m)
                    (recordedChunksRef m) (recordingMimeTypeRef m) in
  if loaded
  then (mkModel RUNNING (isRecording m1) (currentGenre m1)
                (mediaRecorderRef m1) (recordedChunksRef m1)
                (recordingMimeTypeRef m1),
        [LoadGenre genre])
  else (mkModel ERROR (isRecording m1) (currentGenre m1)
                (mediaRecorderRef m1) (recordedChunksRef m1)
                (recordingMimeTypeRef m1),
        [LoadGenre genre; ConsoleError]).

Definition types : list string :=
  ["video/mp4; codecs=h264,aac"; "video/mp4";
   "video/webm; codecs=vp9,opus"; "video/webm"]%string.

(** The loop of [getSupportedMimeType] over the remaining types. *)
Fixpoint firstSupported (b : Browser) (ts : list string) : string :=
  match ts with
  | [] => ""%string
  | type :: rest =>
      if mediaRecorderDefined b && isTypeSupported b type then type
      else firstSupported b rest
  end.

Definition getSupportedMimeType (b : Browser) : string :=
  firstSupported b types.

(** A string is truthy when it is not empty. *)
Definition truthy (s : string) : bool :=
  match s with
  | EmptyString => false
  | String _ _ => true
  end.

(** [s.includes(sub)]. *)
Definition includes (s sub : string) : bool :=
  match String.index 0 sub s with
  | Some _ => true
  | None => false
  end.

(** [startVideoRecording].  Building a recorder fails when [MediaRecorder]
    does not exist; a failure inside the [try] is logged and leaves what
    was already written. *)
Definition startVideoRecording (b : Browser) (m : Model)
  : Model * list Effect :=
  if negb (canvasPresent b) then (m, [])
  else if negb (audioStreamPresent b) then (m, [])
  else
    let chosenMimeType := getSupportedMimeType b in
    if negb (mediaRecorderDefined b) || constructorThrows b
    then (m, [ConsoleError])
    else
      let recorder :=
        mkRecorder inactive
                   (if truthy chosenMimeType then chosenMimeType
                    else defaultMimeType b) in
      let m1 := mkModel (appState m) (isRecording m) (currentGenre m)
                        (mediaRecorderRef m) []
                        (if truthy chosenMimeType then chosenMimeType
                         else mimeType recorder) in
      if startThrows b then (m1, [RecorderStart; ConsoleError])
      else
        (mkModel (appState m1) true (currentGenre m1)
                 (Some (mkRecorder recording (mimeType recorder)))
                 (recordedChunksRef m1) (recordingMimeTypeRef m1),
         [RecorderStart]).

(** [stopVideoRecording]: [recorder.stop()] leaves the recorder inactive. *)
Definition stopVideoRecording (m : Model) : Model * list Effect :=
  match mediaRecorderRef m with
  | Some r =>
      match state r with
      | inactive => (m, [])
      | _ =>
          (mkModel (appState m) false (currentGenre m)
                   (Some (mkRecorder inactive (mimeType r)))
                   (recordedChunksRef m) (recordingMimeTypeRef m),
           [RecorderStop])
      end
  | None => (m, [])
  end.

(** [recorder.ondataavailable]. *)
Definition onDataAvailable (size chunk : nat) (m : Model) : Model :=
  if (0 <? size)%nat
  then mkModel (appState m) (isRecording m) (currentGenre m)
               (mediaRecorderRef m) (recordedChunksRef m ++ [chunk])
               (recordingMimeTypeRef m)
  else m.

(** [saveVideoRecording], the recorder's [onstop]. *)
Definition saveVideoRecording (m : Model) : Model * list Effect :=
  let mimeType0 :=
    if truthy (recordingMimeTypeRef m) then recordingMimeTypeRef m
    else "video/webm"%string in
  let extension :=
    if includes mimeType0 "mp4"%string then "mp4"%string
    else "webm"%string in
  (mkModel (appState m) (isRecording m) (currentGenre m)
           (mediaRecorderRef m) [] (recordingMimeTypeRef m),
   [Download ("Hands_Of_Rhythm_" ++ genreName (currentGenre m) ++ "."
              ++ extension)%string
             mimeType0 (recordedChunksRef m)]).

Definition handleToggleRecord (b : Browser) (m : Model)
  : Model * list Effect :=
  if negb (isRecording m) then startVideoRecording b m
  else stopVideoRecording m.

Definition handleReturnToMenu (m : Model) : Model * list Effect :=
  let '(m1, fx) := stopVideoRecording m in
  (mkModel IDLE (isRecording m1) (currentGenre m1) (mediaRecorderRef m1)
           (recordedChunksRef m1) (recordingMimeTypeRef m1),
   fx ++ [AudioStop]).

(** What the component renders. *)
Definition canvasMounted (m : Model) : bool :=
  match appState m with
  | RUNNING | LOADING => true
  | _ => false
  end.

Definition sessionButtonsShown (m : Model) : bool :=
  match appState m with
  | RUNNING => true
  | _ => false
  end.

End App.

(** * Vocabulary of the properties and sample inputs *)

Section MapperVocabulary.
Import HandMapper.

(** The spec's words: the Euclidean distance between two points, and its
    mean over the four fingertips (indices 8, 12, 16, 20) from the wrist
    (index 0). *)
Definition euclid (a b : Landmark) : R :=
  sqrt (Rsqr (lx a - lx b) + Rsqr (ly a - ly b)).

Definition meanFingertipDist (l : list Landmark) : R :=
  let wrist := nth 0 l (mkLandmark 0 0) in
  let tip i := nth i l (mkLandmark 0 0) in
  (euclid wrist (tip 8%nat) + euclid wrist (tip 12%nat)
   + euclid wrist (tip 16%nat) + euclid wrist (tip 20%nat)) / 4.

(** A hand of 21 landmarks: the wrist at the origin and every other point
    at (0.3, 0.4), so that the mean distance is 0.5. *)
Definition openHand : list Landmark :=
  mkLandmark 0 0 :: repeat (mkLandmark 0.3 0.4) 20.

(** A hand of 12 landmarks: enough for the index fingertip, too few for
    the openness computation. *)
Definition partialHand : list Landmark := repeat (mkLandmark 0.5 0.5) 12.

End MapperVocabulary.

Section OverlayVocabulary.
Import Orchestrator.

(** One tick seen from outside the trigger loop: every trigger loses 0.05
    of its life and those at or below zero are gone; the order is kept. *)
Definition aged (t : NoteTrigger) : NoteTrigger :=
  mkTrigger (tx t) (ty t) (life t - 0.05).

Fixpoint ageAll (ts : list NoteTrigger) : list NoteTrigger :=
  match ts with
  | [] => []
  | t :: rest =>
      (if Rle_dec (life (aged t)) 0 then [] else [aged t]) ++ ageAll rest
  end.

End OverlayVocabulary.

(** Two concrete surroundings on an 800 x 600 surface: a noise field that is
    0 everywhere (the base flow points right) and one that is 3/8
    everywhere (the flow angle is 3 pi: the base flow points left). *)
Definition rightwardSketch : Sketch :=
  mkSketch 800 600 (fun _ _ _ => 0) (fun _ _ => 0) (fun _ => 0).

Definition leftwardSketch : Sketch :=
  mkSketch 800 600 (fun _ _ _ => 3 / 8) (fun _ _ => 0) (fun _ => 0).

(** A resting liquid particle at [(px, py)]. *)
Definition resting (px py : R) : Liquid.LiquidParticle :=
  Liquid.mkLiquid (P5.createVector px py) (P5.createVector 0 0)
                  (P5.createVector 0 0) (P5.createVector px py) 6.

(** The closed surface rectangle, and the speed bound left by the physics
    step: the velocity is cut to [maxSpeed] and then damped by 0.94. *)
Definition inClosedBox (sk : Sketch) (pt : Liquid.LiquidParticle) : Prop :=
  0 <= P5.x (Liquid.pos pt) <= width sk
  /\ 0 <= P5.y (Liquid.pos pt) <= height sk.

Definition speedBounded (pt : Liquid.LiquidParticle) : Prop :=
  0 <= Liquid.maxSpeed pt
  /\ P5.magSq (Liquid.vel pt)
     <= (0.94 * Liquid.maxSpeed pt) * (0.94 * Liquid.maxSpeed pt).

(** The sketch right after [setup], with the given particles. *)
Definition freshState (ps : Frame.Particles) : Frame.State :=
  Frame.mkState ps None None 0 0 0 0 0 [].

(** The state with its trigger list replaced. *)
Definition withTriggers (ts : list Orchestrator.NoteTrigger)
    (st : Frame.State) : Frame.State :=
  Frame.mkState (Frame.particles st) (Frame.prevLeftHand st)
                (Frame.prevRightHand st) (Frame.globalHue st)
                (Frame.vortexAngle st) (Frame.frameCount st)
                (Frame.cursor st) (Frame.beatFlash st) ts.

(** The triggers pushed by a batch of events. *)
Definition notesOf (evs : list Frame.AudioEvent)
  : list Orchestrator.NoteTrigger :=
  flat_map (fun e => match e with
                     | Frame.Beat => []
                     | Frame.Note tx0 ty0 => [Orchestrator.mkTrigger tx0 ty0 1]
                     end) evs.

(** Ticks with no audio event and no hand. *)
Definition idleInput : nat -> Frame.FrameInput :=
  fun _ => Frame.mkInput [] noHands.

(** A vortex particle at depth 11 with speed 10: without a flash its depth
    becomes exactly 1 on the next update. *)
Definition nearParticle : Vortex.VortexParticle :=
  Vortex.mkVortex 0 0 11 0 0 10.

(** The edge the connection loops emit for the pair [(i, j)]. *)
Definition edgeOf (frameCount i j : nat) (n1 n2 : Neural.NeuralNode)
  : Neural.Edge :=
  Neural.mkEdge i j (Neural.edgeAlpha (Neural.nodeDist n1 n2))
    (jsMod (INR frameCount * 0.05 + Neural.id n1 * 10 + Neural.id n2 * 10) 1).

(** Two neural nodes 100 apart. *)
Definition twoNodes : list Neural.NeuralNode :=
  [Neural.mkNode (P5.createVector 0 0) (P5.createVector 1 0) 5 0.25;
   Neural.mkNode (P5.createVector 100 0) (P5.createVector 0 1) 5 0.75].

(** A tracker whose start completed, and what the collaborators answer
    during a stop: a stream of two tracks; [camera.stop()] returning or
    throwing. *)
Definition startedTracker : HandTracker.Tracker :=
  fst (fst (HandTracker.start false (HandTracker.mkCamera true) false
                              HandTracker.create)).

Definition calmWorld : HandTracker.World :=
  HandTracker.mkWorld (Some [0%nat; 1%nat]) false false.

Definition failingWorld : HandTracker.World :=
  HandTracker.mkWorld (Some [0%nat; 1%nat]) true false.

(** The number of particles of a population, and its liquid, vortex and
    neural members. *)
Definition populationSize (ps : Frame.Particles) : nat :=
  match ps with
  | Frame.LiquidSystem l => List.length l
  | Frame.VortexSystem l => List.length l
  | Frame.NeuralSystem l => List.length l
  end.

Definition liquidsOf (ps : Frame.Particles) : list Liquid.LiquidParticle :=
  match ps with
  | Frame.LiquidSystem l => l
  | _ => []
  end.

Definition vortexesOf (ps : Frame.Particles) : list Vortex.VortexParticle :=
  match ps with
  | Frame.VortexSystem l => l
  | _ => []
  end.

(** A vortex particle as the sketch keeps it: in front of the far plane,
    not behind the viewer, with a speed from the constructor's range. *)
Definition inTunnel (pt : Vortex.VortexParticle) : Prop :=
  1 <= Vortex.vz pt < 2000 /\ 10 <= Vortex.speed pt < 30.

(** Both squeezes of the callback's locals are in [[0, 1]]. *)
Definition squeezesInRange (st : HandMapper.Locals) : Prop :=
  0 <= HandMapper.l_leftSqueeze st <= 1
  /\ 0 <= HandMapper.l_rightSqueeze st <= 1.

(** A trigger as the overlay keeps it. *)
Definition liveTrigger (t : Orchestrator.NoteTrigger) : Prop :=
  0 < Orchestrator.life t <= 1.

(** The recorder is running whenever the record button says so. *)
Definition recordingConsistent (m : App.Model) : Prop :=
  App.isRecording m = true ->
  exists r, App.mediaRecorderRef m = Some r /\ App.state r = App.recording.

(** The displacement of a hand between two frames, in pixels; zero when
    the hand is missing in either frame. *)
Definition velocityBetween (w h : R) (before now : option HandCoordinates)
  : P5.Vector :=
  match before, now with
  | Some p, Some q =>
      P5.createVector ((hx q - hx p) * w) ((hy q - hy p) * h)
  | _, _ => P5.createVector 0 0
  end.

(** The number of raw random values one constructor call consumes. *)
Definition drawsPerParticle (genre : GameGenre) : nat :=
  match genre with
  | JAZZ => 3
  | FUNK => 7
  | ELECTRONIC => 6
  end.

(** Every liquid particle of the state is on the surface and within its
    speed bound. *)
Definition liquidsSettled (sk : Sketch) (st : Frame.State) : Prop :=
  Forall (inClosedBox sk) (liquidsOf (Frame.particles st))
  /\ Forall speedBounded (liquidsOf (Frame.particles st)).

(** The flash is in [[0, 1]] and every vortex particle is in the tunnel. *)
Definition vortexSettled (st : Frame.State) : Prop :=
  0 <= Frame.beatFlash st <= 1
  /\ Forall inTunnel (vortexesOf (Frame.particles st)).

Definition neuralsOf (ps : Frame.Particles) : list Neural.NeuralNode :=
  match ps with
  | Frame.NeuralSystem l => l
  | _ => []
  end.

(** A neural node as the constructor makes it: base size in [[4, 10)],
    speed in [[0.5, 1.5)], identity in [[0, 1)]. *)
Definition nodeSettled (n : Neural.NeuralNode) : Prop :=
  4 <= Neural.baseSize n < 10
  /\ 0.25 <= P5.magSq (Neural.vel n) < 2.25
  /\ 0 <= Neural.id n < 1.

(** A detected hand lies less than [r] pixels from the point [at_pos]. *)
Definition handWithin (sk : Sketch) (r : R) (at_pos : P5.Vector)
    (h : option HandCoordinates) : Prop :=
  exists hc, h = Some hc
    /\ sqrt (Rsqr (hx hc * width sk - P5.x at_pos)
             + Rsqr (hy hc * height sk - P5.y at_pos)) < r.

(** A right hand in the lower right corner of the surface, no left hand. *)
Definition cornerHand : HandState :=
  mkHandState None (Some (mkCoords 0.9 0.9)) false false 0 0.

(** The first node of a list (a node at the origin when there is none). *)
Definition hd_node (ns : list Neural.NeuralNode) : Neural.NeuralNode :=
  hd (Neural.mkNode (P5.createVector 0 0) (P5.createVector 0 0) 0 0) ns.

(** The data events of a recording, each with its size and its chunk,
    delivered to [ondataavailable] in order. *)
Definition feed (data : list (nat * nat)) (m : App.Model) : App.Model :=
  fold_left (fun m0 d => App.onDataAvailable (fst d) (snd d) m0) data m.

(** A browser that records webm only. *)
Definition webmBrowser : App.Browser :=
  App.mkBrowser true (fun t => String.eqb t "video/webm") true true
                false false "video/webm".

(** * Properties *)

(** ** Shared tactics and real-number facts *)

(** Case analysis on every [Rmax], [Rmin] and decided comparison in sight,
    then linear arithmetic. *)
Ltac split_cmp :=
  repeat match goal with
  | |- context [Rlt_dec ?a ?b] => destruct (Rlt_dec a b)
  | |- context [Rle_dec ?a ?b] => destruct (Rle_dec a b)
  | H : context [Rlt_dec ?a ?b] |- _ => destruct (Rlt_dec a b)
  | H : context [Rle_dec ?a ?b] |- _ => destruct (Rle_dec a b)
  end.

Ltac clamp_lra := unfold Rmax, Rmin in *; split_cmp; try lra.

(** ** Hand signal mapper *)

Section HandMapperFacts.
Import HandMapper.

Lemma tipDist_euclid (w t : Landmark) : tipDist w t = euclid w t.
Proof.
  unfold tipDist, euclid, Rsqr. f_equal. ring.
Qed.

(** Behind the guard every index the function reads is inside the list. *)
Lemma guarded_index (l : list Landmark) (idx : nat) :
  (21 <= List.length l)%nat -> In idx (0%nat :: tips) ->
  nth_error l idx = Some (at_ l idx).
Proof.
  intros Hlen Hin. unfold at_.
  apply nth_error_nth'.
  simpl in Hin.
  destruct Hin as [<- | [<- | [<- | [<- | [<- | []]]]]]; lia.
Qed.

Lemma getHandOpenness_full (l : list Landmark) :
  (21 <= List.length l)%nat ->
  getHandOpenness (Some l) = opennessOf (meanFingertipDist l).
Proof.
  intros Hlen. unfold getHandOpenness.
  destruct (Nat.ltb_spec (List.length l) 21) as [Hlt | _]; [lia |].
  unfold meanFingertipDist, tips. simpl fold_left.
  rewrite !tipDist_euclid. unfold at_.
  f_equal. lra.
Qed.

Lemma getHandOpenness_short (l : list Landmark) :
  (List.length l < 21)%nat -> getHandOpenness (Some l) = 0.
Proof.
  intros Hlen. unfold getHandOpenness.
  destruct (Nat.ltb_spec (List.length l) 21) as [_ | Hge]; [reflexivity | lia].
Qed.

Lemma opennessOf_range (d : R) : 0 <= opennessOf d <= 1.
Proof. unfold opennessOf. clamp_lra. Qed.

Lemma opennessOf_mono (d1 d2 : R) :
  d1 <= d2 -> opennessOf d1 <= opennessOf d2.
Proof. intros H. unfold opennessOf. clamp_lra. Qed.

(** One detected hand: what [onHandResults] stores for it. *)
Lemma onHandResults_one_hand (l : list Landmark) (label : string)
    (tip : Landmark) :
  nth_error l 8 = Some tip ->
  exists calls st,
    onHandResults (mkResults (Some [Some l]) [label]) = Returned (calls, st)
    /\ (if String.eqb label "Right"
        then right st = Some (mkCoords (1 - lx tip) (ly tip))
             /\ rightSqueeze st = 1 - getHandOpenness (Some l)
        else left st = Some (mkCoords (1 - lx tip) (ly tip))
             /\ leftSqueeze st = 1 - getHandOpenness (Some l)).
Proof.
  intros Htip. unfold onHandResults. cbn [multiHandLandmarks multiHandedness].
  unfold handLoop, handStep.
  change (nth_error [label] 0) with (Some label). rewrite Htip.
  destruct (String.eqb label "Right") eqn:E; cbn; eauto.
Qed.

(** C1: for a landmark list holding the wrist and the four fingertips, the
    squeeze stored for the hand is [1 - clamp ((d - 0.15) / 0.25)] with [d]
    the mean wrist-to-fingertip distance; the squeeze is non-increasing in
    [d], is 1 at 0.15, 0 at 0.40 and 0.5 at 0.275. *)
Theorem squeeze_of_mean_distance
    (l : list Landmark) (label : string) (d1 d2 : R) :
  (21 <= List.length l)%nat -> d1 <= d2 ->
  let d := meanFingertipDist l in
  (exists calls st,
      onHandResults (mkResults (Some [Some l]) [label]) = Returned (calls, st)
      /\ (if String.eqb label "Right" then rightSqueeze st else leftSqueeze st)
         = 1 - Rmax 0 (Rmin 1 ((d - 0.15) / 0.25)))
  /\ squeezeOf d = 1 - Rmax 0 (Rmin 1 ((d - 0.15) / 0.25))
  /\ squeezeOf d2 <= squeezeOf d1
  /\ squeezeOf 0.15 = 1
  /\ squeezeOf 0.40 = 0
  /\ squeezeOf 0.275 = 0.5.
Proof.
  intros Hlen Hd d. repeat split.
  - assert (Htip : nth_error l 8 = Some (at_ l 8)).
    { apply guarded_index; [exact Hlen | simpl; tauto]. }
    destruct (onHandResults_one_hand l label _ Htip) as (calls & st & Hrun & Hst).
    exists calls, st. split; [exact Hrun |].
    rewrite (getHandOpenness_full l Hlen) in Hst.
    destruct (String.eqb label "Right"); destruct Hst as [_ ->]; reflexivity.
  - unfold squeezeOf. pose proof (opennessOf_mono d1 d2 Hd). lra.
  - unfold squeezeOf, opennessOf. clamp_lra.
  - unfold squeezeOf, opennessOf. clamp_lra.
  - unfold squeezeOf, opennessOf. clamp_lra.
Qed.

Lemma squeeze_of_mean_distance_witness :
  (21 <= List.length openHand)%nat /\ 0.15 <= 0.40
  /\ squeezeOf 0.40 <= squeezeOf 0.15
  /\ exists calls st,
       onHandResults (mkResults (Some [Some openHand]) ["Right"%string])
       = Returned (calls, st)
       /\ rightSqueeze st
          = 1 - Rmax 0 (Rmin 1 ((meanFingertipDist openHand - 0.15) / 0.25)).
Proof.
  assert (Hlen : (21 <= List.length openHand)%nat) by (simpl; lia).
  assert (Hd : 0.15 <= 0.40) by lra.
  destruct (squeeze_of_mean_distance openHand "Right" 0.15 0.40 Hlen Hd)
    as (Hrun & _ & Hmono & _).
  repeat split; [exact Hlen | exact Hd | exact Hmono | exact Hrun].
Defined.

End HandMapperFacts.

Section ShortLandmarkLists.
Import HandMapper.

(** A list too short to hold the index fingertip makes the frame's
    callback throw, whatever the side label. *)
Lemma onHandResults_throws_below_9 (l : list Landmark) (label : string) :
  (List.length l < 9)%nat ->
  onHandResults (mkResults (Some [Some l]) [label]) = TypeError.
Proof.
  intros Hlen. unfold onHandResults. cbn [multiHandLandmarks multiHandedness].
  unfold handLoop, handStep.
  change (nth_error [label] 0) with (Some label).
  assert (Hnone : nth_error l 8 = None) by (apply nth_error_None; lia).
  rewrite Hnone. reflexivity.
Qed.

(** With the index fingertip present and fewer than 21 points, the hand is
    reported as a full fist. *)
Lemma onHandResults_fist_between_9_and_20 (l : list Landmark) (label : string) :
  (9 <= List.length l < 21)%nat ->
  exists calls st,
    onHandResults (mkResults (Some [Some l]) [label]) = Returned (calls, st)
    /\ (if String.eqb label "Right" then rightSqueeze st else leftSqueeze st)
       = 1.
Proof.
  intros [Hlo Hhi].
  destruct (nth_error l 8) as [tip |] eqn:Htip.
  - destruct (onHandResults_one_hand l label tip Htip)
      as (calls & st & Hrun & Hst).
    exists calls, st. split; [exact Hrun |].
    rewrite (getHandOpenness_short l Hhi) in Hst.
    destruct (String.eqb label "Right"); destruct Hst as [_ ->]; lra.
  - apply nth_error_None in Htip. lia.
Qed.

Lemma onHandResults_fist_between_9_and_20_witness :
  exists calls st,
    onHandResults (mkResults (Some [Some partialHand]) ["Left"%string])
    = Returned (calls, st)
    /\ leftSqueeze st = 1.
Proof.
  apply (onHandResults_fist_between_9_and_20 partialHand "Left").
  simpl. lia.
Defined.

(** C10 (as amended): for a landmark list that is missing or has fewer
    than 21 points the openness computation returns 0; and a hand whose
    list has fewer than 21 points but holds the index fingertip (at least
    9 points) is reported on its side, not as an absent hand, with
    squeeze 1.0. *)
Theorem short_landmarks_read_as_fist
    (landmarks : option (list Landmark)) (label : string) :
  (forall l, landmarks = Some l -> (List.length l < 21)%nat) ->
  getHandOpenness landmarks = 0
  /\ (forall l, landmarks = Some l -> (9 <= List.length l)%nat ->
      exists calls st,
        onHandResults (mkResults (Some [landmarks]) [label])
        = Returned (calls, st)
        /\ (if String.eqb label "Right"
            then right st <> None /\ rightSqueeze st = 1
            else left st <> None /\ leftSqueeze st = 1)).
Proof.
  intros Hshort. split.
  - destruct landmarks as [l |]; [| reflexivity].
    apply getHandOpenness_short. apply Hshort. reflexivity.
  - intros l -> Hlo.
    pose proof (Hshort l eq_refl) as Hhi.
    destruct (nth_error l 8) as [tip |] eqn:Htip.
    + destruct (onHandResults_one_hand l label tip Htip)
        as (calls & st & Hrun & Hst).
      exists calls, st. split; [exact Hrun |].
      rewrite (getHandOpenness_short l Hhi) in Hst.
      destruct (String.eqb label "Right"); destruct Hst as [-> ->];
        (split; [discriminate | lra]).
    + apply nth_error_None in Htip. lia.
Qed.

Lemma short_landmarks_read_as_fist_witness :
  getHandOpenness (Some partialHand) = 0
  /\ exists calls st,
       onHandResults (mkResults (Some [Some partialHand]) ["Right"%string])
       = Returned (calls, st)
       /\ right st <> None /\ rightSqueeze st = 1.
Proof.
  assert (Hshort : forall l, Some partialHand = Some l ->
                             (List.length l < 21)%nat).
  { intros l Heq. injection Heq as <-. simpl. lia. }
  destruct (short_landmarks_read_as_fist (Some partialHand) "Right" Hshort)
    as (Hzero & Hfist).
  split; [exact Hzero |].
  apply (Hfist partialHand eq_refl). simpl. lia.
Defined.

(** C10 as stated fails for a hand whose list is missing or empty:
    [getHandOpenness] answers 0 for it, but [onHandResults] reports no
    squeeze: it throws while reading the index fingertip, before the
    guard is reached. *)
Lemma short_landmarks_throw_before_guard :
  getHandOpenness None = 0
  /\ getHandOpenness (Some []) = 0
  /\ onHandResults (mkResults (Some [Some []]) ["Right"%string]) = TypeError
  /\ onHandResults (mkResults (Some [None]) ["Right"%string]) = TypeError.
Proof.
  split; [reflexivity |].
  split; [reflexivity |].
  split.
  - apply onHandResults_throws_below_9. simpl. lia.
  - reflexivity.
Qed.

End ShortLandmarkLists.

(** ** Event overlay: the beat flash *)

Section BeatFlash.
Import Orchestrator.

Variables (genre : GameGenre) (w h : R).

Lemma trailStep_decays (f : R) :
  0.01 < f -> snd (trailStep genre w h f) = f * 0.9.
Proof.
  intros Hf. unfold trailStep.
  destruct (Rlt_dec 0.01 f) as [_ | Hn]; [reflexivity | contradiction].
Qed.

Lemma trailStep_frozen (f : R) :
  f <= 0.01 -> snd (trailStep genre w h f) = f.
Proof.
  intros Hf. unfold trailStep.
  destruct (Rlt_dec 0.01 f) as [Hlt | _]; [lra | reflexivity].
Qed.

(** The flash never becomes negative. *)
Lemma trailStep_nonneg (f : R) : 0 <= f -> 0 <= snd (trailStep genre w h f).
Proof.
  intros Hf. unfold trailStep. destruct (Rlt_dec 0.01 f); cbn [snd]; lra.
Qed.

Lemma pow09_le_1 (m : nat) : 0.9 ^ m <= 1.
Proof.
  induction m as [| m IH]; simpl; [lra |].
  assert (0 <= 0.9 ^ m) by (apply pow_le; lra). nra.
Qed.

Lemma pow09_above_threshold (k : nat) : (k <= 43)%nat -> 0.01 < 0.9 ^ k.
Proof.
  intros Hk.
  assert (H43 : 0.01 < 0.9 ^ 43) by lra.
  replace 43%nat with (k + (43 - k))%nat in H43 by lia.
  rewrite pow_add in H43.
  pose proof (pow09_le_1 (43 - k)) as H1.
  assert (H0 : 0 <= 0.9 ^ k) by (apply pow_le; lra).
  apply Rlt_le_trans with (1 := H43).
  rewrite <- (Rmult_1_r (0.9 ^ k)) at 2.
  apply Rmult_le_compat_l; assumption.
Qed.

(** From [0.9 ^ j] the flash follows the powers of 0.9 down to the 44th
    and stays there. *)
Lemma flashAfter_from_pow (n j : nat) :
  (j <= 44)%nat ->
  flashAfter genre w h n (0.9 ^ j) = 0.9 ^ Nat.min (n + j) 44.
Proof.
  revert j. induction n as [| n IH]; intros j Hj.
  - simpl. rewrite Nat.min_l by lia. reflexivity.
  - cbn [flashAfter].
    destruct (Nat.eq_dec j 44) as [-> | Hne].
    + rewrite trailStep_frozen by lra.
      rewrite IH by lia. f_equal. lia.
    + rewrite trailStep_decays by (apply pow09_above_threshold; lia).
      replace (0.9 ^ j * 0.9) with (0.9 ^ S j) by (simpl; lra).
      rewrite IH by lia. f_equal. lia.
Qed.

End BeatFlash.

(** ** Event overlay: the note triggers *)

Section NoteTriggers.
Import P5 Orchestrator.

Variables (w h : R).

Lemma ageAll_app (a b : list NoteTrigger) :
  ageAll (a ++ b) = ageAll a ++ ageAll b.
Proof.
  induction a as [| t a IH]; simpl; [reflexivity |].
  rewrite IH, app_assoc. reflexivity.
Qed.

Lemma firstn_prefix {A : Type} (pre post : list A) :
  firstn (List.length pre) (pre ++ post) = pre.
Proof.
  induction pre as [| a pre IH]; simpl; [destruct post; reflexivity |].
  now rewrite IH.
Qed.

Lemma skipn_past {A : Type} (pre : list A) (a : A) (post : list A) :
  skipn (S (List.length pre)) (pre ++ a :: post) = post.
Proof.
  induction pre as [| b pre IH]; simpl; [reflexivity | exact IH].
Qed.

Lemma nth_error_middle {A : Type} (pre : list A) (a : A) (post : list A) :
  nth_error (pre ++ a :: post) (List.length pre) = Some a.
Proof.
  induction pre as [| b pre IH]; simpl; [reflexivity | exact IH].
Qed.

(** The loop invariant: the entries above the index are final, those below
    are still to be drawn and aged, from the last one down. *)
Lemma triggerLoop_inv (pre post : list NoteTrigger) :
  triggerLoop w h (List.length pre) (pre ++ post)
  = (flat_map (drawTrigger w h) (rev pre), ageAll pre ++ post).
Proof.
  revert post. induction pre as [| t pre IH] using rev_ind; intros post.
  - reflexivity.
  - rewrite length_app, Nat.add_comm. cbn [List.length Nat.add triggerLoop].
    rewrite <- app_assoc. cbn [app].
    rewrite nth_error_middle.
    unfold splice1, setAt.
    rewrite firstn_prefix, skipn_past.
    rewrite rev_app_distr, ageAll_app. cbn [rev app flat_map ageAll].
    fold (aged t).
    destruct (Rle_dec (life (aged t)) 0).
    + rewrite IH. rewrite !app_nil_r. reflexivity.
    + rewrite IH. rewrite app_nil_r, <- app_assoc. reflexivity.
Qed.

Lemma renderTriggers_spec (ts : list NoteTrigger) :
  renderTriggers w h ts = (flat_map (drawTrigger w h) (rev ts), ageAll ts).
Proof.
  unfold renderTriggers.
  rewrite <- (app_nil_r ts) at 2.
  rewrite triggerLoop_inv, app_nil_r. reflexivity.
Qed.

Lemma triggersAfter_S (k : nat) (ts : list NoteTrigger) :
  triggersAfter w h (S k) ts = ageAll (triggersAfter w h k ts).
Proof.
  revert ts. induction k as [| k IH]; intros ts.
  - simpl. now rewrite renderTriggers_spec.
  - change (triggersAfter w h (S (S k)) ts)
      with (triggersAfter w h (S k) (snd (renderTriggers w h ts))).
    rewrite IH. reflexivity.
Qed.

Lemma triggersAfter_app (k : nat) (a b : list NoteTrigger) :
  triggersAfter w h k (a ++ b)
  = triggersAfter w h k a ++ triggersAfter w h k b.
Proof.
  induction k as [| k IH]; [reflexivity |].
  rewrite !triggersAfter_S, IH, ageAll_app. reflexivity.
Qed.

Lemma triggersAfter_nil (k : nat) : triggersAfter w h k [] = [].
Proof.
  induction k as [| k IH]; [reflexivity |].
  rewrite triggersAfter_S, IH. reflexivity.
Qed.

(** The life of a fresh trigger after [k] ticks, while it lasts. *)
Lemma fresh_trigger_alive (x0 y0 : R) (k : nat) :
  (k < 20)%nat ->
  triggersAfter w h k [mkTrigger x0 y0 1]
  = [mkTrigger x0 y0 (1 - 0.05 * INR k)].
Proof.
  induction k as [| k IH]; intros Hk.
  - simpl. f_equal. f_equal. lra.
  - rewrite triggersAfter_S, IH by lia.
    assert (Hle : INR (S k) <= INR 19) by (apply le_INR; lia).
    replace (INR 19) with 19 in Hle by (simpl; lra).
    rewrite S_INR in Hle.
    cbn [ageAll]. unfold aged. cbn [life tx ty].
    destruct (Rle_dec (1 - 0.05 * INR k - 0.05) 0) as [Hdead | _]; [lra |].
    rewrite app_nil_r, S_INR. f_equal. f_equal. lra.
Qed.

Lemma fresh_trigger_gone (x0 y0 : R) (k : nat) :
  (20 <= k)%nat -> triggersAfter w h k [mkTrigger x0 y0 1] = [].
Proof.
  induction k as [| k IH]; intros Hk; [lia |].
  rewrite triggersAfter_S.
  destruct (Nat.eq_dec k 19) as [-> | Hne].
  - rewrite fresh_trigger_alive by lia.
    cbn [ageAll]. unfold aged. cbn [life tx ty].
    replace (INR 19) with 19 by (simpl; lra).
    destruct (Rle_dec (1 - 0.05 * 19 - 0.05) 0) as [_ | Halive];
      [reflexivity | lra].
  - rewrite IH by lia. reflexivity.
Qed.

Lemma fresh_trigger_after (x0 y0 : R) (k : nat) :
  triggersAfter w h k [mkTrigger x0 y0 1]
  = if (k <? 20)%nat then [mkTrigger x0 y0 (1 - 0.05 * INR k)] else [].
Proof.
  destruct (Nat.ltb_spec k 20).
  - now apply fresh_trigger_alive.
  - now apply fresh_trigger_gone.
Qed.

End NoteTriggers.

(** ** The frame as a whole *)

Section FrameFacts.
Import P5 Frame.

Variable sk : Sketch.

(** What the callbacks touch. *)
Lemma deliverAll_untouched (evs : list AudioEvent) (st : State) :
  particles (deliverAll evs st) = particles st
  /\ frameCount (deliverAll evs st) = frameCount st
  /\ cursor (deliverAll evs st) = cursor st.
Proof.
  revert st. induction evs as [| e evs IH]; intros st; [auto |].
  unfold deliverAll in *. cbn [fold_left].
  destruct (IH (deliver st e)) as (Hp & Hf & Hc).
  rewrite Hp, Hf, Hc. destruct e; auto.
Qed.

Lemma deliverAll_without_beat (evs : list AudioEvent) (st : State) :
  ~ In Beat evs -> beatFlash (deliverAll evs st) = beatFlash st.
Proof.
  revert st. induction evs as [| e evs IH]; intros st Hq; [reflexivity |].
  unfold deliverAll in *. cbn [fold_left].
  rewrite IH by (intros Hin; apply Hq; right; exact Hin).
  destruct e; [| reflexivity].
  exfalso. apply Hq. left. reflexivity.
Qed.

Lemma deliverAll_noteTriggers (evs : list AudioEvent) (st : State) :
  noteTriggers (deliverAll evs st) = noteTriggers st ++ notesOf evs.
Proof.
  revert st. induction evs as [| e evs IH]; intros st.
  - cbn. now rewrite app_nil_r.
  - unfold deliverAll in *. cbn [fold_left]. rewrite IH.
    destruct e; cbn [deliver onBeat onNoteTriggered noteTriggers notesOf
                     flat_map app]; [reflexivity |].
    unfold Orchestrator.onNoteTriggered. rewrite <- app_assoc. reflexivity.
Qed.

Lemma deliverAll_withTriggers (evs : list AudioEvent)
    (ts : list Orchestrator.NoteTrigger) (st : State) :
  deliverAll evs (withTriggers ts st)
  = withTriggers (ts ++ notesOf evs) (deliverAll evs st).
Proof.
  revert ts st. induction evs as [| e evs IH]; intros ts st.
  - cbn. now rewrite app_nil_r.
  - unfold deliverAll in *. cbn [fold_left].
    destruct e.
    + change (deliver (withTriggers ts st) Beat)
        with (withTriggers ts (deliver st Beat)).
      rewrite IH. reflexivity.
    + change (deliver (withTriggers ts st) (Note tx0 ty0))
        with (withTriggers (ts ++ [Orchestrator.mkTrigger tx0 ty0 1])
                           (deliver st (Note tx0 ty0))).
      rewrite IH. cbn [notesOf flat_map]. rewrite <- app_assoc. reflexivity.
Qed.

(** What a frame does to the two references and to the genre. *)
Lemma draw_beatFlash (hands : HandState) (st : State) :
  beatFlash (snd (draw sk hands st))
  = snd (Orchestrator.trailStep (genreOf (particles st))
                                (width sk) (height sk) (beatFlash st)).
Proof. reflexivity. Qed.

Lemma draw_noteTriggers (hands : HandState) (st : State) :
  noteTriggers (snd (draw sk hands st))
  = ageAll (noteTriggers st).
Proof.
  cbn [draw snd noteTriggers]. now rewrite renderTriggers_spec.
Qed.

Lemma draw_frameCount (hands : HandState) (st : State) :
  frameCount (snd (draw sk hands st)) = S (frameCount st).
Proof. reflexivity. Qed.

Lemma draw_genre (hands : HandState) (st : State) :
  genreOf (particles (snd (draw sk hands st))) = genreOf (particles st).
Proof.
  cbn [draw snd particles]. unfold renderMode.
  destruct (particles st) as [ps | ps | ns].
  - destruct (Liquid.drawEtherealLiquid _ _ _ _ _ _ _) as [[? ?] ?].
    reflexivity.
  - destruct (Vortex.drawVortex _ _ _ _ _ _ _) as [[[? ?] ?] ?].
    reflexivity.
  - destruct (Neural.drawNeuralGrid _ _ _ _ _) as [[? ?] ?].
    reflexivity.
Qed.

(** The trigger list plays no part in the rest of the frame. *)
Lemma draw_withTriggers (hands : HandState)
    (ts : list Orchestrator.NoteTrigger) (st : State) :
  snd (draw sk hands (withTriggers ts st))
  = withTriggers (ageAll ts) (snd (draw sk hands st)).
Proof.
  unfold draw, withTriggers, renderMode.
  cbn [snd particles prevLeftHand prevRightHand globalHue vortexAngle
       frameCount cursor beatFlash noteTriggers].
  rewrite renderTriggers_spec. reflexivity.
Qed.

Variable inputAt : nat -> FrameInput.

Lemma run_genre (n : nat) (st : State) :
  genreOf (particles (run sk inputAt n st)) = genreOf (particles st).
Proof.
  revert st. induction n as [| n IH]; intros st; [reflexivity |].
  cbn [run]. rewrite IH. unfold tick. rewrite draw_genre.
  now destruct (deliverAll_untouched (events (inputAt (frameCount st))) st)
    as (-> & _).
Qed.

(** Without a beat the flash of the sketch is the flash of the trail
    step, tick after tick. *)
Lemma run_beatFlash (n : nat) (st : State) :
  (forall k, ~ In Beat (events (inputAt k))) ->
  beatFlash (run sk inputAt n st)
  = Orchestrator.flashAfter (genreOf (particles st)) (width sk) (height sk)
                            n (beatFlash st).
Proof.
  intros Hquiet. revert st. induction n as [| n IH]; intros st;
    [reflexivity |].
  cbn [run Orchestrator.flashAfter]. rewrite IH. unfold tick.
  rewrite draw_genre, draw_beatFlash.
  destruct (deliverAll_untouched (events (inputAt (frameCount st))) st)
    as (-> & _).
  rewrite deliverAll_without_beat by apply Hquiet.
  reflexivity.
Qed.

(** The triggers present now age on their own, whatever is pushed later:
    the list after [n] ticks is their aged remainder followed by what the
    same ticks leave of the later pushes. *)
Lemma run_noteTriggers_split (n : nat) (st : State)
    (older newer : list Orchestrator.NoteTrigger) :
  noteTriggers st = older ++ newer ->
  noteTriggers (run sk inputAt n st)
  = Orchestrator.triggersAfter (width sk) (height sk) n older
    ++ noteTriggers (run sk inputAt n (withTriggers newer st)).
Proof.
  revert st older newer. induction n as [| n IH]; intros st older newer Hst.
  - exact Hst.
  - cbn [run]. unfold tick.
    change (frameCount (withTriggers newer st)) with (frameCount st).
    set (input := inputAt (frameCount st)).
    rewrite deliverAll_withTriggers, draw_withTriggers.
    rewrite (IH _ (ageAll older) (ageAll (newer ++ notesOf (events input)))).
    + rewrite triggersAfter_S.
      replace (ageAll (Orchestrator.triggersAfter (width sk) (height sk)
                                                   n older))
        with (Orchestrator.triggersAfter (width sk) (height sk) n
                                         (ageAll older)).
      * reflexivity.
      * clear. revert older. induction n as [| n IHn]; intros older;
          [reflexivity |].
        rewrite !triggersAfter_S, IHn. reflexivity.
    + rewrite draw_noteTriggers, deliverAll_noteTriggers, Hst.
      rewrite <- app_assoc, ageAll_app. reflexivity.
Qed.

End FrameFacts.

(** C2 (as amended): after a beat sets the flash to 1.0, [n] ticks in which
    no beat arrives leave it at [0.9 ^ n] as long as [n <= 44]; the 44th
    tick is the first that brings it below 0.01, and from then on the guard
    of the trail step keeps it at [0.9 ^ 44]. *)
Theorem beat_flash_decay
    (sk : Sketch) (inputAt : nat -> Frame.FrameInput) (st : Frame.State)
    (n : nat) :
  (forall k, ~ In Frame.Beat (Frame.events (inputAt k))) ->
  Frame.beatFlash (Frame.run sk inputAt n (Frame.onBeat st))
  = 0.9 ^ Nat.min n 44
  /\ 0.9 ^ 44 < 0.01 < 0.9 ^ 43.
Proof.
  intros Hquiet. split; [| lra].
  rewrite run_beatFlash by exact Hquiet.
  cbn [Frame.onBeat Frame.beatFlash Frame.particles].
  unfold Orchestrator.onBeat.
  replace 1 with (0.9 ^ 0) by reflexivity.
  rewrite flashAfter_from_pow by lia.
  f_equal. lia.
Qed.

Lemma idleInput_has_no_beat (k : nat) :
  ~ In Frame.Beat (Frame.events (idleInput k)).
Proof. intros []. Qed.

(** Ten idle ticks after a beat on a fresh liquid sketch. *)
Lemma beat_flash_decay_witness :
  Frame.beatFlash
    (Frame.run rightwardSketch idleInput 10
               (Frame.onBeat (freshState (Frame.LiquidSystem []))))
  = 0.9 ^ 10.
Proof.
  exact (proj1 (beat_flash_decay rightwardSketch idleInput
                  (freshState (Frame.LiquidSystem [])) 10
                  idleInput_has_no_beat)).
Defined.

(** The trail after a beat, tick by tick, while no other beat arrives.
    The tick that follows [n] completed ticks paints the trail with the
    flash fill of brightness [20 * 0.9 ^ n] when [n <= 43], and with the
    plain low-alpha fill when [n >= 44], leaving the flash at [0.9 ^ 44]:
    ticks 1 to 44 after the beat are tinted, every tick from the 45th on
    is plain. *)
Theorem trail_plain_after_44_ticks
    (sk : Sketch) (inputAt : nat -> Frame.FrameInput) (st : Frame.State)
    (n : nat) :
  (forall k, ~ In Frame.Beat (Frame.events (inputAt k))) ->
  let later := Frame.run sk inputAt n (Frame.onBeat st) in
  let bgAlpha := Orchestrator.bgAlphaOf (Frame.genreOf (Frame.particles st)) in
  Orchestrator.trailStep (Frame.genreOf (Frame.particles later))
                         (width sk) (height sk) (Frame.beatFlash later)
  = if (n <? 44)%nat
    then ([P5.FillHSBA 0 0 (20 * 0.9 ^ n) (bgAlpha + 10);
           P5.Rect 0 0 (width sk) (height sk)],
          0.9 ^ S n)
    else ([P5.FillGray 0 bgAlpha; P5.Rect 0 0 (width sk) (height sk)],
          0.9 ^ 44).
Proof.
  intros Hquiet later bgAlpha. subst later bgAlpha.
  rewrite run_genre, run_beatFlash by exact Hquiet.
  cbn [Frame.onBeat Frame.beatFlash Frame.particles].
  unfold Orchestrator.onBeat.
  replace 1 with (0.9 ^ 0) by reflexivity.
  rewrite flashAfter_from_pow by lia.
  unfold Orchestrator.trailStep.
  destruct (Nat.ltb_spec n 44) as [Hlt | Hge].
  - replace (Nat.min (n + 0) 44) with n by lia.
    pose proof (pow09_above_threshold n ltac:(lia)) as Habove.
    destruct (Rlt_dec 0.01 (0.9 ^ n)) as [_ | Hn]; [| contradiction].
    f_equal. simpl. lra.
  - replace (Nat.min (n + 0) 44) with 44%nat by lia.
    destruct (Rlt_dec 0.01 (0.9 ^ 44)) as [Habove | _]; [lra | reflexivity].
Qed.

(** Fifty ticks after a beat on a liquid sketch: the 51st tick paints the
    plain trail [fill(0, 12)]. *)
Lemma trail_plain_after_44_ticks_witness :
  Orchestrator.trailStep JAZZ 800 600
    (Frame.beatFlash
       (Frame.run rightwardSketch idleInput 50
                  (Frame.onBeat (freshState (Frame.LiquidSystem [])))))
  = ([P5.FillGray 0 12; P5.Rect 0 0 800 600], 0.9 ^ 44).
Proof.
  pose proof (trail_plain_after_44_ticks rightwardSketch idleInput
                (freshState (Frame.LiquidSystem [])) 50
                idleInput_has_no_beat) as Hplain.
  cbv zeta in Hplain. rewrite run_genre in Hplain. exact Hplain.
Defined.

(** C2 as stated fails at [n = 45]: the flash is still [0.9 ^ 44]. *)
Lemma beat_flash_stops_decaying :
  (forall k, ~ In Frame.Beat (Frame.events (idleInput k)))
  /\ Frame.beatFlash
       (Frame.run rightwardSketch idleInput 45
                  (Frame.onBeat (freshState (Frame.LiquidSystem []))))
     <> 0.9 ^ 45.
Proof.
  split; [exact idleInput_has_no_beat |].
  rewrite run_beatFlash by exact idleInput_has_no_beat.
  cbn [Frame.onBeat Frame.beatFlash Frame.particles].
  unfold Orchestrator.onBeat.
  replace 1 with (0.9 ^ 0) by reflexivity.
  rewrite flashAfter_from_pow by lia.
  simpl Nat.min. lra.
Qed.

(** C4 (as amended): a trigger pushed with life 1.0 is, after [k < 20]
    ticks, still in the list with life [1 - 0.05 k], between what is left
    of the triggers pushed before it and of those pushed after it, and is
    gone after 20 ticks and later; the tick that follows [k < 20] completed
    ticks draws it as a ring whose stroke alpha is [life_k * 100] and whose
    DIAMETER, the size passed to [p.circle], is [(1 - life_k) * 200]. *)
Theorem note_trigger_lifecycle
    (sk : Sketch) (inputAt : nat -> Frame.FrameInput) (st : Frame.State)
    (x0 y0 : R) (k : nat) :
  let life_k := 1 - 0.05 * INR k in
  let mine :=
    if (k <? 20)%nat then [Orchestrator.mkTrigger x0 y0 life_k] else [] in
  let st_k := Frame.run sk inputAt k (Frame.onNoteTriggered x0 y0 st) in
  Frame.noteTriggers st_k
  = Orchestrator.triggersAfter (width sk) (height sk) k
                               (Frame.noteTriggers st)
    ++ mine
    ++ Frame.noteTriggers (Frame.run sk inputAt k (withTriggers [] st))
  /\ ((k < 20)%nat ->
      incl [P5.NoFill; P5.StrokeWeight 3;
            P5.StrokeHSBA 0 0 100 (life_k * 100);
            P5.Circle (x0 * width sk) (y0 * height sk) ((1 - life_k) * 200)]
           (fst (Frame.tick sk (inputAt (Frame.frameCount st_k)) st_k))).
Proof.
  intros life_k mine st_k.
  assert (Hlist :
    Frame.noteTriggers st_k
    = Orchestrator.triggersAfter (width sk) (height sk) k
                                 (Frame.noteTriggers st)
      ++ mine
      ++ Frame.noteTriggers (Frame.run sk inputAt k (withTriggers [] st))).
  { subst st_k mine life_k.
    rewrite (run_noteTriggers_split sk inputAt k _ (Frame.noteTriggers st)
               [Orchestrator.mkTrigger x0 y0 1]) by reflexivity.
    f_equal.
    rewrite (run_noteTriggers_split sk inputAt k _
               [Orchestrator.mkTrigger x0 y0 1] [])
      by (cbn; reflexivity).
    rewrite fresh_trigger_after. reflexivity. }
  split; [exact Hlist |].
  intros Hk. subst mine.
  destruct (Nat.ltb_spec k 20) as [_ | Hge]; [| lia].
  unfold Frame.tick.
  set (input := inputAt (Frame.frameCount st_k)).
  assert (Hin : In (Orchestrator.mkTrigger x0 y0 life_k)
                   (Frame.noteTriggers
                      (Frame.deliverAll (Frame.events input) st_k))).
  { rewrite deliverAll_noteTriggers, Hlist.
    rewrite !in_app_iff. left. right. left. left. reflexivity. }
  intros cmd Hcmd.
  cbn [Frame.draw fst]. right.
  rewrite in_app_iff. right. right.
  rewrite renderTriggers_spec. cbn [fst].
  rewrite in_app_iff. left.
  apply in_flat_map. exists (Orchestrator.mkTrigger x0 y0 life_k).
  split; [apply in_rev in Hin; exact Hin | exact Hcmd].
Qed.

Lemma note_trigger_lifecycle_witness :
  incl [P5.NoFill; P5.StrokeWeight 3;
        P5.StrokeHSBA 0 0 100 ((1 - 0.05 * INR 10) * 100);
        P5.Circle (0.5 * 800) (0.5 * 600) ((1 - (1 - 0.05 * INR 10)) * 200)]
       (fst (Frame.tick rightwardSketch (idleInput 10)
               (Frame.run rightwardSketch idleInput 10
                  (Frame.onNoteTriggered 0.5 0.5
                     (freshState (Frame.LiquidSystem [])))))).
Proof.
  assert (Hk : (10 < 20)%nat) by lia.
  exact (proj2 (note_trigger_lifecycle rightwardSketch idleInput
                  (freshState (Frame.LiquidSystem [])) 0.5 0.5 10) Hk).
Defined.

Section RingRadius.
Import P5 Frame.

Lemma ringRadii_app (a b : list DrawCmd) :
  Orchestrator.ringRadii (a ++ b)
  = Orchestrator.ringRadii a ++ Orchestrator.ringRadii b.
Proof.
  induction a as [| cmd a IH]; [reflexivity |].
  destruct cmd; cbn; rewrite ?IH; reflexivity.
Qed.

Lemma trail_has_no_ring (genre : GameGenre) (w h f : R) :
  Orchestrator.ringRadii (fst (Orchestrator.trailStep genre w h f)) = [].
Proof.
  unfold Orchestrator.trailStep. destruct (Rlt_dec 0.01 f); reflexivity.
Qed.

(** A liquid sketch without particles stays so and draws nothing. *)
Lemma renderMode_empty_liquid (sk : Sketch) (fc : nat) (hands : HandState)
    (lv rv : Vector) (f g : R) (st : State) :
  particles st = LiquidSystem [] ->
  renderMode sk fc hands lv rv f g st
  = ([], LiquidSystem [], vortexAngle st, cursor st).
Proof.
  intros Hps. unfold renderMode. rewrite Hps. reflexivity.
Qed.

Lemma run_empty_liquid (sk : Sketch) (inputAt : nat -> FrameInput)
    (n : nat) (st : State) :
  particles st = LiquidSystem [] ->
  particles (run sk inputAt n st) = LiquidSystem [].
Proof.
  revert st. induction n as [| n IH]; intros st Hps; [exact Hps |].
  cbn [run]. apply IH. unfold tick. cbn [draw snd particles].
  rewrite renderMode_empty_liquid; [reflexivity |].
  now destruct (deliverAll_untouched (events (inputAt (frameCount st))) st)
    as (-> & _).
Qed.

Lemma run_no_triggers (sk : Sketch) (n : nat) (st : State) :
  noteTriggers st = [] -> noteTriggers (run sk idleInput n st) = [].
Proof.
  revert st. induction n as [| n IH]; intros st Hst; [exact Hst |].
  cbn [run]. apply IH. unfold tick.
  rewrite draw_noteTriggers, deliverAll_noteTriggers, Hst. reflexivity.
Qed.

End RingRadius.

(** C4 as stated fails on the radius: after 10 ticks the life is 0.5 and
    the ring drawn by the next frame has diameter 100, hence radius 50,
    not [(1 - 0.5) * 200]. *)
Lemma note_trigger_ring_radius_is_half :
  Orchestrator.ringRadii
    (fst (Frame.tick rightwardSketch (idleInput 10)
            (Frame.run rightwardSketch idleInput 10
               (Frame.onNoteTriggered 0.5 0.5
                  (freshState (Frame.LiquidSystem []))))))
  <> [(1 - (1 - 0.05 * 10)) * 200].
Proof.
  set (st10 := Frame.run rightwardSketch idleInput 10
                 (Frame.onNoteTriggered 0.5 0.5
                    (freshState (Frame.LiquidSystem [])))).
  assert (Hps : Frame.particles st10 = Frame.LiquidSystem [])
    by (apply run_empty_liquid; reflexivity).
  assert (Hts : Frame.noteTriggers st10
                = [Orchestrator.mkTrigger 0.5 0.5 (1 - 0.05 * 10)]).
  { subst st10.
    rewrite (run_noteTriggers_split rightwardSketch idleInput 10 _ []
               [Orchestrator.mkTrigger 0.5 0.5 1]) by reflexivity.
    rewrite triggersAfter_nil. cbn [app].
    rewrite (run_noteTriggers_split rightwardSketch idleInput 10 _
               [Orchestrator.mkTrigger 0.5 0.5 1] []) by reflexivity.
    rewrite fresh_trigger_after, run_no_triggers by reflexivity.
    replace (INR 10) with 10 by (simpl; lra). reflexivity. }
  unfold Frame.tick.
  cbn [idleInput Frame.events Frame.currentHands Frame.deliverAll fold_left].
  unfold Frame.draw. cbn [fst].
  rewrite renderTriggers_spec, Hts, renderMode_empty_liquid by exact Hps.
  cbn [Orchestrator.ringRadii]. rewrite ringRadii_app, trail_has_no_ring.
  cbn [fst app rev flat_map Orchestrator.drawTrigger Orchestrator.ringRadii
       Orchestrator.life Orchestrator.tx Orchestrator.ty].
  intros Heq. injection Heq as Heq. lra.
Qed.

(** ** Liquid particles: wrap-around and idle frames *)

Section LiquidFacts.
Import P5 Liquid.

Variable sk : Sketch.
Hypothesis width_nonneg : 0 <= width sk.
Hypothesis height_nonneg : 0 <= height sk.

(** The four outcomes of the wrap, by where the integrated position lies. *)
Lemma wrap_x (pt : LiquidParticle) :
  (width sk < x (pos pt) ->
     x (pos (wrap sk pt)) = 0 /\ x (prevPos (wrap sk pt)) = 0)
  /\ (x (pos pt) < 0 ->
     x (pos (wrap sk pt)) = width sk /\ x (prevPos (wrap sk pt)) = width sk)
  /\ (0 <= x (pos pt) <= width sk ->
     x (pos (wrap sk pt)) = x (pos pt)
     /\ x (prevPos (wrap sk pt)) = x (prevPos pt)).
Proof.
  unfold wrap, setPosX, setPosY.
  split; [| split]; intros Hx; split_cmp; cbn in *; split; lra.
Qed.

Lemma wrap_y (pt : LiquidParticle) :
  (height sk < y (pos pt) ->
     y (pos (wrap sk pt)) = 0 /\ y (prevPos (wrap sk pt)) = 0)
  /\ (y (pos pt) < 0 ->
     y (pos (wrap sk pt)) = height sk /\ y (prevPos (wrap sk pt)) = height sk)
  /\ (0 <= y (pos pt) <= height sk ->
     y (pos (wrap sk pt)) = y (pos pt)
     /\ y (prevPos (wrap sk pt)) = y (prevPos pt)).
Proof.
  unfold wrap, setPosX, setPosY.
  split; [| split]; intros Hy; split_cmp; cbn in *; split; lra.
Qed.

(** Whatever comes in, the wrapped position lies in the closed rectangle. *)
Lemma wrap_in_closed_box (pt : LiquidParticle) :
  0 <= x (pos (wrap sk pt)) <= width sk
  /\ 0 <= y (pos (wrap sk pt)) <= height sk.
Proof.
  unfold wrap, setPosX, setPosY.
  split_cmp; cbn in *; lra.
Qed.

Lemma wrap_keeps_motion (pt : LiquidParticle) :
  vel (wrap sk pt) = vel pt /\ acc (wrap sk pt) = acc pt
  /\ maxSpeed (wrap sk pt) = maxSpeed pt.
Proof.
  unfold wrap, setPosX, setPosY.
  split_cmp; cbn; auto.
Qed.

End LiquidFacts.

Section LiquidExamples.
Import P5 Liquid.

Lemma forces_noHands (sk : Sketch) (fc : nat) (lv rv : Vector)
    (pt : LiquidParticle) (c : nat) :
  forces sk fc noHands lv rv pt c
  = (add (acc pt) (flowForce sk fc (pos pt)), c).
Proof. reflexivity. Qed.

Lemma flowForce_rightward (fc : nat) (p0 : Vector) :
  flowForce rightwardSketch fc p0 = createVector 0.5 0.
Proof.
  unfold flowForce, fromAngle, mult, TWO_PI. cbn [noise rightwardSketch x y].
  replace (0 * (2 * PI) * 4) with 0 by ring.
  rewrite cos_0, sin_0. f_equal; lra.
Qed.

Lemma flowForce_leftward (fc : nat) (p0 : Vector) :
  flowForce leftwardSketch fc p0 = createVector (-0.5) 0.
Proof.
  unfold flowForce, fromAngle, mult, TWO_PI. cbn [noise leftwardSketch x y].
  replace (3 / 8 * (2 * PI) * 4) with (PI + 2 * INR 1 * PI) by (simpl; lra).
  rewrite cos_period, sin_period, cos_PI, sin_PI. f_equal; lra.
Qed.

(** A resting particle pushed by a force of length 0.5 moves by 0.47. *)
Lemma integrate_resting (px py fx : R) :
  fx * fx <= 36 ->
  integrate (resting px py)
            (add (acc (resting px py)) (createVector fx 0))
  = mkLiquid (createVector (px + fx * 0.94) py) (createVector (fx * 0.94) 0)
             (createVector 0 0) (createVector px py) 6.
Proof.
  intros Hfx. unfold integrate, resting, limit, magSq, add, mult.
  cbn [pos vel acc maxSpeed prevPos x y].
  destruct (Rlt_dec (6 * 6) _) as [Hbig | _]; [lra |].
  cbn [x y]. f_equal; f_equal; lra.
Qed.

End LiquidExamples.

(** C5: when the integrated position leaves the surface through an edge,
    the update puts that coordinate on the opposite edge (0 after leaving
    past [width] or [height], [width] or [height] after leaving below 0) and
    gives the previous position the same coordinate, so the streak drawn by
    [show] does not span the surface. *)
Theorem liquid_wrap_resets_previous
    (sk : Sketch) (frameCount : nat) (hands : HandState)
    (leftVel rightVel : P5.Vector) (pt : Liquid.LiquidParticle) (c : nat) :
  0 <= width sk -> 0 <= height sk ->
  let moved :=
    Liquid.integrate pt
      (fst (Liquid.forces sk frameCount hands leftVel rightVel pt c)) in
  let pt' := fst (Liquid.update sk frameCount hands leftVel rightVel pt c) in
  (width sk < P5.x (Liquid.pos moved) ->
     P5.x (Liquid.pos pt') = 0 /\ P5.x (Liquid.prevPos pt') = 0)
  /\ (P5.x (Liquid.pos moved) < 0 ->
     P5.x (Liquid.pos pt') = width sk /\ P5.x (Liquid.prevPos pt') = width sk)
  /\ (height sk < P5.y (Liquid.pos moved) ->
     P5.y (Liquid.pos pt') = 0 /\ P5.y (Liquid.prevPos pt') = 0)
  /\ (P5.y (Liquid.pos moved) < 0 ->
     P5.y (Liquid.pos pt') = height sk
     /\ P5.y (Liquid.prevPos pt') = height sk)
  /\ In (P5.Line (P5.x (Liquid.prevPos pt')) (P5.y (Liquid.prevPos pt'))
                 (P5.x (Liquid.pos pt')) (P5.y (Liquid.pos pt')))
        (Liquid.show pt').
Proof.
  intros Hw Hh moved pt'.
  assert (Hpt' : pt' = Liquid.wrap sk moved).
  { subst pt' moved. unfold Liquid.update.
    destruct (Liquid.forces sk frameCount hands leftVel rightVel pt c).
    reflexivity. }
  rewrite Hpt'.
  destruct (wrap_x sk Hw moved) as (Hx1 & Hx2 & _).
  destruct (wrap_y sk Hh moved) as (Hy1 & Hy2 & _).
  repeat (split; [assumption |]).
  unfold Liquid.show.
  destruct (Rlt_dec _ 0.3); cbn [In]; tauto.
Qed.

(** A particle at x = 799.9 drifting right on the 800-wide surface. *)
Lemma liquid_wrap_resets_previous_witness :
  0 <= width rightwardSketch /\ 0 <= height rightwardSketch
  /\ P5.x (Liquid.pos (fst (Liquid.update rightwardSketch 0 noHands
                              (P5.createVector 0 0) (P5.createVector 0 0)
                              (resting 799.9 300) 0))) = 0
  /\ P5.x (Liquid.prevPos (fst (Liquid.update rightwardSketch 0 noHands
                                  (P5.createVector 0 0) (P5.createVector 0 0)
                                  (resting 799.9 300) 0))) = 0.
Proof.
  assert (Hw : 0 <= width rightwardSketch) by (simpl; lra).
  assert (Hh : 0 <= height rightwardSketch) by (simpl; lra).
  split; [exact Hw |]. split; [exact Hh |].
  apply (liquid_wrap_resets_previous rightwardSketch 0 noHands
           (P5.createVector 0 0) (P5.createVector 0 0) (resting 799.9 300) 0
           Hw Hh).
  rewrite forces_noHands. cbn [fst].
  rewrite flowForce_rightward, integrate_resting by lra.
  simpl. lra.
Defined.

(** ** Liquid particles: frames without hands *)

Section IdleFrames.
Import P5 Liquid.

Lemma magSq_nonneg (v : Vector) : 0 <= magSq v.
Proof. unfold magSq. nra. Qed.

Lemma magSq_mult (v : Vector) (k : R) : magSq (mult v k) = k * k * magSq v.
Proof. unfold magSq, mult. cbn [x y]. ring. Qed.

(** [limit] does what its name says. *)
Lemma limit_bound (v : Vector) (m : R) :
  0 <= m -> magSq (limit v m) <= m * m.
Proof.
  intros Hm. unfold limit.
  destruct (Rlt_dec (m * m) (magSq v)) as [Hbig | Hsmall]; [| lra].
  assert (Hpos : 0 < magSq v) by nra.
  assert (Hs : sqrt (magSq v) * sqrt (magSq v) = magSq v)
    by (apply sqrt_sqrt; lra).
  assert (Hs0 : sqrt (magSq v) <> 0).
  { intros Hz. rewrite Hz in Hs. lra. }
  rewrite magSq_mult.
  replace (magSq (div v (sqrt (magSq v)))) with 1; [lra |].
  unfold magSq at 1, div. cbn [x y].
  replace (x v / sqrt (magSq v) * (x v / sqrt (magSq v))
           + y v / sqrt (magSq v) * (y v / sqrt (magSq v)))
    with (magSq v / (sqrt (magSq v) * sqrt (magSq v)))
    by (unfold magSq at 1; field; exact Hs0).
  rewrite Hs. field. lra.
Qed.

Variable sk : Sketch.
Hypothesis width_nonneg : 0 <= width sk.
Hypothesis height_nonneg : 0 <= height sk.

Lemma update_noHands (fc : nat) (pt : LiquidParticle) (c : nat) :
  update sk fc noHands (Orchestrator.handVel None None)
         (Orchestrator.handVel None None) pt c
  = (wrap sk (integrate pt (add (acc pt) (flowForce sk fc (pos pt)))), c).
Proof. reflexivity. Qed.

Lemma integrate_speedBounded (pt : LiquidParticle) (a : Vector) :
  0 <= maxSpeed pt -> speedBounded (integrate pt a).
Proof.
  intros Hm. unfold speedBounded, integrate. cbn [maxSpeed vel].
  split; [exact Hm |].
  rewrite magSq_mult.
  pose proof (limit_bound (add (vel pt) a) (maxSpeed pt) Hm). nra.
Qed.

Lemma update_keeps_invariant (fc : nat) (pt : LiquidParticle) (c : nat) :
  0 <= maxSpeed pt ->
  let pt' := fst (update sk fc noHands (Orchestrator.handVel None None)
                         (Orchestrator.handVel None None) pt c) in
  inClosedBox sk pt' /\ speedBounded pt'.
Proof.
  intros Hm pt'. subst pt'. rewrite update_noHands. cbn [fst]. split.
  - apply wrap_in_closed_box; assumption.
  - destruct (wrap_keeps_motion sk
                (integrate pt (add (acc pt) (flowForce sk fc (pos pt)))))
      as (Hv & _ & Hmax).
    pose proof (integrate_speedBounded pt
                  (add (acc pt) (flowForce sk fc (pos pt))) Hm) as [H1 H2].
    unfold speedBounded. rewrite Hv, Hmax. split; assumption.
Qed.

Lemma idle_frame_keeps_invariant (fc : nat) (ps : list LiquidParticle)
    (c : nat) :
  Forall speedBounded ps ->
  let ps' := snd (fst (drawEtherealLiquid sk fc noHands
                         (Orchestrator.handVel None None)
                         (Orchestrator.handVel None None) ps c)) in
  List.length ps' = List.length ps
  /\ Forall (inClosedBox sk) ps' /\ Forall speedBounded ps'.
Proof.
  intros Hall. revert c.
  induction Hall as [| pt ps [Hm _] _ IH]; intros c.
  - cbn. auto.
  - cbn [drawEtherealLiquid]. rewrite update_noHands.
    specialize (IH c).
    destruct (drawEtherealLiquid sk fc noHands
                (Orchestrator.handVel None None)
                (Orchestrator.handVel None None) ps c)
      as [[cmds rest'] c2].
    cbn [fst snd] in *. destruct IH as (Hlen & Hbox & Hspeed).
    pose proof (update_keeps_invariant fc pt c Hm) as Hpt.
    cbv zeta in Hpt. rewrite update_noHands in Hpt. cbn [fst] in Hpt.
    destruct Hpt as [Hb Hs].
    cbn [List.length].
    split; [congruence | split; constructor; assumption].
Qed.

(** A frame of a liquid sketch that reads no hand. *)
Lemma draw_idle_liquid (st : Frame.State) (ps : list LiquidParticle) :
  Frame.particles st = Frame.LiquidSystem ps ->
  Frame.particles (snd (Frame.draw sk noHands st))
  = Frame.LiquidSystem
      (snd (fst (drawEtherealLiquid sk (S (Frame.frameCount st)) noHands
                   (Orchestrator.handVel None None)
                   (Orchestrator.handVel None None) ps (Frame.cursor st)))).
Proof.
  intros Hps. cbn [Frame.draw snd Frame.particles].
  unfold Frame.renderMode. rewrite Hps.
  cbn [Orchestrator.handVec Orchestrator.handVel left right noHands].
  destruct (drawEtherealLiquid _ _ _ _ _ _ _) as [[cmds ps'] c'].
  reflexivity.
Qed.

Lemma run_idle_liquid (inputAt : nat -> Frame.FrameInput) (n : nat)
    (st : Frame.State) (ps : list LiquidParticle) :
  (forall k, Frame.currentHands (inputAt k) = noHands) ->
  Frame.particles st = Frame.LiquidSystem ps ->
  Forall (inClosedBox sk) ps -> Forall speedBounded ps ->
  exists after,
    Frame.particles (Frame.run sk inputAt n st) = Frame.LiquidSystem after
    /\ List.length after = List.length ps
    /\ Forall (inClosedBox sk) after /\ Forall speedBounded after.
Proof.
  intros Hidle. revert st ps.
  induction n as [| n IH]; intros st ps Hps Hbox Hspeed.
  - exists ps. auto.
  - cbn [Frame.run]. unfold Frame.tick. rewrite Hidle.
    set (input := inputAt (Frame.frameCount st)).
    destruct (deliverAll_untouched (Frame.events input) st)
      as (Hp & _ & _).
    rewrite <- Hp in Hps.
    pose proof (draw_idle_liquid _ ps Hps) as Hdraw.
    pose proof (idle_frame_keeps_invariant
                  (S (Frame.frameCount
                        (Frame.deliverAll (Frame.events input) st)))
                  ps
                  (Frame.cursor (Frame.deliverAll (Frame.events input) st))
                  Hspeed) as Hstep.
    cbv zeta in Hstep. destruct Hstep as (Hlen & Hbox1 & Hspeed1).
    destruct (IH _ _ Hdraw Hbox1 Hspeed1) as (after & Hrun & Hlen' & Hb & Hs).
    exists after. repeat split; [exact Hrun | congruence | exact Hb | exact Hs].
Qed.

End IdleFrames.

(** C8 (as amended): in a liquid sketch, as long as no hand is detected,
    particles that start on the surface are, after any number of ticks,
    still as many, each inside the CLOSED rectangle
    [[0, width] x [0, height]] (a particle leaving below 0 re-enters
    exactly at [width] or [height]), and each no faster than 0.94 times its
    maximal speed, so nothing grows without bound. *)
Theorem idle_liquid_stays_on_surface
    (sk : Sketch) (inputAt : nat -> Frame.FrameInput) (n : nat)
    (st : Frame.State) (particles : list Liquid.LiquidParticle) :
  0 <= width sk -> 0 <= height sk ->
  (forall k, Frame.currentHands (inputAt k) = noHands) ->
  Frame.particles st = Frame.LiquidSystem particles ->
  Forall (inClosedBox sk) particles -> Forall speedBounded particles ->
  exists after,
    Frame.particles (Frame.run sk inputAt n st) = Frame.LiquidSystem after
    /\ List.length after = List.length particles
    /\ Forall (inClosedBox sk) after
    /\ Forall speedBounded after.
Proof.
  intros Hw Hh Hidle Hps Hbox Hspeed.
  exact (run_idle_liquid sk Hw Hh inputAt n st particles Hidle Hps
           Hbox Hspeed).
Qed.

Lemma resting_speedBounded (px py : R) : speedBounded (resting px py).
Proof.
  unfold speedBounded, resting, P5.magSq. cbn. lra.
Qed.

(** One resting particle in the middle of the surface, 100 idle ticks. *)
Lemma idle_liquid_stays_on_surface_witness :
  exists after,
    Frame.particles
      (Frame.run rightwardSketch idleInput 100
                 (freshState (Frame.LiquidSystem [resting 400 300])))
    = Frame.LiquidSystem after
    /\ List.length after = 1%nat
    /\ Forall (inClosedBox rightwardSketch) after
    /\ Forall speedBounded after.
Proof.
  assert (Hw : 0 <= width rightwardSketch) by (simpl; lra).
  assert (Hh : 0 <= height rightwardSketch) by (simpl; lra).
  assert (Hbox : Forall (inClosedBox rightwardSketch) [resting 400 300]).
  { constructor; [| constructor]. unfold inClosedBox. simpl. lra. }
  assert (Hspeed : Forall speedBounded [resting 400 300]).
  { constructor; [apply resting_speedBounded | constructor]. }
  exact (idle_liquid_stays_on_surface rightwardSketch idleInput 100
           (freshState (Frame.LiquidSystem [resting 400 300]))
           [resting 400 300] Hw Hh (fun _ => eq_refl) eq_refl Hbox Hspeed).
Defined.

(** C8 as stated fails on the half-open rectangle: a resting particle at
    x = 0.1, inside the 800 x 600 surface, drifts left past 0 in one idle
    tick and is put at x = 800, the surface width itself. *)
Lemma idle_particle_lands_on_right_edge :
  (0 <= 0.1 < width leftwardSketch /\ 0 <= 300 < height leftwardSketch)
  /\ exists after,
       Frame.particles
         (Frame.run leftwardSketch idleInput 1
                    (freshState (Frame.LiquidSystem [resting 0.1 300])))
       = Frame.LiquidSystem after
       /\ ~ Forall (fun pt =>
                      0 <= P5.x (Liquid.pos pt) < width leftwardSketch
                      /\ 0 <= P5.y (Liquid.pos pt) < height leftwardSketch)
                   after.
Proof.
  split; [simpl; lra |].
  eexists. split.
  - cbn [Frame.run]. unfold Frame.tick.
    cbn [idleInput Frame.events Frame.currentHands Frame.deliverAll
         fold_left].
    rewrite (draw_idle_liquid leftwardSketch _ [resting 0.1 300])
      by reflexivity.
    cbn [Liquid.drawEtherealLiquid].
    rewrite update_noHands, flowForce_leftward, integrate_resting by lra.
    cbn [fst snd]. reflexivity.
  - intros Hall.
    apply Forall_inv in Hall. destruct Hall as [[_ Hx] _].
    revert Hx. unfold Liquid.wrap, Liquid.setPosX, Liquid.setPosY.
    cbn [Liquid.pos P5.x P5.y width height leftwardSketch].
    split_cmp; cbn [Liquid.pos P5.x P5.y] in *; lra.
Qed.

(** ** Liquid particles: the drag of a fast hand *)

Section DragForce.
Import P5 Liquid.

(** The scalar in front of the unit hand direction. *)
Lemma dragForce_scalar (d : R) (hVel : Vector) :
  dragForce d hVel
  = mult (normalize hVel) (4 * (1 - d / 300) * (mag hVel * 0.05)).
Proof.
  unfold dragForce, map. f_equal. field.
Qed.

(** Up to distance 300 the drag points along the hand's motion, with a
    factor that is proportional to the hand's speed and falls with the
    distance. *)
Lemma drag_aligned_up_to_300 (d : R) (hVel : Vector) :
  0 <= d <= 300 -> 5 < mag hVel ->
  exists k, 0 <= k /\ k = 0.2 * (1 - d / 300) * mag hVel
            /\ dragForce d hVel = mult (normalize hVel) k.
Proof.
  intros Hd Hv. exists (4 * (1 - d / 300) * (mag hVel * 0.05)).
  split; [| split].
  - assert (0 <= 1 - d / 300) by lra. nra.
  - lra.
  - apply dragForce_scalar.
Qed.

(** Between 300 and the interaction radius the factor is negative. *)
Lemma drag_reversed_beyond_300 (d : R) (hVel : Vector) :
  300 < d -> 5 < mag hVel ->
  exists k, k < 0 /\ dragForce d hVel = mult (normalize hVel) k.
Proof.
  intros Hd Hv. exists (4 * (1 - d / 300) * (mag hVel * 0.05)).
  split; [| apply dragForce_scalar].
  assert (1 - d / 300 < 0) by lra. nra.
Qed.

Lemma mag_horizontal (s : R) : 0 <= s -> mag (createVector s 0) = s.
Proof.
  intros Hs. unfold mag, magSq. cbn [x y].
  replace (s * s + 0 * 0) with (s * s) by ring.
  apply sqrt_square. exact Hs.
Qed.

Lemma normalize_horizontal (s : R) :
  0 < s -> normalize (createVector s 0) = createVector 1 0.
Proof.
  intros Hs. unfold normalize. rewrite mag_horizontal by lra.
  destruct (Req_dec_T s 0) as [Hz | _]; [lra |].
  unfold mult. cbn [x y]. f_equal; field; lra.
Qed.

(** A hand moving right at speed 10, a particle 150 away. *)
Lemma drag_aligned_up_to_300_witness :
  exists k, 0 <= k
            /\ k = 0.2 * (1 - 150 / 300) * mag (createVector 10 0)
            /\ dragForce 150 (createVector 10 0)
               = mult (normalize (createVector 10 0)) k.
Proof.
  apply (drag_aligned_up_to_300 150 (createVector 10 0)).
  - lra.
  - rewrite mag_horizontal; lra.
Defined.

End DragForce.

(** C3: a particle at (50, 300) is 350 away from a hand at the centre of
    the 800 x 600 surface, inside the interaction radius of 400; the hand
    moves right at speed 10, above the threshold of 5.  The drag added to
    the acceleration is [(-1/3, 0)]: it points AGAINST the hand's motion. *)
Theorem drag_opposes_hand_beyond_300 :
  let sk := rightwardSketch in
  let at_pos := P5.createVector 50 300 in
  let hand := mkCoords 0.5 0.5 in
  let hVel := P5.createVector 10 0 in
  let d := P5.mag (P5.sub (P5.createVector (hx hand * width sk)
                                           (hy hand * height sk)) at_pos) in
  d = 350 /\ d < 400 /\ 5 < P5.mag hVel
  /\ Liquid.dragForce d hVel = P5.mult (P5.normalize hVel) (-1 / 3)
  /\ Liquid.dragForce d hVel = P5.createVector (-1 / 3) 0
  /\ Liquid.interact sk at_pos (Some hand) hVel (P5.createVector 0 0) 0
     = (P5.add (P5.add (P5.add (P5.createVector 0 0)
                               (Liquid.attraction (P5.createVector 350 0) 350))
                       (P5.createVector (-1 / 3) 0))
               (Liquid.turbulence (draws sk 0)),
        1%nat).
Proof.
  intros sk at_pos hand hVel d.
  assert (Hdir : P5.sub (P5.createVector (hx hand * width sk)
                                         (hy hand * height sk)) at_pos
                 = P5.createVector 350 0).
  { unfold P5.sub. subst sk at_pos hand. cbn. f_equal; lra. }
  assert (Hd : d = 350).
  { subst d. rewrite Hdir. apply mag_horizontal. lra. }
  assert (Hv : P5.mag hVel = 10) by (apply mag_horizontal; lra).
  assert (Hdrag : Liquid.dragForce 350 hVel = P5.createVector (-1 / 3) 0).
  { rewrite dragForce_scalar, Hv. subst hVel.
    rewrite normalize_horizontal by lra.
    unfold P5.mult. cbn [P5.x P5.y]. f_equal; lra. }
  rewrite Hd, Hv. repeat split; try lra.
  - rewrite dragForce_scalar, Hv. f_equal. lra.
  - exact Hdrag.
  - unfold Liquid.interact. fold at_pos. fold sk. rewrite Hdir.
    rewrite mag_horizontal by lra. rewrite Hv.
    destruct (Rlt_dec 350 400) as [_ | Hn]; [| lra].
    destruct (Rlt_dec 5 10) as [_ | Hn]; [| lra].
    rewrite Hdrag. reflexivity.
Qed.

(** ** Vortex particles *)

Section VortexFacts.
Import P5 Vortex.

Variable sk : Sketch.
Hypothesis draws_unit : forall k, 0 <= draws sk k < 1.
Hypothesis width_nonneg : 0 <= width sk.
Hypothesis height_nonneg : 0 <= height sk.

Lemma random_range (u lo hi : R) :
  0 <= u < 1 -> lo <= hi -> lo <= random u lo hi <= hi.
Proof. intros Hu Hlh. unfold random. nra. Qed.

Lemma random_range_strict (u lo hi : R) :
  0 <= u < 1 -> lo < hi -> lo <= random u lo hi < hi.
Proof. intros Hu Hlh. unfold random. nra. Qed.

(** What [respawn] hands back: six fresh draws, each in its range. *)
Lemma respawn_ranges (c : nat) :
  let fresh := fst (respawn sk c) in
  snd (respawn sk c) = (c + 6)%nat
  /\ vx fresh = random (draws sk c) (- width sk) (width sk)
  /\ vy fresh = random (draws sk (c + 1)) (- height sk) (height sk)
  /\ vz fresh = random (draws sk (c + 2)) 1000 2000
  /\ speed fresh = random (draws sk (c + 5)) 10 30
  /\ - width sk <= vx fresh <= width sk
  /\ - height sk <= vy fresh <= height sk
  /\ 1000 <= vz fresh < 2000
  /\ 10 <= speed fresh < 30.
Proof.
  cbn [respawn fst snd vx vy vz speed].
  repeat split; try reflexivity;
    try (apply random_range; [apply draws_unit | lra]);
    try (apply random_range_strict; [apply draws_unit | lra]).
Qed.

Lemma update_cases (beatFlash : R) (hands : HandState) (pt : VortexParticle)
    (angle : R) (c : nat) :
  let moved := advance beatFlash pt in
  (vz moved < 1 ->
     update sk beatFlash hands pt angle c
     = (fst (respawn sk c), angle + twistOf hands * 0.01, (c + 6)%nat))
  /\ (1 <= vz moved ->
     update sk beatFlash hands pt angle c
     = (moved, angle + twistOf hands * 0.01, c)).
Proof.
  intros moved. unfold update. fold moved.
  destruct (Rlt_dec (vz moved) 1); split; intros Hz;
    try reflexivity; lra.
Qed.

(** Every particle the sketch ever holds has a speed of at least 10: the
    constructor draws it from [[10, 30)] and only [respawn] rewrites it. *)
Lemma create_speed (c : nat) : 10 <= speed (fst (create sk c)) < 30.
Proof.
  unfold create. cbn [respawn fst snd speed].
  apply random_range_strict; [apply draws_unit | lra].
Qed.

Lemma update_keeps_speed (beatFlash : R) (hands : HandState)
    (pt : VortexParticle) (angle : R) (c : nat) :
  10 <= speed pt ->
  10 <= speed (fst (fst (update sk beatFlash hands pt angle c))).
Proof.
  intros Hs. unfold update.
  destruct (Rlt_dec (vz (advance beatFlash pt)) 1).
  - cbn [respawn fst speed].
    apply random_range_strict; [apply draws_unit | lra].
  - exact Hs.
Qed.

End VortexFacts.

(** C6: one update lowers the depth by [speed + beatFlash * 50]; when the
    lowered depth is at or below the minimum 1, the particle is respawned
    by that update (depth below 1) or by the next one (depth exactly 1),
    and a respawned particle takes its offset, its depth in [[1000, 2000)]
    and its speed in [[10, 30)] from fresh draws of the generator. *)
Theorem vortex_depth_and_respawn
    (sk : Sketch) (beatFlash nextFlash : R) (hands nextHands : HandState)
    (pt : Vortex.VortexParticle) (angle : R) (c : nat) :
  (forall k, 0 <= draws sk k < 1) ->
  0 <= width sk -> 0 <= height sk ->
  0 < Vortex.speed pt -> 0 <= nextFlash ->
  let moved := Vortex.advance beatFlash pt in
  let first := Vortex.update sk beatFlash hands pt angle c in
  let second :=
    Vortex.update sk nextFlash nextHands
                  (fst (fst first)) (snd (fst first)) (snd first) in
  Vortex.vz moved = Vortex.vz pt - (Vortex.speed pt + beatFlash * 50)
  /\ (1 <= Vortex.vz moved -> fst (fst first) = moved /\ snd first = c)
  /\ (Vortex.vz moved <= 1 ->
        (fst (fst first) = fst (Vortex.respawn sk c)
         /\ snd first = (c + 6)%nat)
        \/ (fst (fst first) = moved
            /\ fst (fst second) = fst (Vortex.respawn sk c)
            /\ snd second = (c + 6)%nat))
  /\ (let fresh := fst (Vortex.respawn sk c) in
      Vortex.vx fresh = P5.random (draws sk c) (- width sk) (width sk)
      /\ Vortex.vy fresh
         = P5.random (draws sk (c + 1)) (- height sk) (height sk)
      /\ Vortex.speed fresh = P5.random (draws sk (c + 5)) 10 30
      /\ - width sk <= Vortex.vx fresh <= width sk
      /\ - height sk <= Vortex.vy fresh <= height sk
      /\ 1000 <= Vortex.vz fresh < 2000
      /\ 10 <= Vortex.speed fresh < 30).
Proof.
  intros Hdraws Hw Hh Hspeed Hnext moved first second.
  destruct (update_cases sk beatFlash hands pt angle c) as [Hlow Hhigh].
  fold moved in Hlow, Hhigh. fold first in Hlow, Hhigh.
  split; [reflexivity |]. split; [| split].
  - intros Hz. rewrite (Hhigh Hz). cbn [fst snd]. auto.
  - intros Hz. destruct (Rlt_dec (Vortex.vz moved) 1) as [Hlt | Hge].
    + left. rewrite (Hlow Hlt). cbn [fst snd]. auto.
    + right. assert (H1 : 1 <= Vortex.vz moved) by lra.
      assert (Hfirst : first = (moved, angle + Vortex.twistOf hands * 0.01, c))
        by exact (Hhigh H1).
      subst second. rewrite Hfirst. cbn [fst snd].
      destruct (update_cases sk nextFlash nextHands moved
                  (angle + Vortex.twistOf hands * 0.01) c) as [Hlow2 _].
      rewrite Hlow2.
      * cbn [fst snd]. auto.
      * unfold Vortex.advance. cbn [Vortex.vz Vortex.speed].
        change (Vortex.speed pt) with (Vortex.speed moved).
        assert (Hs : Vortex.speed moved = Vortex.speed pt) by reflexivity.
        rewrite Hs. nra.
  - destruct (respawn_ranges sk Hdraws Hw Hh c)
      as (_ & Hx & Hy & _ & Hs & Rx & Ry & Rz & Rs).
    cbv zeta in *. repeat split; assumption || apply Rx || apply Ry
                                 || apply Rz || apply Rs.
Qed.

Lemma vortex_depth_and_respawn_witness :
  (forall k, 0 <= draws rightwardSketch k < 1)
  /\ 0 < Vortex.speed nearParticle
  /\ Vortex.vz (Vortex.advance 0 nearParticle) = 1
  /\ Vortex.vz
       (fst (fst (Vortex.update rightwardSketch 0 noHands
                    (fst (fst (Vortex.update rightwardSketch 0 noHands
                                 nearParticle 0 0)))
                    (snd (fst (Vortex.update rightwardSketch 0 noHands
                                 nearParticle 0 0)))
                    (snd (Vortex.update rightwardSketch 0 noHands
                            nearParticle 0 0)))))
     = 1000.
Proof.
  assert (Hdraws : forall k, 0 <= draws rightwardSketch k < 1)
    by (intros k; simpl; lra).
  assert (Hw : 0 <= width rightwardSketch) by (simpl; lra).
  assert (Hh : 0 <= height rightwardSketch) by (simpl; lra).
  assert (Hs : 0 < Vortex.speed nearParticle) by (simpl; lra).
  assert (Hf : 0 <= 0) by lra.
  assert (Hz : Vortex.vz (Vortex.advance 0 nearParticle) = 1)
    by (simpl; lra).
  pose proof (vortex_depth_and_respawn rightwardSketch 0 0 noHands
                noHands nearParticle 0 0 Hdraws Hw Hh Hs Hf) as Hall.
  cbv zeta in Hall. destruct Hall as (_ & _ & Hre & _).
  assert (Hle : Vortex.vz (Vortex.advance 0 nearParticle) <= 1)
    by (rewrite Hz; lra).
  specialize (Hre Hle).
  split; [exact Hdraws |]. split; [exact Hs |]. split; [exact Hz |].
  destruct Hre as [[Hnow _] | (_ & Hnext & _)].
  - exfalso. apply (f_equal Vortex.vz) in Hnow.
    revert Hnow. unfold Vortex.update.
    destruct (Rlt_dec (Vortex.vz (Vortex.advance 0 nearParticle)) 1)
      as [Hlt | _]; [lra |].
    cbn. unfold P5.random. lra.
  - rewrite Hnext. cbn. unfold P5.random. lra.
Defined.

(** ** Neural grid: the connections *)

Section NeuralFacts.
Import P5 Neural.

Variable frameCount : nat.

Lemma In_connectFrom (i : nat) (n1 : NeuralNode) (j0 : nat)
    (others : list NeuralNode) (e : Edge) :
  In e (connectFrom frameCount i n1 j0 others)
  <-> exists k n2, nth_error others k = Some n2
                   /\ nodeDist n1 n2 < maxDist
                   /\ e = edgeOf frameCount i (j0 + k) n1 n2.
Proof.
  revert j0. induction others as [| n2 rest IH]; intros j0.
  - simpl. split; [tauto |]. intros (k & n & Hk & _). destruct k; discriminate.
  - cbn [connectFrom]. rewrite in_app_iff, IH. split.
    + intros [Hhere | (k & n & Hk & Hd & He)].
      * destruct (Rlt_dec (nodeDist n1 n2) maxDist) as [Hd | _];
          [| contradiction].
        destruct Hhere as [<- | []].
        exists 0%nat, n2. rewrite Nat.add_0_r. auto.
      * exists (S k), n. rewrite <- Nat.add_succ_comm. auto.
    + intros (k & n & Hk & Hd & He). destruct k as [| k].
      * left. injection Hk as <-.
        destruct (Rlt_dec (nodeDist n1 n2) maxDist) as [_ | Hn];
          [| contradiction].
        rewrite Nat.add_0_r in He. left. symmetry. exact He.
      * right. exists k, n. rewrite Nat.add_succ_comm. auto.
Qed.

Lemma In_connectAll (i0 : nat) (nodes : list NeuralNode) (e : Edge) :
  In e (connectAll frameCount i0 nodes)
  <-> exists a b n1 n2,
        (a < b)%nat
        /\ nth_error nodes a = Some n1 /\ nth_error nodes b = Some n2
        /\ nodeDist n1 n2 < maxDist
        /\ e = edgeOf frameCount (i0 + a) (i0 + b) n1 n2.
Proof.
  revert i0. induction nodes as [| n1 rest IH]; intros i0.
  - simpl. split; [tauto |].
    intros (a & b & m1 & m2 & _ & Ha & _). destruct a; discriminate.
  - cbn [connectAll]. rewrite in_app_iff, In_connectFrom, IH. split.
    + intros [(k & n2 & Hk & Hd & He) | (a & b & m1 & m2 & Hab & Ha & Hb & Hd & He)].
      * exists 0%nat, (S k), n1, n2. rewrite Nat.add_0_r.
        replace (i0 + S k)%nat with (S i0 + k)%nat by lia.
        repeat split; auto. lia.
      * exists (S a), (S b), m1, m2.
        replace (i0 + S a)%nat with (S i0 + a)%nat by lia.
        replace (i0 + S b)%nat with (S i0 + b)%nat by lia.
        repeat split; auto. lia.
    + intros (a & b & m1 & m2 & Hab & Ha & Hb & Hd & He).
      destruct a as [| a].
      * left. injection Ha as <-. destruct b as [| b]; [lia |].
        exists b, m2. rewrite Nat.add_0_r in He.
        replace (i0 + S b)%nat with (S i0 + b)%nat in He by lia. auto.
      * right. destruct b as [| b]; [lia |].
        exists a, b, m1, m2.
        replace (i0 + S a)%nat with (S i0 + a)%nat in He by lia.
        replace (i0 + S b)%nat with (S i0 + b)%nat in He by lia.
        repeat split; auto. lia.
Qed.


End NeuralFacts.



(** ** The tracker's stop *)

Section TrackerFacts.
Import HandTracker.

(** However far [start] got and whatever the collaborators do, [stop]
    leaves the tracker inactive. *)
Lemma stop_leaves_inactive (world : World) (t : Tracker) :
  isActive (fst (fst (stop world t))) = false.
Proof.
  unfold stop. cbn [camera hands videoElement].
  destruct (camera t) as [cam |]; [destruct (hasStop cam) |];
    try destruct (cameraStopThrows world);
    destruct (hands t); reflexivity.
Qed.

(** A [stop] that returns leaves no [hands] behind. *)
Lemma stop_clears_hands (world : World) (t : Tracker) :
  snd (stop world t) = Normal -> hands (fst (fst (stop world t))) = None.
Proof.
  unfold stop. cbn [camera hands videoElement].
  destruct (camera t) as [cam |]; [destruct (hasStop cam) |];
    try destruct (cameraStopThrows world);
    destruct (hands t); cbn; congruence.
Qed.

(** After a [stop] that returned, another [stop] changes no field of the
    tracker and does not close [hands] again; what it still does is repeat
    the requests to the camera. *)
Lemma track_stops_close_nothing (ts : list nat) :
  ~ In HandsClose (List.map TrackStop ts).
Proof.
  intros Hin. apply in_map_iff in Hin.
  destruct Hin as (track & Heq & _). discriminate.
Qed.

Lemma second_stop_keeps_state (w1 w2 : World) (t : Tracker) :
  snd (stop w1 t) = Normal ->
  let t1 := fst (fst (stop w1 t)) in
  isActive t1 = false
  /\ fst (fst (stop w2 t1)) = t1
  /\ ~ In HandsClose (snd (fst (stop w2 t1))).
Proof.
  intros Hret t1.
  pose proof (stop_clears_hands w1 t Hret) as Hh.
  pose proof (stop_leaves_inactive w1 t) as Ha.
  fold t1 in Hh, Ha. split; [exact Ha |].
  destruct t1 as [hs cam ve act].
  cbn [hands isActive] in Hh, Ha. subst hs act.
  unfold stop. cbn [camera hands videoElement].
  destruct cam as [cam |]; [| split; [reflexivity | intros []]].
  set (tracks := match (if ve then srcObject w2 else None) with
                 | Some ts => List.map TrackStop ts
                 | None => []
                 end).
  assert (Htracks : ~ In HandsClose tracks).
  { subst tracks. destruct (if ve then srcObject w2 else None);
      [apply track_stops_close_nothing | intros []]. }
  destruct (hasStop cam); [destruct (cameraStopThrows w2) |];
    cbn [fst snd]; (split; [reflexivity |]); try exact Htracks;
    rewrite in_app_iff; cbn [In];
    intros [Hin | [Hin | []]]; [tauto | discriminate | tauto | discriminate].
Qed.

Lemma second_stop_keeps_state_witness :
  isActive (fst (fst (stop calmWorld startedTracker))) = false
  /\ fst (fst (stop failingWorld (fst (fst (stop calmWorld startedTracker)))))
     = fst (fst (stop calmWorld startedTracker))
  /\ ~ In HandsClose
         (snd (fst (stop failingWorld
                      (fst (fst (stop calmWorld startedTracker)))))).
Proof.
  apply (second_stop_keeps_state calmWorld failingWorld startedTracker).
  reflexivity.
Defined.

End TrackerFacts.

Section SecondStop.
Import HandTracker.



End SecondStop.



(** ** The decay loops on binary64 numbers *)

Section Binary64Facts.
Import PrimFloat.

#[local] Set Warnings "-inexact-float".

(** On binary64 numbers too, a trigger created with life 1.0 survives its
    first 19 decrements and is dropped by the 20th. *)
Theorem binary64_trigger_lasts_20_ticks :
  forallb (fun k => negb (Binary64.dropped (Binary64.lifeAfter k 1%float)))
          (seq 1 19) = true
  /\ Binary64.dropped (Binary64.lifeAfter 20 1%float) = true.
Proof.
  split; vm_compute; reflexivity.
Qed.

(** On binary64 numbers too, the flash is above 0.01 for 43 ticks after a
    beat, at or below it from the 44th, and unchanged afterwards. *)
Theorem binary64_flash_crosses_at_44 :
  forallb (fun n => (0.01 <? Binary64.flashAfter n 1)%float) (seq 0 44) = true
  /\ (0.01 <? Binary64.flashAfter 44 1)%float = false
  /\ forallb (fun n => (Binary64.flashAfter n 1
                         =? Binary64.flashAfter 44 1)%float)
             (seq 44 57) = true.
Proof.
  split; [| split]; vm_compute; reflexivity.
Qed.

End Binary64Facts.

(** * Further properties of the code *)

(** ** Remainders *)

Section Remainders.

(** For a non-negative dividend, [a % b] lies in [[0, b)]. *)
Lemma jsMod_range (a b : R) : 0 <= a -> 0 < b -> 0 <= jsMod a b < b.
Proof.
  intros Ha Hb. unfold jsMod, truncZ.
  assert (Hq : 0 <= a / b) by (apply Rmult_le_pos; [exact Ha | left; now apply Rinv_0_lt_compat]).
  destruct (Rle_dec 0 (a / b)) as [_ | Hn]; [| contradiction].
  destruct (base_Int_part (a / b)) as [Hlo Hhi].
  assert (Hab : b * (a / b) = a) by (field; lra).
  split.
  - assert (b * IZR (Int_part (a / b)) <= b * (a / b))
      by (apply Rmult_le_compat_l; lra).
    lra.
  - assert (b * (a / b - 1) < b * IZR (Int_part (a / b)))
      by (apply Rmult_lt_compat_l; lra).
    lra.
Qed.

End Remainders.

(** ** Hand signal mapper: every result *)

Section MapperInvariants.
Import HandMapper.

Lemma getHandOpenness_range (landmarks : option (list Landmark)) :
  0 <= getHandOpenness landmarks <= 1.
Proof.
  destruct landmarks as [l |]; [| simpl; lra].
  unfold getHandOpenness.
  destruct (List.length l <? 21)%nat; [lra | apply opennessOf_range].
Qed.

Lemma handStep_keeps_range (ls : list string) (i : nat)
    (landmarks : option (list Landmark)) (st st' : Locals) :
  squeezesInRange st -> handStep ls i landmarks st = Returned st' ->
  squeezesInRange st'.
Proof.
  intros [Hl Hr] Hstep. unfold handStep in Hstep.
  destruct (nth_error ls i) as [label |]; [| discriminate].
  destruct landmarks as [l |]; [| discriminate].
  destruct (nth_error l 8) as [tip |]; [| discriminate].
  pose proof (getHandOpenness_range (Some l)) as Ho.
  remember (getHandOpenness (Some l)) as o eqn:Eo. clear Eo.
  destruct (String.eqb label "Right"); injection Hstep as <-;
    unfold squeezesInRange; cbn [l_leftSqueeze l_rightSqueeze];
    repeat split; lra.
Qed.

Lemma handLoop_keeps_range (ls : list string) (hs : list (option (list Landmark)))
    (i : nat) (st st' : Locals) :
  squeezesInRange st -> handLoop ls i hs st = Returned st' ->
  squeezesInRange st'.
Proof.
  revert i st. induction hs as [| h hs IH]; intros i st Hst Hloop.
  - injection Hloop as <-. exact Hst.
  - cbn [handLoop] in Hloop.
    destruct (handStep ls i h st) as [st1 |] eqn:Hstep; [| discriminate].
    apply (IH (S i) st1); [| exact Hloop].
    exact (handStep_keeps_range ls i h st st1 Hst Hstep).
Qed.

End MapperInvariants.

Section MapperResults.
Import HandMapper.

Lemma skipn_nth_error {A : Type} (l : list A) (i : nat) (a : A) :
  nth_error l i = Some a -> skipn i l = a :: skipn (S i) l.
Proof.
  revert i. induction l as [| b l IH]; intros i Hi.
  - destruct i; discriminate.
  - destruct i as [| i]; [injection Hi as ->; reflexivity |].
    cbn [skipn nth_error] in *. exact (IH i Hi).
Qed.

(** The loop invariant on the sides: a side is still empty exactly when it
    was empty before and no label seen since belongs to it. *)
Lemma handLoop_sides (ls : list string) (hs : list (option (list Landmark)))
    (i : nat) (st st' : Locals) :
  handLoop ls i hs st = Returned st' ->
  let labels := firstn (List.length hs) (skipn i ls) in
  List.length labels = List.length hs
  /\ (l_right st' = None
      <-> l_right st = None /\ Forall (fun l => l <> "Right"%string) labels)
  /\ (l_left st' = None
      <-> l_left st = None /\ Forall (fun l => l = "Right"%string) labels).
Proof.
  revert i st. induction hs as [| h hs IH]; intros i st Hloop.
  - injection Hloop as <-. cbn. repeat split; try tauto; intros; constructor.
  - cbn [handLoop] in Hloop.
    destruct (handStep ls i h st) as [st1 |] eqn:Hstep; [| discriminate].
    specialize (IH (S i) st1 Hloop). cbv zeta in IH.
    destruct IH as (Hlen & Hr & Hl).
    unfold handStep in Hstep.
    destruct (nth_error ls i) as [label |] eqn:Hlabel; [| discriminate].
    destruct h as [l |]; [| discriminate].
    destruct (nth_error l 8) as [tip |]; [| discriminate].
    cbv zeta. rewrite (skipn_nth_error ls i label Hlabel).
    cbn [List.length firstn].
    split; [now rewrite Hlen |].
    destruct (String.eqb_spec label "Right") as [Heq | Hne];
      injection Hstep as <-; cbn [l_left l_right] in Hr, Hl.
    + split.
      * rewrite Hr. split; [intros [Hno _]; discriminate |].
        intros [_ Hall]. apply Forall_inv in Hall. contradiction.
      * rewrite Hl. split.
        -- intros [Hno Hall]. split; [exact Hno | now constructor].
        -- intros [Hno Hall]. split; [exact Hno | now apply Forall_inv_tail in Hall].
    + split.
      * rewrite Hr. split.
        -- intros [Hno Hall]. split; [exact Hno | now constructor].
        -- intros [Hno Hall]. split; [exact Hno | now apply Forall_inv_tail in Hall].
      * rewrite Hl. split; [intros [Hno _]; discriminate |].
        intros [_ Hall]. apply Forall_inv in Hall. contradiction.
Qed.

Lemma onHandResults_inv (results : Results) (calls : list AudioCall)
    (st : HandState) :
  onHandResults results = Returned (calls, st) ->
  exists loc,
    match multiHandLandmarks results with
    | None => loc = mkLocals None None 0 0
    | Some hs => handLoop (multiHandedness results) 0 hs
                          (mkLocals None None 0 0) = Returned loc
    end
    /\ st = mkHandState (l_left loc) (l_right loc) false false
                        (l_leftSqueeze loc) (l_rightSqueeze loc)
    /\ calls
       = match l_right loc with
         | Some r => [updateRightHand (hy r) (hx r) true (l_rightSqueeze loc)]
         | None => []
         end
         ++ match l_left loc with
            | Some l => [updateLeftHand (hy l) (hx l) true (l_leftSqueeze loc)]
            | None => []
            end.
Proof.
  unfold onHandResults. intros Hrun.
  destruct (multiHandLandmarks results) as [hs |].
  - destruct (handLoop (multiHandedness results) 0 hs (mkLocals None None 0 0))
      as [loc |]; [| discriminate].
    injection Hrun as <- <-. exists loc. auto.
  - injection Hrun as <- <-. exists (mkLocals None None 0 0). auto.
Qed.

(** Whatever the tracker reports, when the callback returns both squeezes
    it stores are in [[0, 1]], it has told the audio engine about exactly
    the sides it stores, right hand first, each with [present = true] and
    that side's squeeze; and a report without hands stores the empty hand
    state and makes no call. *)
Theorem onHandResults_squeeze_and_calls
    (results : Results) (calls : list AudioCall) (st : HandState) :
  onHandResults results = Returned (calls, st) ->
  0 <= leftSqueeze st <= 1
  /\ 0 <= rightSqueeze st <= 1
  /\ calls
     = match right st with
       | Some r => [updateRightHand (hy r) (hx r) true (rightSqueeze st)]
       | None => []
       end
       ++ match left st with
          | Some l => [updateLeftHand (hy l) (hx l) true (leftSqueeze st)]
          | None => []
          end
  /\ (multiHandLandmarks results = None \/ multiHandLandmarks results = Some []
      -> st = noHands /\ calls = []).
Proof.
  intros Hrun.
  destruct (onHandResults_inv results calls st Hrun) as (loc & Hloc & -> & ->).
  cbn [leftSqueeze rightSqueeze left right].
  assert (Hrange : squeezesInRange loc).
  { destruct (multiHandLandmarks results) as [hs |].
    - apply (handLoop_keeps_range (multiHandedness results) hs 0
               (mkLocals None None 0 0)); [| exact Hloc].
      unfold squeezesInRange. cbn. lra.
    - subst loc. unfold squeezesInRange. cbn. lra. }
  destruct Hrange as [Hl Hr].
  repeat split; try apply Hl; try apply Hr.
  - destruct H as [Hnone | Hempty].
    + rewrite Hnone in Hloc. subst loc. reflexivity.
    + rewrite Hempty in Hloc. injection Hloc as <-. reflexivity.
  - destruct H as [Hnone | Hempty].
    + rewrite Hnone in Hloc. subst loc. reflexivity.
    + rewrite Hempty in Hloc. injection Hloc as <-. reflexivity.
Qed.

Lemma onHandResults_squeeze_and_calls_witness :
  exists calls st,
    onHandResults (mkResults (Some [Some openHand]) ["Left"%string])
    = Returned (calls, st)
    /\ 0 <= leftSqueeze st <= 1
    /\ 0 <= rightSqueeze st <= 1.
Proof.
  destruct (onHandResults_one_hand openHand "Left" (mkLandmark 0.3 0.4)
              eq_refl) as (calls & st & Hrun & _).
  exists calls, st.
  destruct (onHandResults_squeeze_and_calls _ calls st Hrun)
    as (Hl & Hr & _).
  split; [exact Hrun |]. split; [exact Hl | exact Hr].
Defined.

(** A side gets coordinates exactly when some reported hand carries its
    label: ["Right"] feeds the right side, any other label the left one;
    and every reported hand has a label. *)
Theorem hand_sides_follow_labels
    (hs : list (option (list Landmark))) (ls : list string)
    (calls : list AudioCall) (st : HandState) :
  onHandResults (mkResults (Some hs) ls) = Returned (calls, st) ->
  let labels := firstn (List.length hs) ls in
  List.length labels = List.length hs
  /\ (right st = None <-> Forall (fun l => l <> "Right"%string) labels)
  /\ (left st = None <-> Forall (fun l => l = "Right"%string) labels).
Proof.
  intros Hrun labels.
  destruct (onHandResults_inv _ calls st Hrun) as (loc & Hloop & -> & _).
  cbn [multiHandLandmarks multiHandedness] in Hloop.
  destruct (handLoop_sides ls hs 0 _ loc Hloop) as (Hlen & Hr & Hl).
  cbn [skipn l_left l_right] in Hlen, Hr, Hl. cbn [left right].
  subst labels. split; [exact Hlen |]. split.
  - rewrite Hr. tauto.
  - rewrite Hl. tauto.
Qed.

Lemma hand_sides_follow_labels_witness :
  exists calls st,
    onHandResults (mkResults (Some [Some openHand]) ["Left"%string])
    = Returned (calls, st)
    /\ right st = None.
Proof.
  destruct (onHandResults_one_hand openHand "Left" (mkLandmark 0.3 0.4)
              eq_refl) as (calls & st & Hrun & _).
  exists calls, st. split; [exact Hrun |].
  destruct (hand_sides_follow_labels _ _ calls st Hrun) as (_ & Hr & _).
  apply Hr. cbn. constructor; [discriminate | constructor].
Defined.

End MapperResults.

(** ** Hand velocity from one frame to the next *)

Section HandVelocity.
Import P5 Frame.

Lemma deliverAll_prev_hands (evs : list AudioEvent) (st : State) :
  prevLeftHand (deliverAll evs st) = prevLeftHand st
  /\ prevRightHand (deliverAll evs st) = prevRightHand st.
Proof.
  revert st. induction evs as [| e evs IH]; intros st; [auto |].
  unfold deliverAll in *. cbn [fold_left].
  destruct (IH (deliver st e)) as (-> & ->). destruct e; auto.
Qed.

Lemma handVel_between (w h : R) (before now : option HandCoordinates) :
  Orchestrator.handVel (Orchestrator.handVec w h now)
                       (Orchestrator.handVec w h before)
  = velocityBetween w h before now.
Proof.
  destruct before as [p |], now as [q |]; cbn; try reflexivity.
  unfold sub. cbn [x y]. f_equal; ring.
Qed.

(** The velocities a frame hands to the particle systems are the moves of
    the hands since the previous frame, scaled to pixels, whatever audio
    events came in between; a hand missing in either of the two frames
    (just appeared, or just lost) has velocity zero. *)
Theorem hand_velocity_between_frames
    (sk : Sketch) (first second : FrameInput) (st : State) :
  let st1 := snd (tick sk first st) in
  let st1' := deliverAll (events second) st1 in
  exists leftVel rightVel flash gHue,
    snd (tick sk second st1)
    = (let mode := renderMode sk (S (frameCount st1')) (currentHands second)
                              leftVel rightVel flash gHue st1' in
       mkState (snd (fst (fst mode)))
               (Orchestrator.handVec (width sk) (height sk)
                                     (left (currentHands second)))
               (Orchestrator.handVec (width sk) (height sk)
                                     (right (currentHands second)))
               gHue (snd (fst mode)) (S (frameCount st1')) (snd mode) flash
               (ageAll (noteTriggers st1')))
    /\ leftVel = velocityBetween (width sk) (height sk)
                                 (left (currentHands first))
                                 (left (currentHands second))
    /\ rightVel = velocityBetween (width sk) (height sk)
                                  (right (currentHands first))
                                  (right (currentHands second)).
Proof.
  intros st1 st1'.
  destruct (deliverAll_prev_hands (events second) st1) as [Hl Hr].
  fold st1' in Hl, Hr.
  exists (Orchestrator.handVel
            (Orchestrator.handVec (width sk) (height sk)
                                  (left (currentHands second)))
            (prevLeftHand st1')),
         (Orchestrator.handVel
            (Orchestrator.handVec (width sk) (height sk)
                                  (right (currentHands second)))
            (prevRightHand st1')),
         (snd (Orchestrator.trailStep (genreOf (particles st1'))
                 (width sk) (height sk) (beatFlash st1'))),
         (jsMod (INR (S (frameCount st1')) * 0.1) 360).
  split; [| split].
  - unfold tick. fold st1'. unfold draw. cbn [snd].
    rewrite renderTriggers_spec. reflexivity.
  - rewrite Hl. subst st1. unfold tick. cbn [draw snd prevLeftHand].
    apply handVel_between.
  - rewrite Hr. subst st1. unfold tick. cbn [draw snd prevRightHand].
    apply handVel_between.
Qed.

End HandVelocity.

(** ** Liquid particles: what a hand does to the acceleration *)

Section Interaction.
Import P5 Liquid.

Lemma mag_zero_vector (v : Vector) : mag v = 0 -> v = createVector 0 0.
Proof.
  intros Hm. unfold mag in Hm.
  assert (Hsq : magSq v = 0).
  { apply sqrt_eq_0; [apply magSq_nonneg | exact Hm]. }
  unfold magSq in Hsq. destruct v as [vx0 vy0]. cbn [x y] in Hsq.
  assert (vx0 = 0) by nra. assert (vy0 = 0) by nra. subst. reflexivity.
Qed.

Lemma add_zero_vector (v : Vector) : add v (createVector 0 0) = v.
Proof. destruct v as [vx0 vy0]. unfold add. cbn [x y]. f_equal; ring. Qed.

Lemma normalize_zero_vector : normalize (createVector 0 0) = createVector 0 0.
Proof.
  unfold normalize.
  destruct (Req_dec_T (mag (createVector 0 0)) 0) as [_ | Hne];
    [reflexivity |].
  exfalso. apply Hne. unfold mag, magSq. cbn [x y].
  replace (0 * 0 + 0 * 0) with 0 by ring. apply sqrt_0.
Qed.

(** [random2D().mult(1.5)] has length 1.5 whatever the generator draws. *)
Lemma turbulence_mag (u : R) : mag (turbulence u) = 1.5.
Proof.
  unfold turbulence, mag, magSq, mult, fromAngle. cbn [x y].
  pose proof (sin2_cos2 (u * TWO_PI)) as Hsc. unfold Rsqr in Hsc.
  replace (cos (u * TWO_PI) * 1.5 * (cos (u * TWO_PI) * 1.5)
           + sin (u * TWO_PI) * 1.5 * (sin (u * TWO_PI) * 1.5))
    with (1.5 * 1.5) by nra.
  apply sqrt_square. lra.
Qed.

(** A hand that is absent, or 400 pixels or more away, leaves the
    acceleration and the random generator untouched.  Within 400 pixels a
    hand moving at speed 5 or less only attracts: the acceleration gains
    the unit direction towards the hand times [1.5 (1 - d / 400)], a
    factor in [(0, 1.5]], and no random value is drawn.  Within 400 pixels
    a hand faster than 5 adds, after the same attraction, the drag along
    its velocity and a turbulence of length 1.5, and draws exactly one
    random value.  A particle sitting exactly on the hand is not attracted
    (a zero direction stays zero): a hand at speed 5 or less leaves its
    acceleration as it was, a faster hand adds the drag and the turbulence
    alone. *)
Theorem interact_attraction_only
    (sk : Sketch) (at_pos : Vector) (hc : HandCoordinates) (hVel a : Vector)
    (c : nat) :
  let dir := sub (createVector (hx hc * width sk) (hy hc * height sk))
                 at_pos in
  let d := mag dir in
  let pull := mult (normalize dir) (1.5 * (1 - d / 400)) in
  let drag := mult (normalize hVel) (0.2 * (1 - d / 300) * mag hVel) in
  interact sk at_pos None hVel a c = (a, c)
  /\ (400 <= d -> interact sk at_pos (Some hc) hVel a c = (a, c))
  /\ (d < 400 -> mag hVel <= 5 ->
      interact sk at_pos (Some hc) hVel a c = (add a pull, c)
      /\ 0 < 1.5 * (1 - d / 400) <= 1.5)
  /\ (d < 400 -> 5 < mag hVel ->
      interact sk at_pos (Some hc) hVel a c
      = (add (add (add a pull) drag) (turbulence (draws sk c)), S c)
      /\ mag (turbulence (draws sk c)) = 1.5)
  /\ (d = 0 ->
      pull = createVector 0 0
      /\ (mag hVel <= 5 -> interact sk at_pos (Some hc) hVel a c = (a, c))
      /\ (5 < mag hVel ->
          interact sk at_pos (Some hc) hVel a c
          = (add (add a drag) (turbulence (draws sk c)), S c))).
Proof.
  intros dir d pull drag.
  assert (Hd0 : 0 <= d) by (apply sqrt_pos).
  assert (Hatt : attraction dir d = pull).
  { unfold attraction, pull, map. f_equal. field. }
  assert (Hdrag : dragForce d hVel = drag).
  { unfold dragForce, drag, map. cbv zeta. f_equal. nra. }
  assert (Hslow : d < 400 -> mag hVel <= 5 ->
                  interact sk at_pos (Some hc) hVel a c = (add a pull, c)).
  { intros Hnear Hle. unfold interact. fold dir. fold d.
    destruct (Rlt_dec d 400); [| lra].
    destruct (Rlt_dec 5 (mag hVel)); [lra |].
    rewrite Hatt. reflexivity. }
  assert (Hfast : d < 400 -> 5 < mag hVel ->
                  interact sk at_pos (Some hc) hVel a c
                  = (add (add (add a pull) drag) (turbulence (draws sk c)),
                     S c)).
  { intros Hnear Hgt. unfold interact. fold dir. fold d.
    destruct (Rlt_dec d 400); [| lra].
    destruct (Rlt_dec 5 (mag hVel)); [| lra].
    rewrite Hatt, Hdrag. reflexivity. }
  split; [reflexivity |]. split; [| split; [| split]].
  - intros Hfar. unfold interact. fold dir. fold d.
    destruct (Rlt_dec d 400); [lra | reflexivity].
  - intros Hnear Hle. split; [apply Hslow; assumption | lra].
  - intros Hnear Hgt. split; [apply Hfast; assumption | apply turbulence_mag].
  - intros Hzero.
    assert (Hpull : pull = createVector 0 0).
    { assert (Hdir : dir = createVector 0 0)
        by (apply mag_zero_vector; exact Hzero).
      unfold pull. rewrite Hdir, normalize_zero_vector.
      unfold mult. cbn [x y]. f_equal; ring. }
    split; [exact Hpull |]. split.
    + intros Hle. rewrite Hslow by lra.
      rewrite Hpull, add_zero_vector. reflexivity.
    + intros Hgt. rewrite Hfast by lra.
      rewrite Hpull, add_zero_vector. reflexivity.
Qed.

End Interaction.

(** ** The population: constructors, setup, resize *)

Section PopulationFacts.
Import P5 Population.

Lemma build_length {A : Type} (construct : nat -> A * nat) (count c : nat) :
  List.length (fst (build construct count c)) = count.
Proof.
  revert c. induction count as [| k IH]; intros c; [reflexivity |].
  cbn [build]. destruct (construct c) as [a c1].
  specialize (IH c1). destruct (build construct k c1) as [rest c2].
  cbn [fst List.length] in *. now rewrite IH.
Qed.

Lemma build_Forall {A : Type} (construct : nat -> A * nat) (P : A -> Prop)
    (count c : nat) :
  (forall c0, P (fst (construct c0))) ->
  Forall P (fst (build construct count c)).
Proof.
  intros HP. revert c. induction count as [| k IH]; intros c;
    [constructor |].
  cbn [build]. pose proof (HP c) as Ha. destruct (construct c) as [a c1].
  specialize (IH c1). destruct (build construct k c1) as [rest c2].
  cbn [fst] in *. now constructor.
Qed.

Lemma build_cursor {A : Type} (construct : nat -> A * nat) (step count c : nat) :
  (forall c0, snd (construct c0) = (c0 + step)%nat) ->
  snd (build construct count c) = (c + step * count)%nat.
Proof.
  intros Hstep. revert c. induction count as [| k IH]; intros c.
  - cbn. lia.
  - cbn [build]. pose proof (Hstep c) as Hc. destruct (construct c) as [a c1].
    specialize (IH c1). destruct (build construct k c1) as [rest c2].
    cbn [snd] in *. lia.
Qed.

Lemma initParticles_shape (sk : Sketch) (genre : GameGenre) (c : nat) :
  Frame.genreOf (fst (initParticles sk genre c)) = genre
  /\ populationSize (fst (initParticles sk genre c)) = countOf genre
  /\ snd (initParticles sk genre c)
     = (c + drawsPerParticle genre * countOf genre)%nat.
Proof.
  unfold initParticles. destruct genre.
  - pose proof (build_length (Liquid.create sk) (countOf JAZZ) c) as Hlen.
    pose proof (build_cursor (Liquid.create sk) 3 (countOf JAZZ) c
                  (fun c0 => eq_refl)) as Hcur.
    destruct (build (Liquid.create sk) (countOf JAZZ) c) as [ps c'].
    cbn [fst snd Frame.genreOf populationSize drawsPerParticle] in *. auto.
  - pose proof (build_length (createNode sk) (countOf ELECTRONIC) c) as Hlen.
    pose proof (build_cursor (createNode sk) 6 (countOf ELECTRONIC) c
                  (fun c0 => eq_refl)) as Hcur.
    destruct (build (createNode sk) (countOf ELECTRONIC) c) as [ps c'].
    cbn [fst snd Frame.genreOf populationSize drawsPerParticle] in *. auto.
  - assert (Hstep : forall c0, snd (Vortex.create sk c0) = (c0 + 7)%nat).
    { intros c0. unfold Vortex.create. cbn. lia. }
    pose proof (build_length (Vortex.create sk) (countOf FUNK) c) as Hlen.
    pose proof (build_cursor (Vortex.create sk) 7 (countOf FUNK) c Hstep)
      as Hcur.
    destruct (build (Vortex.create sk) (countOf FUNK) c) as [ps c'].
    cbn [fst snd Frame.genreOf populationSize drawsPerParticle] in *. auto.
Qed.

(** [initParticles] builds the population of the genre it is given: 350
    liquid particles, 300 vortex particles or 80 neural nodes, and draws 3,
    7 or 6 random values for each of them. *)
Theorem initParticles_population (sk : Sketch) (genre : GameGenre) (c : nat) :
  Frame.genreOf (fst (initParticles sk genre c)) = genre
  /\ populationSize (fst (initParticles sk genre c)) = countOf genre
  /\ snd (initParticles sk genre c)
     = (c + drawsPerParticle genre * countOf genre)%nat.
Proof.
  destruct (initParticles_shape sk genre c) as (Hgenre & Hsize & Hcursor).
  split; [exact Hgenre |]. split; [exact Hsize | exact Hcursor].
Qed.

End PopulationFacts.

(** ** Every frame: population, genre, frame count *)

Section FrameInvariants.
Import P5 Frame.

Variable sk : Sketch.

Lemma drawEtherealLiquid_length (fc : nat) (hands : HandState)
    (lv rv : Vector) (ps : list Liquid.LiquidParticle) (c : nat) :
  List.length (snd (fst (Liquid.drawEtherealLiquid sk fc hands lv rv ps c)))
  = List.length ps.
Proof.
  revert c. induction ps as [| pt ps IH]; intros c; [reflexivity |].
  cbn [Liquid.drawEtherealLiquid].
  destruct (Liquid.update sk fc hands lv rv pt c) as [pt' c1].
  specialize (IH c1).
  destruct (Liquid.drawEtherealLiquid sk fc hands lv rv ps c1)
    as [[cmds rest] c2].
  cbn [fst snd List.length] in *. now rewrite IH.
Qed.

Lemma eachVortex_length (flash : R) (hands : HandState) (gHue : R)
    (ps : list Vortex.VortexParticle) (angle : R) (c : nat) :
  List.length (snd (fst (fst (Vortex.eachVortex sk flash hands gHue ps
                                                angle c))))
  = List.length ps.
Proof.
  revert angle c. induction ps as [| pt ps IH]; intros angle c;
    [reflexivity |].
  cbn [Vortex.eachVortex].
  destruct (Vortex.update sk flash hands pt angle c) as [[pt' a1] c1].
  specialize (IH a1 c1).
  destruct (Vortex.eachVortex sk flash hands gHue ps a1 c1)
    as [[[cmds rest] a2] c2].
  cbn [fst snd List.length] in *. now rewrite IH.
Qed.

Lemma eachNode_length (fc : nat) (hands : HandState)
    (ns : list Neural.NeuralNode) (c : nat) :
  List.length (snd (fst (Neural.eachNode sk fc hands ns c)))
  = List.length ns.
Proof.
  revert c. induction ns as [| n ns IH]; intros c; [reflexivity |].
  cbn [Neural.eachNode].
  destruct (Neural.update sk hands n c) as [n' c1].
  specialize (IH c1).
  destruct (Neural.eachNode sk fc hands ns c1) as [[cmds rest] c2].
  cbn [fst snd List.length] in *. now rewrite IH.
Qed.

Lemma draw_population (hands : HandState) (st : State) :
  populationSize (particles (snd (draw sk hands st)))
  = populationSize (particles st).
Proof.
  cbn [draw snd particles]. unfold renderMode.
  destruct (particles st) as [ps | ps | ns].
  - pose proof (drawEtherealLiquid_length (S (frameCount st)) hands
                  (Orchestrator.handVel
                     (Orchestrator.handVec (width sk) (height sk) (left hands))
                     (prevLeftHand st))
                  (Orchestrator.handVel
                     (Orchestrator.handVec (width sk) (height sk) (right hands))
                     (prevRightHand st))
                  ps (cursor st)) as Hlen.
    destruct (Liquid.drawEtherealLiquid _ _ _ _ _ _ _) as [[? ?] ?].
    exact Hlen.
  - unfold Vortex.drawVortex.
    pose proof (eachVortex_length
                  (snd (Orchestrator.trailStep (genreOf (VortexSystem ps))
                          (width sk) (height sk) (beatFlash st)))
                  hands (jsMod (INR (S (frameCount st)) * 0.1) 360)
                  ps (vortexAngle st) (cursor st)) as Hlen.
    destruct (Vortex.eachVortex _ _ _ _ _ _ _) as [[[? ?] ?] ?].
    exact Hlen.
  - unfold Neural.drawNeuralGrid.
    pose proof (eachNode_length (S (frameCount st)) hands ns (cursor st))
      as Hlen.
    destruct (Neural.eachNode _ _ _ _ _) as [[? ?] ?].
    exact Hlen.
Qed.

(** Whatever the hands do and whatever audio events arrive, a run of [n]
    ticks keeps the genre and the number of particles, and advances the
    frame counter by exactly [n]. *)
Theorem population_is_fixed
    (inputAt : nat -> FrameInput) (n : nat) (st : State) :
  genreOf (particles (run sk inputAt n st)) = genreOf (particles st)
  /\ populationSize (particles (run sk inputAt n st))
     = populationSize (particles st)
  /\ frameCount (run sk inputAt n st) = (frameCount st + n)%nat.
Proof.
  split; [apply run_genre |].
  revert st. induction n as [| n IH]; intros st.
  - cbn. split; [reflexivity | lia].
  - cbn [run]. destruct (IH (snd (tick sk (inputAt (frameCount st)) st)))
      as [Hpop Hfc].
    rewrite Hpop, Hfc. unfold tick.
    rewrite draw_population, draw_frameCount.
    destruct (deliverAll_untouched (events (inputAt (frameCount st))) st)
      as (-> & -> & _).
    split; [reflexivity | lia].
Qed.

End FrameInvariants.

(** ** Every frame: what the overlay and the particles never leave *)

Section RunInvariants.
Import P5 Frame.

Variable sk : Sketch.
Variable inputAt : nat -> FrameInput.

(** A property kept by each callback and by [p.draw] is kept by a run. *)
Lemma run_invariant (P : State -> Prop) :
  (forall e st, P st -> P (deliver st e)) ->
  (forall hands st, P st -> P (snd (draw sk hands st))) ->
  forall n st, P st -> P (run sk inputAt n st).
Proof.
  intros Hdel Hdraw. induction n as [| n IH]; intros st Hst; [exact Hst |].
  cbn [run]. apply IH. unfold tick. apply Hdraw.
  unfold deliverAll. generalize (events (inputAt (frameCount st))).
  intros evs. revert st Hst. induction evs as [| e evs IHe]; intros st Hst;
    [exact Hst |].
  cbn [fold_left]. apply IHe. apply Hdel. exact Hst.
Qed.

Lemma trailStep_unit (genre : GameGenre) (w h f : R) :
  0 <= f <= 1 ->
  0 <= snd (Orchestrator.trailStep genre w h f) <= f.
Proof.
  intros Hf. unfold Orchestrator.trailStep.
  destruct (Rlt_dec 0.01 f); cbn [snd]; lra.
Qed.

(** The beat flash stays in [[0, 1]] through any run, beats included, and
    a tick in which no beat arrives never raises it. *)
Theorem beat_flash_stays_in_unit_interval (n : nat) (st : State) :
  0 <= beatFlash st <= 1 ->
  0 <= beatFlash (run sk inputAt n st) <= 1
  /\ (forall input,
        ~ In Beat (events input) ->
        beatFlash (snd (tick sk input (run sk inputAt n st)))
        <= beatFlash (run sk inputAt n st)).
Proof.
  intros Hst.
  assert (Hinv : 0 <= beatFlash (run sk inputAt n st) <= 1).
  { apply (run_invariant (fun s => 0 <= beatFlash s <= 1)); [| | exact Hst].
    - intros e s Hs. destruct e; cbn; [unfold Orchestrator.onBeat; lra | exact Hs].
    - intros hands s Hs. rewrite draw_beatFlash.
      pose proof (trailStep_unit (genreOf (particles s)) (width sk)
                    (height sk) (beatFlash s) Hs). lra. }
  split; [exact Hinv |].
  intros input Hquiet. unfold tick. rewrite draw_beatFlash.
  rewrite deliverAll_without_beat by exact Hquiet.
  apply trailStep_unit. exact Hinv.
Qed.

Lemma ageAll_live (ts : list Orchestrator.NoteTrigger) :
  Forall (fun t => Orchestrator.life t <= 1) ts ->
  Forall liveTrigger (ageAll ts).
Proof.
  induction 1 as [| t ts Ht _ IH]; [constructor |].
  cbn [ageAll]. destruct (Rle_dec (Orchestrator.life (aged t)) 0) as [Hd | Ha].
  - exact IH.
  - cbn [app]. constructor; [| exact IH].
    unfold liveTrigger, aged in *. cbn [Orchestrator.life] in *. lra.
Qed.

Lemma live_le_1 (ts : list Orchestrator.NoteTrigger) :
  Forall liveTrigger ts -> Forall (fun t => Orchestrator.life t <= 1) ts.
Proof.
  apply Forall_impl. intros t [_ H]. exact H.
Qed.

Lemma ringRadii_live (w h : R) (ts : list Orchestrator.NoteTrigger) :
  Forall liveTrigger ts ->
  Forall (fun r => 0 <= r < 100)
         (Orchestrator.ringRadii (flat_map (Orchestrator.drawTrigger w h) ts)).
Proof.
  induction 1 as [| t ts Ht _ IH]; [constructor |].
  cbn [flat_map Orchestrator.drawTrigger app Orchestrator.ringRadii].
  constructor; [| exact IH]. unfold liveTrigger in Ht. lra.
Qed.

(** Every trigger the overlay holds has a life in [(0, 1]], through any
    run and any audio events; so every ring a frame draws for the triggers
    has a radius in [[0, 100)]. *)
Theorem note_triggers_stay_live (n : nat) (st : State) :
  Forall liveTrigger (noteTriggers st) ->
  Forall liveTrigger (noteTriggers (run sk inputAt n st))
  /\ Forall (fun r => 0 <= r < 100)
            (Orchestrator.ringRadii
               (fst (Orchestrator.renderTriggers (width sk) (height sk)
                       (noteTriggers (run sk inputAt n st))))).
Proof.
  intros Hst.
  assert (Hinv : Forall liveTrigger (noteTriggers (run sk inputAt n st))).
  { apply (run_invariant (fun s => Forall liveTrigger (noteTriggers s)));
      [| | exact Hst].
    - intros e s Hs. destruct e; [exact Hs |].
      cbn. unfold Orchestrator.onNoteTriggered.
      apply Forall_app. split; [exact Hs |].
      constructor; [| constructor]. unfold liveTrigger. cbn. lra.
    - intros hands s Hs. rewrite draw_noteTriggers.
      apply ageAll_live, live_le_1, Hs. }
  split; [exact Hinv |].
  rewrite renderTriggers_spec. cbn [fst].
  apply ringRadii_live. apply Forall_rev. exact Hinv.
Qed.

End RunInvariants.

Lemma beat_flash_stays_in_unit_interval_witness :
  0 <= Frame.beatFlash
         (Frame.run rightwardSketch idleInput 7
                    (Frame.onBeat (freshState (Frame.LiquidSystem [])))) <= 1.
Proof.
  assert (Hst : 0 <= Frame.beatFlash
                       (Frame.onBeat (freshState (Frame.LiquidSystem [])))
                <= 1).
  { cbn. unfold Orchestrator.onBeat. lra. }
  exact (proj1 (beat_flash_stays_in_unit_interval rightwardSketch idleInput
                  7 _ Hst)).
Defined.

Lemma note_triggers_stay_live_witness :
  Forall liveTrigger
         (Frame.noteTriggers
            (Frame.run rightwardSketch idleInput 5
               (Frame.onNoteTriggered 0.5 0.5
                  (freshState (Frame.LiquidSystem []))))).
Proof.
  assert (Hst : Forall liveTrigger
                  (Frame.noteTriggers
                     (Frame.onNoteTriggered 0.5 0.5
                        (freshState (Frame.LiquidSystem []))))).
  { cbn. constructor; [| constructor]. unfold liveTrigger. cbn. lra. }
  exact (proj1 (note_triggers_stay_live rightwardSketch idleInput 5 _ Hst)).
Defined.

(** ** Triggers expire *)

Section TriggerExpiry.
Import P5 Frame.

Lemma ageAll_bound (L : R) (ts : list Orchestrator.NoteTrigger) :
  Forall (fun t => Orchestrator.life t <= L) ts ->
  Forall (fun t => 0 < Orchestrator.life t <= L - 0.05) (ageAll ts).
Proof.
  induction 1 as [| t ts Ht _ IH]; [constructor |].
  cbn [ageAll]. destruct (Rle_dec (Orchestrator.life (aged t)) 0) as [Hd | Ha].
  - exact IH.
  - cbn [app]. constructor; [| exact IH].
    unfold aged in *. cbn [Orchestrator.life] in *. lra.
Qed.

Lemma triggersAfter_bound (w h : R) (k : nat)
    (ts : list Orchestrator.NoteTrigger) :
  Forall (fun t => Orchestrator.life t <= 1) ts ->
  Forall (fun t => 0 < Orchestrator.life t <= 1 - 0.05 * INR (S k))
         (Orchestrator.triggersAfter w h (S k) ts).
Proof.
  intros Hts. induction k as [| k IH].
  - rewrite triggersAfter_S. cbn [Orchestrator.triggersAfter].
    replace (1 - 0.05 * INR 1) with (1 - 0.05) by (simpl; lra).
    apply ageAll_bound. exact Hts.
  - rewrite triggersAfter_S.
    replace (1 - 0.05 * INR (S (S k))) with (1 - 0.05 * INR (S k) - 0.05)
      by (rewrite (S_INR (S k)); lra).
    apply ageAll_bound. revert IH. apply Forall_impl. intros t Ht. lra.
Qed.

Lemma triggersAfter_20 (w h : R) (ts : list Orchestrator.NoteTrigger) :
  Forall (fun t => Orchestrator.life t <= 1) ts ->
  Orchestrator.triggersAfter w h 20 ts = [].
Proof.
  intros Hts. pose proof (triggersAfter_bound w h 19 ts Hts) as Hb.
  replace (INR 20) with 20 in Hb by (simpl; lra).
  destruct (Orchestrator.triggersAfter w h 20 ts) as [| t rest];
    [reflexivity |].
  apply Forall_inv in Hb. lra.
Qed.

Lemma triggersAfter_add (w h : R) (a b : nat)
    (ts : list Orchestrator.NoteTrigger) :
  Orchestrator.triggersAfter w h (a + b) ts
  = Orchestrator.triggersAfter w h b (Orchestrator.triggersAfter w h a ts).
Proof.
  revert ts. induction a as [| a IH]; intros ts; [reflexivity |].
  cbn [Nat.add Orchestrator.triggersAfter]. apply IH.
Qed.

Lemma run_without_notes (sk : Sketch) (inputAt : nat -> FrameInput)
    (n : nat) (st : State) :
  (forall k, notesOf (events (inputAt k)) = []) ->
  noteTriggers (run sk inputAt n st)
  = Orchestrator.triggersAfter (width sk) (height sk) n (noteTriggers st).
Proof.
  intros Hquiet. revert st. induction n as [| n IH]; intros st;
    [reflexivity |].
  cbn [run Orchestrator.triggersAfter]. rewrite IH. unfold tick.
  rewrite draw_noteTriggers, deliverAll_noteTriggers, Hquiet, app_nil_r.
  rewrite renderTriggers_spec. reflexivity.
Qed.

End TriggerExpiry.

(** Twenty ticks without a note event empty the trigger list, however many
    triggers it held, and it stays empty until the next note. *)
Theorem triggers_expire_within_20_ticks
    (sk : Sketch) (inputAt : nat -> Frame.FrameInput) (m : nat)
    (st : Frame.State) :
  (forall k, notesOf (Frame.events (inputAt k)) = []) ->
  Forall liveTrigger (Frame.noteTriggers st) ->
  Frame.noteTriggers (Frame.run sk inputAt (20 + m) st) = [].
Proof.
  intros Hquiet Hlive.
  rewrite run_without_notes by exact Hquiet.
  rewrite triggersAfter_add, triggersAfter_20 by (apply live_le_1, Hlive).
  apply triggersAfter_nil.
Qed.

Lemma triggers_expire_within_20_ticks_witness :
  Frame.noteTriggers
    (Frame.run rightwardSketch idleInput 20
       (Frame.onNoteTriggered 0.2 0.8
          (Frame.onNoteTriggered 0.5 0.5
             (freshState (Frame.LiquidSystem [])))))
  = [].
Proof.
  apply (triggers_expire_within_20_ticks rightwardSketch idleInput 0).
  - intros k. reflexivity.
  - cbn. repeat constructor; cbn; lra.
Defined.

(** ** Liquid and vortex sessions, from setup on *)

Section Sessions.
Import P5 Frame.

Variable sk : Sketch.
Hypothesis draws_unit : forall k, 0 <= draws sk k < 1.
Hypothesis width_nonneg : 0 <= width sk.
Hypothesis height_nonneg : 0 <= height sk.

Lemma liquid_update_invariant (fc : nat) (hands : HandState) (lv rv : Vector)
    (pt : Liquid.LiquidParticle) (c : nat) :
  0 <= Liquid.maxSpeed pt ->
  inClosedBox sk (fst (Liquid.update sk fc hands lv rv pt c))
  /\ speedBounded (fst (Liquid.update sk fc hands lv rv pt c)).
Proof.
  intros Hm. unfold Liquid.update.
  destruct (Liquid.forces sk fc hands lv rv pt c) as [a c']. cbn [fst].
  split; [apply wrap_in_closed_box; assumption |].
  destruct (wrap_keeps_motion sk (Liquid.integrate pt a)) as (Hv & _ & Hmax).
  destruct (integrate_speedBounded pt a Hm) as [H1 H2].
  unfold speedBounded. rewrite Hv, Hmax. split; assumption.
Qed.

Lemma drawEtherealLiquid_invariant (fc : nat) (hands : HandState)
    (lv rv : Vector) (ps : list Liquid.LiquidParticle) (c : nat) :
  Forall speedBounded ps ->
  Forall (inClosedBox sk)
         (snd (fst (Liquid.drawEtherealLiquid sk fc hands lv rv ps c)))
  /\ Forall speedBounded
            (snd (fst (Liquid.drawEtherealLiquid sk fc hands lv rv ps c))).
Proof.
  intros Hall. revert c. induction Hall as [| pt ps [Hm _] _ IH]; intros c.
  - cbn. split; constructor.
  - cbn [Liquid.drawEtherealLiquid].
    pose proof (liquid_update_invariant fc hands lv rv pt c Hm) as [Hb Hs].
    destruct (Liquid.update sk fc hands lv rv pt c) as [pt' c1].
    specialize (IH c1).
    destruct (Liquid.drawEtherealLiquid sk fc hands lv rv ps c1)
      as [[cmds rest] c2].
    cbn [fst snd] in *. destruct IH as [IHb IHs].
    split; constructor; assumption.
Qed.

Lemma draw_keeps_liquids (hands : HandState) (st : State) :
  liquidsSettled sk st -> liquidsSettled sk (snd (draw sk hands st)).
Proof.
  intros [Hb Hs]. unfold liquidsSettled. cbn [draw snd particles].
  unfold renderMode. destruct (particles st) as [ps | ps | ns].
  - cbn [liquidsOf] in Hs.
    pose proof (drawEtherealLiquid_invariant (S (frameCount st)) hands
                  (Orchestrator.handVel
                     (Orchestrator.handVec (width sk) (height sk) (left hands))
                     (prevLeftHand st))
                  (Orchestrator.handVel
                     (Orchestrator.handVec (width sk) (height sk) (right hands))
                     (prevRightHand st))
                  ps (cursor st) Hs) as Hinv.
    destruct (Liquid.drawEtherealLiquid _ _ _ _ _ _ _) as [[? ?] ?].
    exact Hinv.
  - destruct (Vortex.drawVortex _ _ _ _ _ _ _) as [[[? ?] ?] ?].
    cbn. split; constructor.
  - destruct (Neural.drawNeuralGrid _ _ _ _ _) as [[? ?] ?].
    cbn. split; constructor.
Qed.

Lemma create_liquid_settled (c : nat) :
  inClosedBox sk (fst (Liquid.create sk c))
  /\ speedBounded (fst (Liquid.create sk c)).
Proof.
  unfold Liquid.create, inClosedBox, speedBounded, random, magSq.
  cbn [fst Liquid.pos Liquid.vel Liquid.maxSpeed x y].
  pose proof (draws_unit c) as H0. pose proof (draws_unit (c + 1)) as H1.
  pose proof (draws_unit (c + 2)) as H2.
  repeat split; nra.
Qed.

End Sessions.

Section VortexSessions.
Import P5 Frame.

Variable sk : Sketch.
Hypothesis draws_unit : forall k, 0 <= draws sk k < 1.

Lemma respawn_inTunnel (c : nat) : inTunnel (fst (Vortex.respawn sk c)).
Proof.
  unfold inTunnel, Vortex.respawn, random.
  cbn [fst Vortex.vz Vortex.speed].
  pose proof (draws_unit (c + 2)). pose proof (draws_unit (c + 5)).
  repeat split; nra.
Qed.

Lemma create_inTunnel (c : nat) : inTunnel (fst (Vortex.create sk c)).
Proof.
  unfold inTunnel, Vortex.create, Vortex.respawn, random.
  cbn [fst snd Vortex.vx Vortex.vy Vortex.vz Vortex.oX Vortex.oY
       Vortex.speed].
  pose proof (draws_unit (c + 6)). pose proof (draws_unit (c + 5)).
  repeat split; nra.
Qed.

Lemma update_inTunnel (flash : R) (hands : HandState)
    (pt : Vortex.VortexParticle) (angle : R) (c : nat) :
  0 <= flash -> inTunnel pt ->
  inTunnel (fst (fst (Vortex.update sk flash hands pt angle c))).
Proof.
  intros Hf [Hz Hs]. unfold Vortex.update.
  destruct (Rlt_dec (Vortex.vz (Vortex.advance flash pt)) 1) as [Hlow | Hok].
  - apply respawn_inTunnel.
  - cbn [fst]. unfold inTunnel, Vortex.advance in *.
    cbn [Vortex.vz Vortex.speed] in *. repeat split; nra.
Qed.

Lemma eachVortex_inTunnel (flash : R) (hands : HandState) (gHue : R)
    (ps : list Vortex.VortexParticle) (angle : R) (c : nat) :
  0 <= flash -> Forall inTunnel ps ->
  Forall inTunnel
         (snd (fst (fst (Vortex.eachVortex sk flash hands gHue ps angle c)))).
Proof.
  intros Hf Hall. revert angle c.
  induction Hall as [| pt ps Hpt _ IH]; intros angle c; [constructor |].
  cbn [Vortex.eachVortex].
  pose proof (update_inTunnel flash hands pt angle c Hf Hpt) as Hup.
  destruct (Vortex.update sk flash hands pt angle c) as [[pt' a1] c1].
  specialize (IH a1 c1).
  destruct (Vortex.eachVortex sk flash hands gHue ps a1 c1)
    as [[[cmds rest] a2] c2].
  cbn [fst snd] in *. constructor; assumption.
Qed.

Lemma draw_keeps_vortex (hands : HandState) (st : State) :
  vortexSettled st -> vortexSettled (snd (draw sk hands st)).
Proof.
  intros [Hf Hall]. unfold vortexSettled.
  pose proof (trailStep_unit (genreOf (particles st)) (width sk) (height sk)
                (beatFlash st) Hf) as Hf'.
  split; [rewrite draw_beatFlash; lra |].
  cbn [draw snd particles]. unfold renderMode.
  destruct (particles st) as [ps | ps | ns].
  - destruct (Liquid.drawEtherealLiquid _ _ _ _ _ _ _) as [[? ?] ?].
    constructor.
  - cbn [vortexesOf] in Hall. unfold Vortex.drawVortex.
    pose proof (eachVortex_inTunnel
                  (snd (Orchestrator.trailStep (genreOf (VortexSystem ps))
                          (width sk) (height sk) (beatFlash st)))
                  hands (jsMod (INR (S (frameCount st)) * 0.1) 360)
                  ps (vortexAngle st) (cursor st)) as Hinv.
    destruct (Vortex.eachVortex _ _ _ _ _ _ _) as [[[? ?] ?] ?].
    apply Hinv; [apply Hf' | exact Hall].
  - destruct (Neural.drawNeuralGrid _ _ _ _ _) as [[? ?] ?].
    constructor.
Qed.

End VortexSessions.

(** With hands or without, through any audio events, liquid particles
    that are on the surface and within their speed bound stay so: after
    every tick each one lies in [[0, width] x [0, height]] and moves no
    faster than 0.94 times its maximal speed. *)
Theorem liquids_stay_on_surface
    (sk : Sketch) (inputAt : nat -> Frame.FrameInput) (n : nat)
    (st : Frame.State) :
  0 <= width sk -> 0 <= height sk ->
  liquidsSettled sk st ->
  liquidsSettled sk (Frame.run sk inputAt n st).
Proof.
  intros Hw Hh Hst.
  apply (run_invariant sk inputAt (liquidsSettled sk)); [| | exact Hst].
  - intros e s Hs. destruct e; exact Hs.
  - intros hands s Hs. apply draw_keeps_liquids; assumption.
Qed.

(** With hands or without, through any beats, vortex particles stay in the
    tunnel: after every tick each depth is in [[1, 2000)] and each speed in
    [[10, 30)], so the perspective division of [show] never divides by
    zero and the dot it draws has a diameter in [(0, 20)] and an alpha in
    [(0, 100)]. *)
Theorem vortex_stays_in_tunnel
    (sk : Sketch) (inputAt : nat -> Frame.FrameInput) (n : nat)
    (st : Frame.State) :
  (forall k, 0 <= draws sk k < 1) ->
  vortexSettled st ->
  vortexSettled (Frame.run sk inputAt n st)
  /\ Forall (fun pt =>
               Vortex.vz pt <> 0
               /\ forall gHue angle,
                    exists h cx cy d alpha,
                      Vortex.show sk gHue angle pt
                      = [P5.FillHSBA h 90 100 alpha; P5.NoStroke;
                         P5.Ellipse cx cy d]
                      /\ 0 < d < 20 /\ 0 < alpha < 100)
            (vortexesOf (Frame.particles (Frame.run sk inputAt n st))).
Proof.
  intros Hdraws Hst.
  assert (Hinv : vortexSettled (Frame.run sk inputAt n st)).
  { apply (run_invariant sk inputAt vortexSettled); [| | exact Hst].
    - intros e s [Hf Hall]. destruct e; split; cbn; try assumption.
      unfold Orchestrator.onBeat. lra.
    - intros hands s Hs. apply draw_keeps_vortex; assumption. }
  split; [exact Hinv |].
  destruct Hinv as [_ Hall]. revert Hall. apply Forall_impl.
  intros pt [Hz _]. split; [lra |].
  intros gHue angle. unfold Vortex.show. do 5 eexists.
  split; [reflexivity |]. unfold P5.map. lra.
Qed.

Section SetupAndResize.
Import P5 Frame Population.

Variable sk : Sketch.
Hypothesis draws_unit : forall k, 0 <= draws sk k < 1.
Hypothesis width_nonneg : 0 <= width sk.
Hypothesis height_nonneg : 0 <= height sk.

Lemma initParticles_settled (genre : GameGenre) (c : nat) :
  Forall (inClosedBox sk) (liquidsOf (fst (initParticles sk genre c)))
  /\ Forall speedBounded (liquidsOf (fst (initParticles sk genre c)))
  /\ Forall inTunnel (vortexesOf (fst (initParticles sk genre c))).
Proof.
  unfold initParticles. destruct genre.
  - pose proof (build_Forall (Liquid.create sk) (inClosedBox sk)
                  (countOf JAZZ) c
                  (fun c0 => proj1 (create_liquid_settled sk draws_unit
                                      width_nonneg height_nonneg c0))) as Hb.
    pose proof (build_Forall (Liquid.create sk) speedBounded
                  (countOf JAZZ) c
                  (fun c0 => proj2 (create_liquid_settled sk draws_unit
                                      width_nonneg height_nonneg c0))) as Hs.
    destruct (build (Liquid.create sk) (countOf JAZZ) c) as [ps c'].
    cbn [fst liquidsOf vortexesOf] in *. repeat split; auto.
  - destruct (build (createNode sk) (countOf ELECTRONIC) c) as [ns c'].
    cbn [fst liquidsOf vortexesOf]. repeat split; constructor.
  - pose proof (build_Forall (Vortex.create sk) inTunnel (countOf FUNK) c
                  (create_inTunnel sk draws_unit)) as Ht.
    destruct (build (Vortex.create sk) (countOf FUNK) c) as [ps c'].
    cbn [fst liquidsOf vortexesOf] in *. repeat split; auto.
Qed.

End SetupAndResize.

(** [p.setup] starts every session with the genre's full population, each
    liquid particle on the surface and within its speed bound, each vortex
    particle in the tunnel, no flash, no trigger and no frame drawn. *)
Theorem setup_starts_settled (sk : Sketch) (genre : GameGenre) :
  (forall k, 0 <= draws sk k < 1) -> 0 <= width sk -> 0 <= height sk ->
  let st := Population.setup sk genre in
  Frame.genreOf (Frame.particles st) = genre
  /\ populationSize (Frame.particles st) = Population.countOf genre
  /\ liquidsSettled sk st
  /\ vortexSettled st
  /\ Frame.frameCount st = 0%nat
  /\ Frame.noteTriggers st = [].
Proof.
  intros Hd Hw Hh st. subst st. unfold Population.setup.
  cbn [Frame.particles Frame.frameCount Frame.noteTriggers].
  destruct (initParticles_shape sk genre 0) as (Hg & Hn & _).
  destruct (initParticles_settled sk Hd Hw Hh genre 0) as (Hb & Hs & Ht).
  unfold liquidsSettled, vortexSettled.
  cbn [Frame.particles Frame.beatFlash].
  repeat split; auto; lra.
Qed.

Lemma setup_starts_settled_witness :
  populationSize (Frame.particles (Population.setup rightwardSketch JAZZ))
  = 350%nat
  /\ liquidsSettled rightwardSketch (Population.setup rightwardSketch JAZZ).
Proof.
  assert (Hd : forall k, 0 <= draws rightwardSketch k < 1)
    by (intros k; simpl; lra).
  assert (Hw : 0 <= width rightwardSketch) by (simpl; lra).
  assert (Hh : 0 <= height rightwardSketch) by (simpl; lra).
  destruct (setup_starts_settled rightwardSketch JAZZ Hd Hw Hh)
    as (_ & Hn & Hl & _).
  split; [exact Hn | exact Hl].
Defined.

(** A resize first redraws: [p.resizeCanvas] runs one [p.draw] on the new
    surface, so the frame counter advances by one, the flash takes one
    trail step and every trigger ages once (none of them is reset).  Then
    the whole population is rebuilt for the same genre on the new surface:
    the genre's full count, every liquid particle inside the new surface,
    every vortex particle in the tunnel. *)
Theorem resize_rebuilds_population
    (sk : Sketch) (hands : HandState) (st : Frame.State) :
  (forall k, 0 <= draws sk k < 1) -> 0 <= width sk -> 0 <= height sk ->
  let st' := snd (Population.windowResized sk hands st) in
  fst (Population.windowResized sk hands st) = fst (Frame.draw sk hands st)
  /\ Frame.genreOf (Frame.particles st') = Frame.genreOf (Frame.particles st)
  /\ populationSize (Frame.particles st')
     = Population.countOf (Frame.genreOf (Frame.particles st))
  /\ liquidsSettled sk st'
  /\ Forall inTunnel (vortexesOf (Frame.particles st'))
  /\ Frame.frameCount st' = S (Frame.frameCount st)
  /\ Frame.beatFlash st'
     = snd (Orchestrator.trailStep (Frame.genreOf (Frame.particles st))
                                   (width sk) (height sk)
                                   (Frame.beatFlash st))
  /\ Frame.noteTriggers st' = ageAll (Frame.noteTriggers st)
  /\ Frame.prevLeftHand st'
     = Orchestrator.handVec (width sk) (height sk) (left hands)
  /\ Frame.prevRightHand st'
     = Orchestrator.handVec (width sk) (height sk) (right hands).
Proof.
  intros Hd Hw Hh st'. subst st'. unfold Population.windowResized.
  cbn [fst snd Frame.particles Frame.beatFlash Frame.noteTriggers
       Frame.frameCount Frame.prevLeftHand Frame.prevRightHand].
  set (st1 := snd (Frame.draw sk hands st)).
  assert (Hgen : Frame.genreOf (Frame.particles st1)
                 = Frame.genreOf (Frame.particles st))
    by apply draw_genre.
  destruct (initParticles_shape sk (Frame.genreOf (Frame.particles st1))
              (Frame.cursor st1)) as (Hg & Hn & _).
  destruct (initParticles_settled sk Hd Hw Hh
              (Frame.genreOf (Frame.particles st1)) (Frame.cursor st1))
    as (Hb & Hs & Ht).
  unfold liquidsSettled. cbn [Frame.particles].
  split; [reflexivity |].
  split; [rewrite Hg; exact Hgen |].
  split; [rewrite Hn, Hgen; reflexivity |].
  split; [split; assumption |].
  split; [exact Ht |].
  split; [apply draw_frameCount |].
  split; [apply draw_beatFlash |].
  split; [apply draw_noteTriggers |].
  split; reflexivity.
Qed.

(** Three idle frames of a FUNK session, a beat, then a resize: the
    population is back at 300, the resize drew frame 4 and the flash of
    the beat has already taken its first step down. *)
Lemma resize_rebuilds_population_witness :
  populationSize
    (Frame.particles
       (snd (Population.windowResized leftwardSketch noHands
               (Frame.onBeat
                  (Frame.run rightwardSketch idleInput 3
                             (Population.setup rightwardSketch FUNK))))))
  = 300%nat
  /\ Frame.frameCount
       (snd (Population.windowResized leftwardSketch noHands
               (Frame.onBeat
                  (Frame.run rightwardSketch idleInput 3
                             (Population.setup rightwardSketch FUNK)))))
     = S (Frame.frameCount
            (Frame.run rightwardSketch idleInput 3
                       (Population.setup rightwardSketch FUNK)))
  /\ Frame.beatFlash
       (snd (Population.windowResized leftwardSketch noHands
               (Frame.onBeat
                  (Frame.run rightwardSketch idleInput 3
                             (Population.setup rightwardSketch FUNK)))))
     = 0.9.
Proof.
  set (before :=
         Frame.onBeat (Frame.run rightwardSketch idleInput 3
                                 (Population.setup rightwardSketch FUNK))).
  set (st' := snd (Population.windowResized leftwardSketch noHands before)).
  change (Frame.frameCount
            (Frame.run rightwardSketch idleInput 3
                       (Population.setup rightwardSketch FUNK)))
    with (Frame.frameCount before).
  assert (Hd : forall k, 0 <= draws leftwardSketch k < 1)
    by (intros k; simpl; lra).
  assert (Hw : 0 <= width leftwardSketch) by (simpl; lra).
  assert (Hh : 0 <= height leftwardSketch) by (simpl; lra).
  destruct (resize_rebuilds_population leftwardSketch noHands before
              Hd Hw Hh) as (_ & _ & Hn & _ & _ & Hf & Hb & _).
  fold st' in Hn, Hf, Hb.
  assert (Hgenre : Frame.genreOf (Frame.particles before) = FUNK).
  { unfold before. cbn [Frame.onBeat Frame.particles].
    rewrite (run_genre rightwardSketch idleInput 3
               (Population.setup rightwardSketch FUNK)).
    destruct (initParticles_shape rightwardSketch FUNK 0) as (Hg0 & _).
    unfold Population.setup. cbn [Frame.particles]. exact Hg0. }
  rewrite Hgenre in Hn, Hb.
  split; [exact Hn |]. split; [exact Hf |].
  rewrite Hb. unfold before. cbn [Frame.onBeat Frame.beatFlash].
  unfold Orchestrator.onBeat, Orchestrator.trailStep.
  destruct (Rlt_dec 0.01 1) as [_ | Hn1]; [cbn [snd]; lra | lra].
Defined.

Lemma liquids_stay_on_surface_witness :
  liquidsSettled rightwardSketch
    (Frame.run rightwardSketch idleInput 100
               (freshState (Frame.LiquidSystem [resting 400 300]))).
Proof.
  assert (Hw : 0 <= width rightwardSketch) by (simpl; lra).
  assert (Hh : 0 <= height rightwardSketch) by (simpl; lra).
  apply (liquids_stay_on_surface rightwardSketch idleInput 100 _ Hw Hh).
  split; (constructor; [| constructor]).
  - unfold inClosedBox. simpl. lra.
  - apply resting_speedBounded.
Defined.

Lemma vortex_stays_in_tunnel_witness :
  vortexSettled
    (Frame.run rightwardSketch idleInput 100
               (freshState (Frame.VortexSystem [nearParticle]))).
Proof.
  assert (Hd : forall k, 0 <= draws rightwardSketch k < 1)
    by (intros k; simpl; lra).
  apply (vortex_stays_in_tunnel rightwardSketch idleInput 100 _ Hd).
  split; [cbn; lra |].
  constructor; [| constructor].
  unfold inTunnel, nearParticle. cbn. lra.
Defined.

(** ** Colours of the liquid streaks *)

Section LiquidColours.
Import P5 Liquid.

Lemma constrain_unit (q : R) : 0 <= constrain q 0 1 <= 1.
Proof. unfold constrain. clamp_lra. Qed.

(** Whatever the particle, [show] draws one streak from the previous
    position to the position, and its stroke stays inside the colour mode
    of the sketch: hue in [[0, 360)], saturation in [[10, 80]], brightness
    in [[50, 100]], alpha in [[40, 100]], weight in [[1.5, 4]]. *)
Theorem liquid_show_stays_in_colour_range (pt : LiquidParticle) :
  exists h s b alpha sw,
    show pt
    = [StrokeHSBA h s b alpha; StrokeWeight sw;
       Line (x (prevPos pt)) (y (prevPos pt)) (x (pos pt)) (y (pos pt))]
    /\ 0 <= h < 360
    /\ 10 <= s <= 80
    /\ 50 <= b <= 100
    /\ 40 <= alpha <= 100
    /\ 1.5 <= sw <= 4.
Proof.
  unfold show.
  set (speedNorm := constrain (mag (vel pt) / (maxSpeed pt * 0.8)) 0 1).
  pose proof (constrain_unit (mag (vel pt) / (maxSpeed pt * 0.8))) as Hn.
  fold speedNorm in Hn.
  destruct (Rlt_dec speedNorm 0.3) as [Hcool | Hhot].
  - do 5 eexists. split; [reflexivity |]. unfold map. repeat split; lra.
  - do 5 eexists. split; [reflexivity |].
    assert (Hmap : 280 <= map speedNorm 0.3 1 280 400 <= 400)
      by (unfold map; lra).
    pose proof (jsMod_range (map speedNorm 0.3 1 280 400) 360) as Hmod.
    split; [apply Hmod; lra |].
    unfold map. repeat split; lra.
Qed.

End LiquidColours.

(** ** The spin of the tunnel *)

Section VortexSpin.
Import P5 Frame.

Lemma eachVortex_angle (sk : Sketch) (flash : R) (hands : HandState)
    (gHue : R) (ps : list Vortex.VortexParticle) (angle : R) (c : nat) :
  snd (fst (Vortex.eachVortex sk flash hands gHue ps angle c))
  = angle + INR (List.length ps) * (Vortex.twistOf hands * 0.01).
Proof.
  revert angle c. induction ps as [| pt ps IH]; intros angle c.
  - cbn. lra.
  - cbn [Vortex.eachVortex].
    assert (Hup : snd (fst (Vortex.update sk flash hands pt angle c))
                  = angle + Vortex.twistOf hands * 0.01).
    { unfold Vortex.update.
      destruct (Rlt_dec _ 1); [destruct (Vortex.respawn sk c) |];
        reflexivity. }
    destruct (Vortex.update sk flash hands pt angle c) as [[pt' a1] c1].
    cbn [fst snd] in Hup. subst a1.
    specialize (IH (angle + Vortex.twistOf hands * 0.01) c1).
    destruct (Vortex.eachVortex sk flash hands gHue ps _ c1)
      as [[[cmds rest] a2] c2].
    cbn [fst snd] in *. rewrite IH.
    change (List.length (pt :: ps)) with (S (List.length ps)).
    rewrite S_INR. lra.
Qed.

(** A frame turns the tunnel by 0.0002 for each vortex particle when no
    hand is detected and by 0.0005 for each when at least one is; liquid
    and neural frames leave the angle alone.  The global hue of a frame is
    in [[0, 360)]. *)
Theorem vortex_spin_per_frame (sk : Sketch) (hands : HandState) (st : State) :
  vortexAngle (snd (draw sk hands st))
  = vortexAngle st
    + INR (List.length (vortexesOf (particles st)))
      * (match left hands, right hands with
         | None, None => 0.0002
         | _, _ => 0.0005
         end)
  /\ 0 <= globalHue (snd (draw sk hands st)) < 360.
Proof.
  split.
  - cbn [draw snd vortexAngle]. unfold renderMode.
    destruct (particles st) as [ps | ps | ns].
    + destruct (Liquid.drawEtherealLiquid _ _ _ _ _ _ _) as [[? ?] ?].
      cbn. lra.
    + unfold Vortex.drawVortex.
      pose proof (eachVortex_angle sk
                    (snd (Orchestrator.trailStep (genreOf (VortexSystem ps))
                            (width sk) (height sk) (beatFlash st)))
                    hands (jsMod (INR (S (frameCount st)) * 0.1) 360)
                    ps (vortexAngle st) (cursor st)) as Hangle.
      destruct (Vortex.eachVortex _ _ _ _ _ _ _) as [[[? ?] ?] ?].
      cbn [fst snd vortexesOf] in *. rewrite Hangle.
      unfold Vortex.twistOf.
      destruct (left hands), (right hands); lra.
    + destruct (Neural.drawNeuralGrid _ _ _ _ _) as [[? ?] ?].
      cbn. lra.
  - cbn [draw snd globalHue]. apply jsMod_range; [| lra].
    apply Rmult_le_pos; [apply pos_INR | lra].
Qed.

End VortexSpin.

(** ** Neural nodes *)

Section NeuralNodes.
Import P5 Neural.

Variable sk : Sketch.
Hypothesis draws_unit : forall k, 0 <= draws sk k < 1.

Lemma magSq_flip (vx0 vy0 : R) (fx fy : bool) :
  magSq (createVector (if fx then vx0 * -1 else vx0)
                      (if fy then vy0 * -1 else vy0))
  = magSq (createVector vx0 vy0).
Proof. unfold magSq. cbn [x y]. destruct fx, fy; ring. Qed.

Lemma update_fields (hands : HandState) (n : NeuralNode) (c : nat) :
  let n' := fst (update sk hands n c) in
  magSq (vel n') = magSq (vel n)
  /\ baseSize n' = baseSize n
  /\ id n' = id n.
Proof.
  unfold update.
  destruct (nearHand sk (add (pos n) (vel n)) (left hands)
            || nearHand sk (add (pos n) (vel n)) (right hands));
    cbn [fst vel baseSize id]; rewrite magSq_flip;
    destruct (vel n); auto.
Qed.

(** The test of [checkGlitch], in the words of the distance. *)
Lemma nearHand_spec (at_pos : Vector) (h : option HandCoordinates) :
  nearHand sk at_pos h = true <-> handWithin sk 150 at_pos h.
Proof.
  unfold nearHand, handWithin, dist, Rsqr. destruct h as [hc |].
  - destruct (Rlt_dec _ 150) as [Hlt | Hge].
    + split; [intros _; exists hc; split; [reflexivity | exact Hlt] | easy].
    + split; [discriminate |].
      intros (hc' & Heq & Hlt). injection Heq as <-. contradiction.
  - split; [discriminate | intros (hc & Heq & _); discriminate].
Qed.

(** One update never changes a node's speed, base size or identity: a
    bounce only flips the sign of a velocity component.  It moves the node
    by its velocity, and then shakes it exactly when a detected hand is
    less than 150 pixels from where the node has just moved to: the shake
    adds [random(-5, 5)] to each coordinate, at most 5 pixels per axis,
    from two random values.  With every detected hand 150 pixels or more
    away, and so with no hand detected, the node moves by exactly its
    velocity and nothing is drawn from the generator. *)
Theorem neural_update_keeps_speed
    (hands : HandState) (n : NeuralNode) (c : nat) :
  let n' := fst (update sk hands n c) in
  let c' := snd (update sk hands n c) in
  let moved := add (pos n) (vel n) in
  magSq (vel n') = magSq (vel n)
  /\ baseSize n' = baseSize n
  /\ id n' = id n
  /\ -5 <= x (pos n') - x moved <= 5
  /\ -5 <= y (pos n') - y moved <= 5
  /\ (handWithin sk 150 moved (left hands)
      \/ handWithin sk 150 moved (right hands) ->
      pos n' = createVector (x moved + random (draws sk c) (-5) 5)
                            (y moved + random (draws sk (c + 1)) (-5) 5)
      /\ c' = (c + 2)%nat)
  /\ (~ handWithin sk 150 moved (left hands) ->
      ~ handWithin sk 150 moved (right hands) ->
      pos n' = moved /\ c' = c)
  /\ (left hands = None -> right hands = None ->
      pos n' = moved /\ c' = c).
Proof.
  intros n' c' moved.
  destruct (update_fields hands n c) as (Hv & Hb & Hi).
  split; [exact Hv |]. split; [exact Hb |]. split; [exact Hi |].
  subst n' c'. unfold update. fold moved.
  pose proof (draws_unit c) as H0. pose proof (draws_unit (c + 1)) as H1.
  pose proof (nearHand_spec moved (left hands)) as Hleft.
  pose proof (nearHand_spec moved (right hands)) as Hright.
  destruct (nearHand sk moved (left hands)
            || nearHand sk moved (right hands)) eqn:Hg;
    cbn [fst snd pos x y]; unfold random.
  - split; [lra |]. split; [lra |].
    apply orb_true_iff in Hg.
    split; [intros _; split; reflexivity |].
    split.
    + intros Hnl Hnr. destruct Hg as [Hg | Hg]; [apply Hleft in Hg
                                                | apply Hright in Hg];
        contradiction.
    + intros Hl Hr. rewrite Hl, Hr in Hg.
      destruct Hg as [Hg | Hg]; discriminate.
  - split; [lra |]. split; [lra |].
    apply orb_false_iff in Hg. destruct Hg as [Hgl Hgr].
    split.
    + intros [Hin | Hin]; [apply Hleft in Hin | apply Hright in Hin];
        congruence.
    + split; intros _ _; split; reflexivity.
Qed.

Lemma show_pulse (frameCount : nat) (n : NeuralNode) :
  4 <= baseSize n < 10 ->
  exists h s,
    show frameCount n
    = [FillHSBA h 90 100 80; NoStroke; Ellipse (x (pos n)) (y (pos n)) s]
    /\ 1 <= s < 13.
Proof.
  intros Hb. unfold show. do 2 eexists. split; [reflexivity |].
  pose proof (SIN_bound (INR frameCount * 0.1 + id n * 10)) as [Hlo Hhi].
  lra.
Qed.

Lemma createNode_settled (c : nat) :
  nodeSettled (fst (Population.createNode sk c)).
Proof.
  unfold nodeSettled, Population.createNode.
  cbn [fst baseSize vel id]. unfold random.
  pose proof (draws_unit (c + 3)) as H3. pose proof (draws_unit (c + 4)) as H4.
  pose proof (draws_unit (c + 5)) as H5.
  split; [lra |]. split; [| lra].
  rewrite magSq_mult. unfold magSq, fromAngle. cbn [x y].
  pose proof (sin2_cos2 (draws sk (c + 2) * TWO_PI)) as Hsc.
  unfold Rsqr in Hsc.
  replace (cos (draws sk (c + 2) * TWO_PI) * cos (draws sk (c + 2) * TWO_PI)
           + sin (draws sk (c + 2) * TWO_PI) * sin (draws sk (c + 2) * TWO_PI))
    with 1 by lra.
  nra.
Qed.

Lemma eachNode_settled (fc : nat) (hands : HandState)
    (ns : list NeuralNode) (c : nat) :
  Forall nodeSettled ns ->
  Forall nodeSettled (snd (fst (eachNode sk fc hands ns c))).
Proof.
  intros Hall. revert c. induction Hall as [| n ns Hn _ IH]; intros c;
    [constructor |].
  cbn [eachNode].
  destruct (update_fields hands n c) as (Hv & Hb & Hi).
  destruct (update sk hands n c) as [n' c1]. cbn [fst] in Hv, Hb, Hi.
  specialize (IH c1).
  destruct (eachNode sk fc hands ns c1) as [[cmds rest] c2].
  cbn [fst snd] in *. constructor; [| exact IH].
  unfold nodeSettled in *. rewrite Hv, Hb, Hi. exact Hn.
Qed.

End NeuralNodes.

(** Through any run, nodes keep the speed, base size and identity the
    constructor gave them; so every node is drawn as a dot whose pulsing
    diameter stays in [[1, 13)]. *)
Theorem neural_nodes_keep_speed_and_size
    (sk : Sketch) (inputAt : nat -> Frame.FrameInput) (n : nat)
    (st : Frame.State) :
  Forall nodeSettled (neuralsOf (Frame.particles st)) ->
  Forall (fun node =>
            nodeSettled node
            /\ forall frameCount,
                 exists h s,
                   Neural.show frameCount node
                   = [P5.FillHSBA h 90 100 80; P5.NoStroke;
                      P5.Ellipse (P5.x (Neural.pos node))
                                 (P5.y (Neural.pos node)) s]
                   /\ 1 <= s < 13)
         (neuralsOf (Frame.particles (Frame.run sk inputAt n st))).
Proof.
  intros Hst.
  assert (Hinv : Forall nodeSettled
                        (neuralsOf (Frame.particles
                                      (Frame.run sk inputAt n st)))).
  { apply (run_invariant sk inputAt
             (fun s => Forall nodeSettled (neuralsOf (Frame.particles s))));
      [| | exact Hst].
    - intros e s Hs. destruct e; exact Hs.
    - intros hands s Hs. cbn [Frame.draw snd Frame.particles].
      unfold Frame.renderMode.
      destruct (Frame.particles s) as [ps | ps | ns].
      + destruct (Liquid.drawEtherealLiquid _ _ _ _ _ _ _) as [[? ?] ?].
        constructor.
      + destruct (Vortex.drawVortex _ _ _ _ _ _ _) as [[[? ?] ?] ?].
        constructor.
      + cbn [neuralsOf] in Hs. unfold Neural.drawNeuralGrid.
        pose proof (eachNode_settled sk (S (Frame.frameCount s)) hands ns
                      (Frame.cursor s) Hs) as Hn.
        destruct (Neural.eachNode _ _ _ _ _) as [[? ?] ?].
        exact Hn. }
  revert Hinv. apply Forall_impl. intros node Hnode.
  split; [exact Hnode |].
  intros fc. apply show_pulse. apply Hnode.
Qed.

Lemma neural_nodes_keep_speed_and_size_witness :
  Forall nodeSettled
         (neuralsOf
            (Frame.particles
               (Frame.run rightwardSketch idleInput 10
                          (Population.setup rightwardSketch ELECTRONIC)))).
Proof.
  assert (Hd : forall k, 0 <= draws rightwardSketch k < 1)
    by (intros k; simpl; lra).
  assert (Hst : Forall nodeSettled
                  (neuralsOf (Frame.particles
                                (Population.setup rightwardSketch
                                                  ELECTRONIC)))).
  { unfold Population.setup, Population.initParticles.
    cbn [Frame.particles].
    pose proof (build_Forall (Population.createNode rightwardSketch)
                  nodeSettled (Population.countOf ELECTRONIC) 0
                  (createNode_settled rightwardSketch Hd)) as Hall.
    destruct (Population.build _ _ _) as [ns c']. exact Hall. }
  pose proof (neural_nodes_keep_speed_and_size rightwardSketch idleInput 10
                _ Hst) as Hall.
  revert Hall. apply Forall_impl. intros node [Hnode _]. exact Hnode.
Defined.

(** A node at the origin moving right, a right hand in the far corner of
    the surface: the node is not shaken. *)
Lemma neural_update_keeps_speed_witness :
  Neural.pos (fst (Neural.update rightwardSketch cornerHand
                                 (hd_node twoNodes) 0))
  = P5.add (Neural.pos (hd_node twoNodes)) (Neural.vel (hd_node twoNodes))
  /\ snd (Neural.update rightwardSketch cornerHand (hd_node twoNodes) 0)
     = 0%nat.
Proof.
  assert (Hd : forall k, 0 <= draws rightwardSketch k < 1)
    by (intros k; simpl; lra).
  destruct (neural_update_keeps_speed rightwardSketch Hd cornerHand
              (hd_node twoNodes) 0) as (_ & _ & _ & _ & _ & _ & Hfar & _).
  apply Hfar.
  - intros (hc & Heq & _). discriminate.
  - intros (hc & Heq & Hlt). injection Heq as <-.
    cbn in Hlt. unfold Rsqr in Hlt.
    set (a := (0.9 * 800 - (0 + 1)) * (0.9 * 800 - (0 + 1))
              + (0.9 * 600 - (0 + 0)) * (0.9 * 600 - (0 + 0))) in Hlt.
    assert (Ha : 0 <= a) by (unfold a; nra).
    pose proof (sqrt_sqrt a Ha) as Hsq.
    pose proof (sqrt_pos a) as Hpos.
    assert (Hbig : 22500 < a) by (unfold a; lra).
    nra.
Defined.

(** ** Neural grid: packets and the number of connections *)

Section NeuralEdges.
Import P5 Neural.

Lemma lerp_between (a b t : R) :
  0 <= t < 1 -> Rmin a b <= lerp a b t <= Rmax a b.
Proof.
  intros Ht. unfold lerp, Rmin, Rmax. destruct (Rle_dec a b); nra.
Qed.

(** Every connection carries its packet at a position in [[0, 1)] along
    the segment, so the packet dot is drawn between the two nodes; this
    needs the identities to be non-negative, as [Math.random] makes them. *)
Theorem neural_packet_on_segment
    (frameCount : nat) (nodes : list NeuralNode) (e : Edge) :
  Forall (fun n => 0 <= id n) nodes ->
  In e (connections frameCount nodes) ->
  0 <= e_packetPos e < 1
  /\ exists n1 n2,
       nth_error nodes (e_i e) = Some n1
       /\ nth_error nodes (e_j e) = Some n2
       /\ (e_i e < e_j e)%nat
       /\ In (Ellipse (lerp (x (pos n1)) (x (pos n2)) (e_packetPos e))
                      (lerp (y (pos n1)) (y (pos n2)) (e_packetPos e)) 4)
             (drawConnections frameCount nodes)
       /\ Rmin (x (pos n1)) (x (pos n2))
          <= lerp (x (pos n1)) (x (pos n2)) (e_packetPos e)
          <= Rmax (x (pos n1)) (x (pos n2))
       /\ Rmin (y (pos n1)) (y (pos n2))
          <= lerp (y (pos n1)) (y (pos n2)) (e_packetPos e)
          <= Rmax (y (pos n1)) (y (pos n2)).
Proof.
  intros Hids Hin.
  pose proof Hin as Hin0.
  unfold connections in Hin. apply In_connectAll in Hin.
  destruct Hin as (a & b & n1 & n2 & Hab & Ha & Hb & Hd & He).
  cbn [Nat.add] in He.
  assert (H1 : 0 <= id n1).
  { apply nth_error_In in Ha. rewrite Forall_forall in Hids. auto. }
  assert (H2 : 0 <= id n2).
  { apply nth_error_In in Hb. rewrite Forall_forall in Hids. auto. }
  assert (Hp : 0 <= e_packetPos e < 1).
  { subst e. unfold edgeOf. cbn [e_packetPos].
    apply jsMod_range; [| lra].
    pose proof (pos_INR frameCount). lra. }
  split; [exact Hp |].
  exists n1, n2. subst e. unfold edgeOf in *.
  cbn [e_i e_j e_packetPos] in *.
  split; [exact Ha |]. split; [exact Hb |]. split; [exact Hab |].
  split.
  - unfold drawConnections. right. apply in_flat_map.
    eexists. split; [exact Hin0 |].
    unfold drawEdge. cbn [e_i e_j e_packetPos e_alpha]. rewrite Ha, Hb.
    cbn [In]. tauto.
  - split; apply lerp_between; exact Hp.
Qed.

Lemma connectFrom_length (fc i : nat) (n1 : NeuralNode) (j : nat)
    (others : list NeuralNode) :
  (List.length (connectFrom fc i n1 j others) <= List.length others)%nat.
Proof.
  revert j. induction others as [| n2 rest IH]; intros j; [apply le_n |].
  cbn [connectFrom]. rewrite length_app. specialize (IH (S j)).
  destruct (Rlt_dec (nodeDist n1 n2) maxDist); cbn [List.length]; lia.
Qed.

Lemma connectAll_length (fc i : nat) (nodes : list NeuralNode) :
  (2 * List.length (connectAll fc i nodes)
   <= List.length nodes * (List.length nodes - 1))%nat.
Proof.
  revert i. induction nodes as [| n1 rest IH]; intros i; [apply le_n |].
  cbn [connectAll]. rewrite length_app.
  pose proof (connectFrom_length fc i n1 (S i) rest) as Hfrom.
  specialize (IH (S i)). cbn [List.length].
  destruct (List.length rest) as [| m]; [cbn in *; lia |].
  replace (S m - 1)%nat with m in IH by lia.
  replace (S (S m) - 1)%nat with (S m) by lia. nia.
Qed.

Lemma flat_map_length_5 {A B : Type} (f : A -> list B) (l : list A) :
  (forall a, In a l -> List.length (f a) = 5%nat) ->
  List.length (flat_map f l) = (5 * List.length l)%nat.
Proof.
  induction l as [| a l IH]; intros Hall; [reflexivity |].
  cbn [flat_map List.length]. rewrite length_app.
  rewrite Hall by (left; reflexivity).
  rewrite IH by (intros a' Ha'; apply Hall; right; exact Ha'). lia.
Qed.

(** A frame draws at most [n (n - 1) / 2] connections for [n] nodes, one
    line and one packet dot each: at most 3160 for the 80 nodes of a
    session. *)
Theorem neural_connections_bounded (frameCount : nat) (nodes : list NeuralNode) :
  (2 * List.length (connections frameCount nodes)
   <= List.length nodes * (List.length nodes - 1))%nat
  /\ (List.length nodes = Population.countOf ELECTRONIC ->
      List.length (connections frameCount nodes) <= 3160)%nat
  /\ List.length (drawConnections frameCount nodes)
     = (1 + 5 * List.length (connections frameCount nodes))%nat.
Proof.
  pose proof (connectAll_length frameCount 0 nodes) as Hlen.
  fold (connections frameCount nodes) in Hlen.
  split; [exact Hlen |]. split.
  - intros Hn. rewrite Hn in Hlen. cbn [Population.countOf] in Hlen. lia.
  - unfold drawConnections. cbn [List.length].
    assert (Hall : forall e, In e (connections frameCount nodes) ->
                             List.length (drawEdge nodes e) = 5%nat).
    { intros e He. unfold connections in He. apply In_connectAll in He.
      destruct He as (a & b & n1 & n2 & _ & Ha & Hb & _ & ->).
      unfold drawEdge, edgeOf. cbn [e_i e_j Nat.add]. rewrite Ha, Hb.
      reflexivity. }
    rewrite (flat_map_length_5 _ _ Hall). lia.
Qed.

End NeuralEdges.

Lemma neural_packet_on_segment_witness :
  exists e, In e (Neural.connections 0 twoNodes)
            /\ 0 <= Neural.e_packetPos e < 1.
Proof.
  assert (Hids : Forall (fun n => 0 <= Neural.id n) twoNodes).
  { unfold twoNodes. repeat constructor; cbn; lra. }
  assert (Hd : Neural.nodeDist (hd_node twoNodes)
                               (hd_node (tl twoNodes)) < Neural.maxDist).
  { unfold Neural.nodeDist, P5.dist, Neural.maxDist.
    cbn [hd_node tl twoNodes hd Neural.pos P5.x P5.y].
    replace ((100 - 0) * (100 - 0) + (0 - 0) * (0 - 0)) with (100 * 100)
      by ring.
    rewrite sqrt_square; lra. }
  assert (Hin : In (edgeOf 0 0 1 (hd_node twoNodes) (hd_node (tl twoNodes)))
                   (Neural.connections 0 twoNodes)).
  { unfold Neural.connections. apply In_connectAll.
    exists 0%nat, 1%nat, (hd_node twoNodes), (hd_node (tl twoNodes)).
    repeat split; auto. }
  eexists. split; [exact Hin |].
  exact (proj1 (neural_packet_on_segment 0 twoNodes _ Hids Hin)).
Defined.

(** ** The tracker: frames and error paths *)

Section TrackerFrameFacts.
Import HandTracker TrackerFrames.

(** Once [stop] has run, whether it returned or threw, no camera frame is
    sent to the hand model any more; a [send] that fails while or after
    the tracker stops is not reported; and a tracker that was stopped and
    started again still sends nothing, because its [hands] are gone. *)
Theorem no_frame_sent_after_stop
    (world : World) (t : Tracker) (sendThrows : bool) :
  let stopped := fst (fst (stop world t)) in
  (forall later, onFrame sendThrows stopped later = [])
  /\ (forall t0, ~ In WarnSendError (onFrame sendThrows t0 stopped))
  /\ (snd (stop world t) = Normal ->
      forall newCameraThrows cam startRejects later,
        onFrame sendThrows
                (fst (fst (start newCameraThrows cam startRejects stopped)))
                later
        = []).
Proof.
  intros stopped.
  pose proof (stop_leaves_inactive world t) as Hinactive.
  fold stopped in Hinactive.
  split; [| split].
  - intros later. unfold onFrame. rewrite Hinactive. reflexivity.
  - intros t0 Hin. unfold onFrame in Hin. rewrite Hinactive in Hin.
    destruct (isActive t0), (hands t0), (videoElement t0), sendThrows;
      cbn [In] in Hin; intuition discriminate.
  - intros Hret newCameraThrows cam startRejects later.
    pose proof (stop_clears_hands world t Hret) as Hnone.
    fold stopped in Hnone. unfold onFrame, start.
    destruct newCameraThrows; cbn [fst hands isActive videoElement];
      rewrite Hnone; reflexivity.
Qed.

Ltac stop_cases world t :=
  unfold stop; cbn [camera hands videoElement];
  destruct (camera t) as [[hs] |] eqn:Hcam; [destruct hs |];
  destruct (cameraStopThrows world) eqn:Hthr;
  destruct (hands t) as [h |] eqn:Hh;
  destruct (handsCloseThrows world);
  cbn [fst snd hands hasStop].

Ltac in_effects :=
  intros; rewrite ?in_app_iff in *; cbn [In] in *;
  intuition (try discriminate; try congruence).

Lemma stop_throws_iff (world : World) (t : Tracker) :
  snd (stop world t) = Thrown
  <-> exists cam, camera t = Some cam /\ hasStop cam = true
                  /\ cameraStopThrows world = true.
Proof.
  stop_cases world t; split; intros Hx; try discriminate;
    try (eexists; repeat split; reflexivity);
    destruct Hx as (cam & Hc & Hs & Ht); try discriminate;
    injection Hc as <-; cbn in Hs; discriminate.
Qed.

Lemma stop_thrown_keeps_hands (world : World) (t : Tracker) :
  snd (stop world t) = Thrown ->
  hands (fst (fst (stop world t))) = hands t
  /\ ~ In HandsClose (snd (fst (stop world t))).
Proof.
  pose proof (track_stops_close_nothing) as Htracks.
  stop_cases world t; intros Hx; try discriminate;
    (split; [reflexivity |]);
    destruct (if videoElement t then srcObject world else None);
    in_effects; eapply Htracks; eassumption.
Qed.

Lemma stop_returned_closes_hands (world : World) (t : Tracker) :
  snd (stop world t) = Normal ->
  hands (fst (fst (stop world t))) = None
  /\ (hands t <> None -> In HandsClose (snd (fst (stop world t)))).
Proof.
  stop_cases world t; intros Hx; try discriminate;
    (split; [reflexivity |]); in_effects.
Qed.

Lemma stop_without_camera (world : World) (t : Tracker) :
  camera t = None ->
  snd (stop world t) = Normal
  /\ ~ In CameraStop (snd (fst (stop world t)))
  /\ forall track, ~ In (TrackStop track) (snd (fst (stop world t))).
Proof.
  intros Hnone. unfold stop. cbn [camera hands videoElement]. rewrite Hnone.
  destruct (hands t); destruct (handsCloseThrows world); cbn [fst snd app];
    (split; [reflexivity |]); split; in_effects.
Qed.

(** [stop] throws exactly when the camera exists, has a [stop] method and
    that method throws.  When it throws, [hands] is neither closed nor
    cleared; when it returns, [hands] is cleared, and was closed if it was
    there.  Without a camera (a start that failed before building one) it
    makes no camera or track call and always returns. *)
Theorem stop_error_paths (world : World) (t : Tracker) :
  let after := fst (fst (stop world t)) in
  let effects := snd (fst (stop world t)) in
  (snd (stop world t) = Thrown
   <-> exists cam, camera t = Some cam /\ hasStop cam = true
                   /\ cameraStopThrows world = true)
  /\ (snd (stop world t) = Thrown ->
      hands after = hands t /\ ~ In HandsClose effects)
  /\ (snd (stop world t) = Normal ->
      hands after = None /\ (hands t <> None -> In HandsClose effects))
  /\ (camera t = None ->
      snd (stop world t) = Normal
      /\ ~ In CameraStop effects
      /\ forall track, ~ In (TrackStop track) effects).
Proof.
  intros after effects. subst after effects.
  split; [apply stop_throws_iff |].
  split; [apply stop_thrown_keeps_hands |].
  split; [apply stop_returned_closes_hands | apply stop_without_camera].
Qed.

End TrackerFrameFacts.

(** ** App: recording *)

Section Recording.
Import App.

Lemma firstSupported_spec (b : Browser) (ts : list string) :
  (firstSupported b ts = ""%string
   /\ (mediaRecorderDefined b = false
       \/ forall t, In t ts -> isTypeSupported b t = false))
  \/ (mediaRecorderDefined b = true
      /\ isTypeSupported b (firstSupported b ts) = true
      /\ exists skipped rest,
           ts = skipped ++ firstSupported b ts :: rest
           /\ forall t, In t skipped -> isTypeSupported b t = false).
Proof.
  induction ts as [| type ts IH].
  - left. split; [reflexivity |]. right. intros t [].
  - cbn [firstSupported].
    destruct (mediaRecorderDefined b) eqn:Hdef; cbn [andb].
    + destruct (isTypeSupported b type) eqn:Hsup.
      * right. split; [reflexivity |]. split; [exact Hsup |].
        exists [], ts. split; [reflexivity |]. intros t [].
      * destruct IH as [[Hempty [Hx | Hnone]] | (_ & Hs & skipped & rest & Hts & Hsk)].
        -- discriminate.
        -- left. split; [exact Hempty |]. right.
           intros t [<- | Hin]; [exact Hsup | apply Hnone, Hin].
        -- right. split; [reflexivity |]. split; [exact Hs |].
           exists (type :: skipped), rest. split.
           ++ cbn [app]. f_equal. exact Hts.
           ++ intros t [<- | Hin]; [exact Hsup | apply Hsk, Hin].
    + left. split.
      * clear IH. induction ts as [| t0 ts IHts]; [reflexivity |].
        cbn [firstSupported]. rewrite Hdef. exact IHts.
      * left. reflexivity.
Qed.

(** [getSupportedMimeType] answers the first type of its preference list
    (mp4 with codecs, mp4, webm with codecs, webm) that the browser
    supports, having found every type before it unsupported; it answers
    the empty string when [MediaRecorder] does not exist or no type is
    supported. *)
Theorem getSupportedMimeType_is_first_supported (b : Browser) :
  (getSupportedMimeType b = ""%string
   /\ (mediaRecorderDefined b = false
       \/ forall t, In t types -> isTypeSupported b t = false))
  \/ (mediaRecorderDefined b = true
      /\ isTypeSupported b (getSupportedMimeType b) = true
      /\ exists skipped rest,
           types = skipped ++ getSupportedMimeType b :: rest
           /\ forall t, In t skipped -> isTypeSupported b t = false).
Proof. unfold getSupportedMimeType. apply firstSupported_spec. Qed.

Lemma feed_fields (data : list (nat * nat)) (m : Model) :
  appState (feed data m) = appState m
  /\ isRecording (feed data m) = isRecording m
  /\ currentGenre (feed data m) = currentGenre m
  /\ mediaRecorderRef (feed data m) = mediaRecorderRef m
  /\ recordingMimeTypeRef (feed data m) = recordingMimeTypeRef m
  /\ recordedChunksRef (feed data m)
     = (recordedChunksRef m
        ++ List.map snd (filter (fun d => (0 <? fst d)%nat) data))%list.
Proof.
  revert m. induction data as [| d data IH]; intros m.
  - cbn. rewrite app_nil_r. auto 6.
  - unfold feed in *. cbn [fold_left filter].
    destruct (IH (onDataAvailable (fst d) (snd d) m))
      as (-> & -> & -> & -> & -> & ->).
    unfold onDataAvailable. destruct (0 <? fst d)%nat;
      cbn [appState isRecording currentGenre mediaRecorderRef
           recordingMimeTypeRef recordedChunksRef List.map];
      rewrite <- ?app_assoc; auto 6.
Qed.

End Recording.

Section RecordingFlow.
Import App.

Lemma start_success (b : Browser) (m : Model) :
  isRecording m = false ->
  isRecording (fst (startVideoRecording b m)) = true ->
  let chosen := getSupportedMimeType b in
  let type := if truthy chosen then chosen else defaultMimeType b in
  startVideoRecording b m
  = (mkModel (appState m) true (currentGenre m)
             (Some (mkRecorder recording type)) [] type,
     [RecorderStart]).
Proof.
  intros Hoff Hon. unfold startVideoRecording in *.
  destruct (canvasPresent b); cbn [negb fst] in *; [| congruence].
  destruct (audioStreamPresent b); cbn [negb fst] in *; [| congruence].
  destruct (negb (mediaRecorderDefined b) || constructorThrows b);
    cbn [fst] in *; [congruence |].
  destruct (startThrows b); cbn [fst isRecording] in *; [congruence |].
  cbv zeta. destruct (truthy (getSupportedMimeType b)); reflexivity.
Qed.

(** A recording that starts is saved whole: after start, any data events,
    stop and the recorder's stop event, the download carries exactly the
    non-empty chunks of this recording in the order they came, under the
    name [Hands_Of_Rhythm_<GENRE>.<ext>], with [mp4] for the two mp4 types,
    [webm] for the two webm types, and [video/webm] when neither the page
    nor the recorder names a type; afterwards the chunk list is empty and
    the record button is off. *)
Theorem recording_round_trip
    (b : Browser) (m : Model) (data : list (nat * nat)) :
  isRecording m = false ->
  isRecording (fst (startVideoRecording b m)) = true ->
  let chosen := getSupportedMimeType b in
  let m1 := fst (startVideoRecording b m) in
  let m3 := fst (stopVideoRecording (feed data m1)) in
  snd (stopVideoRecording (feed data m1)) = [RecorderStop]
  /\ isRecording m3 = false
  /\ recordedChunksRef (fst (saveVideoRecording m3)) = []
  /\ exists extension type,
       snd (saveVideoRecording m3)
       = [Download ("Hands_Of_Rhythm_" ++ genreName (currentGenre m) ++ "."
                    ++ extension)%string
                   type
                   (List.map snd (filter (fun d => (0 <? fst d)%nat) data))]
       /\ (In chosen ["video/mp4; codecs=h264,aac"; "video/mp4"]%string ->
           extension = "mp4"%string /\ type = chosen)
       /\ (In chosen ["video/webm; codecs=vp9,opus"; "video/webm"]%string ->
           extension = "webm"%string /\ type = chosen)
       /\ (chosen = ""%string -> defaultMimeType b = ""%string ->
           extension = "webm"%string /\ type = "video/webm"%string).
Proof.
  intros Hoff Hon chosen m1 m3.
  pose proof (start_success b m Hoff Hon) as Hstart. cbv zeta in Hstart.
  fold chosen in Hstart.
  subst m3 m1. rewrite Hstart. cbn [fst].
  set (type0 := if truthy chosen then chosen else defaultMimeType b).
  set (started := mkModel (appState m) true (currentGenre m)
                          (Some (mkRecorder recording type0)) [] type0).
  destruct (feed_fields data started) as (Ha & Hr & Hg & Hm & Ht & Hc).
  unfold stopVideoRecording. rewrite Hm.
  cbn [state mimeType fst snd isRecording].
  split; [reflexivity |]. split; [reflexivity |].
  unfold saveVideoRecording.
  cbn [fst snd recordedChunksRef recordingMimeTypeRef currentGenre].
  split; [reflexivity |].
  rewrite Hg, Ht, Hc.
  cbn [started currentGenre recordingMimeTypeRef recordedChunksRef app].
  do 2 eexists. split; [reflexivity |].
  subst type0. split; [| split].
  - intros [Hc1 | [Hc1 | []]]; rewrite <- Hc1; split; reflexivity.
  - intros [Hc1 | [Hc1 | []]]; rewrite <- Hc1; split; reflexivity.
  - intros Hc1 Hdef. rewrite Hc1, Hdef. split; reflexivity.
Qed.

Lemma recording_round_trip_witness :
  snd (saveVideoRecording
         (fst (stopVideoRecording
                 (feed [(3, 7); (0, 8); (5, 9)]%nat
                       (fst (startVideoRecording webmBrowser initial))))))
  = [Download "Hands_Of_Rhythm_JAZZ.webm" "video/webm" [7; 9]%nat].
Proof.
  destruct (recording_round_trip webmBrowser initial
              [(3, 7); (0, 8); (5, 9)]%nat eq_refl eq_refl)
    as (_ & _ & _ & extension & type & Hsave & _ & Hwebm & _).
  rewrite Hsave.
  destruct (Hwebm (or_intror (or_introl eq_refl))) as [-> ->].
  reflexivity.
Defined.

Lemma stop_keeps_consistent (m : Model) :
  recordingConsistent m ->
  recordingConsistent (fst (stopVideoRecording m))
  /\ isRecording (fst (stopVideoRecording m)) = false
  /\ (isRecording m = true -> snd (stopVideoRecording m) = [RecorderStop]).
Proof.
  intros Hm. unfold stopVideoRecording, recordingConsistent in *.
  destruct (mediaRecorderRef m) as [r |] eqn:Href.
  - destruct (state r) eqn:Hstate; cbn [fst snd isRecording].
    + destruct (isRecording m) eqn:Hrec.
      * destruct (Hm eq_refl) as (r' & Hr' & Hs').
        injection Hr' as <-. congruence.
      * repeat split; congruence.
    + repeat split; congruence.
    + repeat split; congruence.
  - cbn [fst snd]. destruct (isRecording m) eqn:Hrec.
    + destruct (Hm eq_refl) as (r' & Hr' & _). discriminate.
    + repeat split; congruence.
Qed.

(** The record button never lies: starting from the initial state, every
    handler keeps "the button is on only while a recorder is recording".
    So returning to the menu always ends in the idle state with the button
    off, the canvas unmounted, the audio engine stopped, and the recorder
    stopped if it was recording. *)
Theorem return_to_menu_stops_everything (b : Browser) (m : Model) :
  recordingConsistent m ->
  recordingConsistent (fst (handleToggleRecord b m))
  /\ (forall genre loaded,
        recordingConsistent (fst (startExperience genre loaded m)))
  /\ recordingConsistent (fst (saveVideoRecording m))
  /\ (forall size chunk, recordingConsistent (onDataAvailable size chunk m))
  /\ (let after := fst (handleReturnToMenu m) in
      let effects := snd (handleReturnToMenu m) in
      recordingConsistent after
      /\ appState after = IDLE
      /\ isRecording after = false
      /\ canvasMounted after = false
      /\ In AudioStop effects
      /\ (isRecording m = true -> In RecorderStop effects)).
Proof.
  intros Hm.
  destruct (stop_keeps_consistent m Hm) as (Hstop & Hoff & Hfx).
  split; [| split; [| split; [| split]]].
  - unfold handleToggleRecord.
    destruct (isRecording m) eqn:Hrec; cbn [negb]; [exact Hstop |].
    unfold startVideoRecording, recordingConsistent.
    destruct (canvasPresent b); cbn [negb fst]; [| rewrite Hrec; discriminate].
    destruct (audioStreamPresent b); cbn [negb fst];
      [| rewrite Hrec; discriminate].
    destruct (negb (mediaRecorderDefined b) || constructorThrows b);
      cbn [fst]; [rewrite Hrec; discriminate |].
    destruct (startThrows b); cbn [fst isRecording mediaRecorderRef].
    + rewrite Hrec. discriminate.
    + intros _. eexists. split; reflexivity.
  - intros genre loaded. unfold startExperience.
    destruct loaded; exact Hm.
  - exact Hm.
  - intros size chunk. unfold onDataAvailable.
    destruct (0 <? size)%nat; exact Hm.
  - unfold handleReturnToMenu.
    destruct (stopVideoRecording m) as [m1 fx] eqn:Hs.
    cbn [fst snd] in *.
    split; [exact Hstop |]. split; [reflexivity |].
    split; [exact Hoff |]. split; [reflexivity |].
    split; [apply in_or_app; right; left; reflexivity |].
    intros Hrec. rewrite (Hfx Hrec). left. reflexivity.
Qed.

Lemma initial_consistent : recordingConsistent initial.
Proof. intros Hrec. discriminate. Qed.

Lemma return_to_menu_stops_everything_witness :
  isRecording
    (fst (handleReturnToMenu
            (fst (handleToggleRecord webmBrowser
                    (fst (startExperience FUNK true initial))))))
  = false.
Proof.
  assert (H0 : recordingConsistent initial) by exact initial_consistent.
  pose proof (return_to_menu_stops_everything webmBrowser initial H0)
    as (_ & Hstart & _).
  pose proof (return_to_menu_stops_everything webmBrowser _
                (Hstart FUNK true)) as (Htoggle & _).
  pose proof (return_to_menu_stops_everything webmBrowser _ Htoggle)
    as (_ & _ & _ & _ & Hmenu).
  cbv zeta in Hmenu. apply Hmenu.
Defined.

End RecordingFlow.
